(** * node_cleaner: a shallow embedding of [node_cleaner.py] and its properties

    The development follows the layout of the Python source:
    - Python values it relies on (exceptions, [int / int], the [.1f] format,
      [str(int)], [posixpath], [os.walk]);
    - the data model ([NodeModulesEntry]) and [format_size];
    - the scanner ([find_node_modules], [measure_and_enqueue]);
    - the delete step ([delete_entry], and [shutil.rmtree] with the handler
      [_on_rm_error]);
    - the navigation controller ([handle_input]);
    - the event cycle ([main_loop]), one iteration at a time.

    Python [int] is [Z].  A Python [str] is a Rocq [string] that holds its
    UTF-8 text.  Where the code counts the characters of a path
    ([truncate_path]), the characters are those of [PyStr.chars]; path names
    are split at the byte ["/"], which is no part of another character, and
    [error[:8]] is taken on the bytes of the error texts, which are ASCII.  *)

From Stdlib Require Import ZArith String Ascii List Bool Lia DecimalString DecimalZ.
Import ListNotations.

Open Scope string_scope.
Open Scope Z_scope.

(* ------------------------------------------------------------------ *)
(** * Exceptions *)
(* ------------------------------------------------------------------ *)

(** The exceptions that the modelled code can let escape. *)
Inductive exn : Type :=
| OverflowError      (* int / int: result too large for a float *)
| ZeroDivisionError  (* int / 0 *)
| IndexError         (* list index out of range *)
| ValueError.        (* os.path.relpath: no path specified *)

Inductive result (A : Type) : Type :=
| Ok (a : A)
| Raise (e : exn).

Arguments Ok {A} a.
Arguments Raise {A} e.

Definition bind {A B : Type} (r : result A) (k : A -> result B) : result B :=
  match r with
  | Ok a => k a
  | Raise e => Raise e
  end.

Notation "x <- r ;; k" := (bind r (fun x => k))
  (at level 61, r at next level, right associativity).

(* ------------------------------------------------------------------ *)
(** * Python numbers: [str(int)], [int / int], [format(float, '.1f')] *)
(* ------------------------------------------------------------------ *)

Module PyNum.

(** [str(n)] for an integer [n]. *)
Definition str_int (n : Z) : string := NilZero.string_of_int (Z.to_int n).

(** [num / den] (with [0 < den]) rounded to the nearest integer, ties to the
    even one: the rounding of IEEE 754 arithmetic and of Python's float
    formatting. *)
Definition round_half_even (num den : Z) : Z :=
  let q := num / den in
  let r2 := 2 * (num mod den) in
  if r2 <? den then q
  else if den <? r2 then q + 1
  else if Z.even q then q else q + 1.

(** The fraction [x * 2^s], as numerator and (positive) denominator. *)
Definition scale2 (x s : Z) : Z * Z :=
  if 0 <=? s then (x * 2 ^ s, 1) else (x, 2 ^ (- s)).

(** A finite binary64 value [(-1)^fneg * fmant * 2^fexp]. *)
Record pyfloat : Type := mkfloat { fneg : bool; fmant : Z; fexp : Z }.

(** [floor (log2 (a / b))] for [0 < a] and [0 < b]. *)
Definition quotient_exponent (a b : Z) : Z :=
  let e0 := Z.log2 a - Z.log2 b in
  let '(n, d) := scale2 b e0 in
  (* a / b < 2^e0  iff  a * d < n *)
  if a * d <? n then e0 - 1 else e0.

(** [a / b] on Python integers (true division, CPython's
    [long_true_divide]): the quotient correctly rounded to binary64, ties to
    even; [ZeroDivisionError] when [b = 0], [OverflowError] when the rounded
    quotient does not fit a float. *)
Definition int_true_divide (a b : Z) : result pyfloat :=
  if b =? 0 then Raise ZeroDivisionError
  else
    let neg := xorb (a <? 0) (b <? 0) in
    if a =? 0 then Ok (mkfloat neg 0 0)
    else
      let a' := Z.abs a in
      let b' := Z.abs b in
      (* exponent of the leading bit; subnormals share the exponent -1022 *)
      let e := Z.max (quotient_exponent a' b') (-1022) in
      let '(sn, sd) := scale2 1 (52 - e) in
      let m := round_half_even (a' * sn) (b' * sd) in
      if (1024 <=? e) || ((e =? 1023) && (m =? 2 ^ 53)) then Raise OverflowError
      else Ok (mkfloat neg m (e - 52)).

(** [format(x, '.1f')]: the exact value of [x] rounded to one decimal
    place, ties to even, printed as integer part, point, one digit. *)
Definition tenths (x : pyfloat) : Z :=
  let '(n, d) := scale2 (10 * fmant x) (fexp x) in
  round_half_even n d.

Definition format_1f (x : pyfloat) : string :=
  let t := tenths x in
  (if fneg x then "-" else "") ++ str_int (t / 10) ++ "." ++ str_int (t mod 10).

End PyNum.

(* ------------------------------------------------------------------ *)
(** * Size utilities *)
(* ------------------------------------------------------------------ *)

(** The unit table of [format_size]: [("GB", 1 << 30), ("MB", 1 << 20),
    ("KB", 1 << 10)]. *)
Definition size_units : list (string * Z) :=
  [("GB", Z.shiftl 1 30); ("MB", Z.shiftl 1 20); ("KB", Z.shiftl 1 10)].

(** [f"{size_b / threshold:.1f} {unit}"] *)
Definition format_quotient (size_b threshold : Z) (unit : string) : result string :=
  q <- PyNum.int_true_divide size_b threshold ;;
  Ok (PyNum.format_1f q ++ " " ++ unit).

(** The [for unit, threshold in ...] loop of [format_size] with its early
    [return], followed by the final [return f"{size_b} B"]. *)
Fixpoint format_size_loop (size_b : Z) (units : list (string * Z)) : result string :=
  match units with
  | [] => Ok (PyNum.str_int size_b ++ " B")
  | (unit, threshold) :: rest =>
      if threshold <=? size_b then format_quotient size_b threshold unit
      else format_size_loop size_b rest
  end.

Definition format_size (size_kb : Z) : result string :=
  if size_kb =? 0 then Ok "0 B"
  else
    let size_b := size_kb * 1024 in
    format_size_loop size_b size_units.

(* ------------------------------------------------------------------ *)
(** * Data model *)
(* ------------------------------------------------------------------ *)

Record NodeModulesEntry : Type := mkEntry {
  abs_path : string;
  rel_path : string;
  size_kb : Z;
  size_human : string;
  status : string;
  deleted : bool;
  marked : bool
}.

Definition set_size_human (v : string) (e : NodeModulesEntry) : NodeModulesEntry :=
  mkEntry (abs_path e) (rel_path e) (size_kb e) v (status e) (deleted e) (marked e).

Definition set_status (v : string) (e : NodeModulesEntry) : NodeModulesEntry :=
  mkEntry (abs_path e) (rel_path e) (size_kb e) (size_human e) v (deleted e) (marked e).

Definition set_marked (v : bool) (e : NodeModulesEntry) : NodeModulesEntry :=
  mkEntry (abs_path e) (rel_path e) (size_kb e) (size_human e) (status e) (deleted e) v.

Definition set_deleted (v : bool) (e : NodeModulesEntry) : NodeModulesEntry :=
  mkEntry (abs_path e) (rel_path e) (size_kb e) (size_human e) (status e) v (marked e).

Definition set_size_kb (v : Z) (e : NodeModulesEntry) : NodeModulesEntry :=
  mkEntry (abs_path e) (rel_path e) v (size_human e) (status e) (deleted e) (marked e).

(** [NodeModulesEntry.__post_init__] *)
Definition post_init (self : NodeModulesEntry) : result NodeModulesEntry :=
  if (size_human self =? "")%string then
    label <- format_size (size_kb self) ;;
    Ok (set_size_human label self)
  else Ok self.

(** [NodeModulesEntry(abs_path=..., rel_path=..., size_kb=...)]: the
    dataclass constructor with the defaults of the other fields. *)
Definition new_entry (abs_path rel_path : string) (size_kb : Z) : result NodeModulesEntry :=
  post_init (mkEntry abs_path rel_path size_kb "" "Active" false false).

(* ------------------------------------------------------------------ *)
(** * [posixpath]: the functions of [os.path] that the scanner calls *)
(* ------------------------------------------------------------------ *)

Module PosixPath.

Definition is_sep (c : ascii) : bool := Ascii.eqb c "/"%char.

(** [s.startswith('/')] *)
Definition startswith_sep (s : string) : bool :=
  match s with
  | String c _ => is_sep c
  | EmptyString => false
  end.

(** [s.endswith('/')] *)
Fixpoint endswith_sep (s : string) : bool :=
  match s with
  | EmptyString => false
  | String c r =>
      match r with
      | EmptyString => is_sep c
      | String _ _ => endswith_sep r
      end
  end.

(** ['/' in s] *)
Fixpoint has_sep (s : string) : bool :=
  match s with
  | EmptyString => false
  | String c r => is_sep c || has_sep r
  end.

(** [s == '/' * len(s)] *)
Fixpoint all_sep (s : string) : bool :=
  match s with
  | EmptyString => true
  | String c r => is_sep c && all_sep r
  end.

(** [s.rstrip('/')] *)
Fixpoint rstrip_sep (s : string) : string :=
  match s with
  | EmptyString => EmptyString
  | String c r =>
      match rstrip_sep r with
      | EmptyString => if is_sep c then EmptyString else String c EmptyString
      | r' => String c r'
      end
  end.

(** [s.split('/')] *)
Fixpoint split_sep (s : string) : list string :=
  match s with
  | EmptyString => [EmptyString]
  | String c r =>
      if is_sep c then EmptyString :: split_sep r
      else
        match split_sep r with
        | x :: xs => String c x :: xs
        | [] => [String c EmptyString]
        end
  end.

(** [posixpath.join(a, b)] *)
Definition join (a b : string) : string :=
  if startswith_sep b then b
  else if (a =? "")%string || endswith_sep a then a ++ b
  else a ++ "/" ++ b.

(** [posixpath.join(a, *p)] *)
Definition join_all (a : string) (p : list string) : string := fold_left join p a.

(** [p[:p.rfind('/') + 1]]: the text up to and including the last
    separator. *)
Fixpoint head_of (p : string) : string :=
  match p with
  | EmptyString => EmptyString
  | String c r => if has_sep p then String c (head_of r) else EmptyString
  end.

(** [posixpath.dirname(p)] *)
Definition dirname (p : string) : string :=
  let head := head_of p in
  if negb (head =? "")%string && negb (all_sep head) then rstrip_sep head else head.

(** [posixpath.isabs(p)] *)
Definition isabs (p : string) : bool := startswith_sep p.

(** The loop of [posixpath.normpath] over the components. *)
Definition normpath_step (initial_slashes : nat) (new_comps : list string) (comp : string)
  : list string :=
  if (comp =? "")%string || (comp =? ".")%string then new_comps
  else if negb (comp =? "..")%string
          || (Nat.eqb initial_slashes 0 && match new_comps with [] => true | _ => false end)
          || (match new_comps with [] => false | _ => (last new_comps "" =? "..")%string end)
       then (new_comps ++ [comp])%list
       else removelast new_comps.

(** [posixpath.normpath(path)] *)
Definition normpath (path : string) : string :=
  if (path =? "")%string then "."
  else
    let initial_slashes :=
      if startswith_sep path then
        match path with
        | String _ (String c2 r2) =>
            if is_sep c2 && negb (startswith_sep r2) then 2%nat else 1%nat
        | _ => 1%nat
        end
      else 0%nat in
    let comps := split_sep path in
    let new_comps := fold_left (normpath_step initial_slashes) comps [] in
    let path' := String.concat "/" new_comps in
    let path' := String.concat "" (repeat "/" initial_slashes) ++ path' in
    if (path' =? "")%string then "." else path'.

(** [posixpath.abspath(path)] in a process whose working directory is
    [cwd]. *)
Definition abspath (cwd path : string) : string :=
  normpath (if isabs path then path else join cwd path).

(** [len(commonprefix([l1, l2]))] for two lists of components. *)
Fixpoint common_prefix_len (l1 l2 : list string) : nat :=
  match l1, l2 with
  | x :: l1', y :: l2' => if (x =? y)%string then S (common_prefix_len l1' l2') else O
  | _, _ => O
  end.

Definition nonempty (s : string) : bool := negb (s =? "")%string.

(** [posixpath.relpath(path, start)] (as up to CPython 3.12; later
    versions strip and split instead of filtering, and join with the
    separator, with the same result on what [abspath] returns). *)
Definition relpath (cwd path start : string) : result string :=
  if (path =? "")%string then Raise ValueError
  else
    let start_list := filter nonempty (split_sep (abspath cwd start)) in
    let path_list := filter nonempty (split_sep (abspath cwd path)) in
    let i := common_prefix_len start_list path_list in
    let rel_list := (repeat ".." (length start_list - i) ++ skipn i path_list)%list in
    match rel_list with
    | [] => Ok "."
    | a :: p => Ok (join_all a p)
    end.

End PosixPath.

(* ------------------------------------------------------------------ *)
(** * Scanning *)
(* ------------------------------------------------------------------ *)

(** The directory tree under the scan root as [os.walk] sees it.  [Dir]
    lists the sub-directories in the order of [os.scandir].  [Unlisted] is a
    directory that the walk reports in the [dirnames] of its parent and
    yields nothing for: [scandir] failed on it (the error goes to [onerror],
    which ignores it) or it is a symbolic link ([followlinks] is off). *)
#[warnings="-register-all"]
Inductive dtree : Type :=
| Dir (subdirs : list (string * dtree))
| Unlisted.

(** [dirnames.remove(name)] on the sub-directories still to be visited:
    drops the first one called [name]. *)
Fixpoint remove_first (name : string) (subdirs : list (string * dtree))
  : list (string * dtree) :=
  match subdirs with
  | [] => []
  | (n, t) :: rest => if (n =? name)%string then rest else (n, t) :: remove_first name rest
  end.

(** The visit of the [dirnames] of one directory, [f name sub] being what
    the walk does in the sub-directory [name]: the list left after
    [dirnames.remove("node_modules")] ([pruned] records that the first entry
    of that name was dropped). *)
Fixpoint visit_children {A : Type} (f : string -> dtree -> list A)
    (l : list (string * dtree)) (pruned : bool) : list A :=
  match l with
  | [] => []
  | (name, sub) :: l' =>
      if negb pruned && (name =? "node_modules")%string then visit_children f l' true
      else (f name sub ++ visit_children f l' pruned)%list
  end.

(** The [for dirpath, dirnames, _ in os.walk(root, topdown=True, ...)] loop
    of [find_node_modules]: the value of [paths] it builds, from the
    directory [dirpath] down. *)
Fixpoint walk_paths (dirpath : string) (t : dtree) : list string :=
  match t with
  | Unlisted => []
  | Dir subdirs =>
      let dirnames := map fst subdirs in
      ((if existsb (String.eqb "node_modules") dirnames
        then [PosixPath.join dirpath "node_modules"] else []) ++
       visit_children (fun name sub => walk_paths (PosixPath.join dirpath name) sub)
         subdirs false)%list
  end.

(** [measure_size]: the first field of the output of [du -sk abs_path] as
    an integer; [0] when the command fails, times out or prints something
    else.  [du] is the outcome of the external command: [Some n] when it
    exits with status 0 and its output parses to [n]. *)
Definition measure_size (du : string -> option Z) (abs_path : string) : Z :=
  match du abs_path with
  | Some n => n
  | None => 0
  end.

(** [measure_and_enqueue]: the entry put on the queue for [abs_path], or
    the exception that ends the worker before it puts anything. *)
Definition measure_and_enqueue (cwd root : string) (du : string -> option Z)
    (abs_path : string) : result NodeModulesEntry :=
  let size_kb := measure_size du abs_path in
  let parent_abs := PosixPath.dirname abs_path in
  rel <- PosixPath.relpath cwd parent_abs root ;;
  new_entry abs_path rel size_kb.

Definition put_entries (rs : list (result NodeModulesEntry)) : list NodeModulesEntry :=
  flat_map (fun r => match r with Ok e => [e] | Raise _ => [] end) rs.

(** [find_node_modules]: the entries put on [result_queue], listed in the
    order in which the workers were submitted.  (The pool completes them in
    any order, so the queue holds a permutation of this list.) *)
Definition find_node_modules (cwd root : string) (tree : dtree)
    (du : string -> option Z) : list NodeModulesEntry :=
  let paths := walk_paths root tree in
  put_entries (map (measure_and_enqueue cwd root du) paths).

(** A text without separator. *)
Definition sep_free (s : string) : Prop := PosixPath.has_sep s = false.

(** Names that a directory listing can hold: not empty, no separator, and
    neither [.] nor [..]. *)
Definition clean_name (name : string) : bool :=
  negb (name =? "")%string && negb (PosixPath.has_sep name)
  && negb (name =? ".")%string && negb (name =? "..")%string.

Fixpoint nodup_names (l : list string) : bool :=
  match l with
  | [] => true
  | x :: r => negb (existsb (String.eqb x) r) && nodup_names r
  end.

(** A tree as a file system can hold it: in every directory the names are
    clean and pairwise different. *)
Fixpoint wf_tree (t : dtree) : bool :=
  match t with
  | Unlisted => true
  | Dir subdirs =>
      forallb clean_name (map fst subdirs) && nodup_names (map fst subdirs)
      && (fix all (l : list (string * dtree)) : bool :=
            match l with
            | [] => true
            | (_, sub) :: l' => wf_tree sub && all l'
            end) subdirs
  end.

(** The directories in which the walk finds a [node_modules], each as its
    components below the directory the walk starts from. *)
Fixpoint target_dirs (t : dtree) : list (list string) :=
  match t with
  | Unlisted => []
  | Dir subdirs =>
      ((if existsb (String.eqb "node_modules") (map fst subdirs) then [[]] else []) ++
       visit_children (fun name sub => map (cons name) (target_dirs sub)) subdirs false)%list
  end.

(** The normalised absolute path with the components [comps]:
    [/c1/c2/.../cn], and [/] for no component; with [double], the same
    after two leading slashes (the one form other than a single slash that
    [normpath] keeps). *)
Definition path_of (double : bool) (comps : list string) : string :=
  (if double then "//" else "/") ++ String.concat "/" comps.

(** [q] lies inside the directory [p]. *)
Definition inside (q p : string) : Prop := exists rest, q = p ++ "/" ++ rest.

(* ------------------------------------------------------------------ *)
(** * Delete *)
(* ------------------------------------------------------------------ *)

(** The file system that [delete_entry] acts on.  [rmtree w p] is
    [shutil.rmtree(p, onerror=_on_rm_error)] in the state [w]: the state it
    leaves, and [Some (str exc)] when it raises the exception [exc].  What
    the handler makes of the errors of a removal is in [disk_fs] below. *)
Class FileSystem (World : Type) : Type := {
  path_exists : World -> string -> bool;
  rmtree : World -> string -> World * option string
}.

(** [delete_entry]: the error string on failure, [None] on success. *)
Definition delete_entry {World : Type} `{FileSystem World}
    (w : World) (entry : NodeModulesEntry) : World * option string :=
  if negb (path_exists w (abs_path entry)) then (w, Some "Already gone")
  else
    match rmtree w (abs_path entry) with
    | (w', None) => (w', None)
    | (w', Some exc) => (w', Some exc)
    end.

(** A file system for examples: the existing paths, each with the text of
    the exception that removing it raises ([None]: it can be removed). *)
Definition toy_world : Type := list (string * option string).

Fixpoint toy_lookup (w : toy_world) (p : string) : option (option string) :=
  match w with
  | [] => None
  | (q, r) :: w' => if (q =? p)%string then Some r else toy_lookup w' p
  end.

Definition toy_remove (w : toy_world) (p : string) : toy_world :=
  filter (fun qr => negb (fst qr =? p)%string) w.

#[export] Instance toy_fs : FileSystem toy_world := {
  path_exists w p := match toy_lookup w p with Some _ => true | None => false end;
  rmtree w p :=
    match toy_lookup w p with
    | Some None => (toy_remove w p, None)
    | Some (Some err) => (w, Some err)
    | None => (w, Some "[Errno 2] No such file or directory")
    end
}.

(** ** [shutil.rmtree] with the handler [_on_rm_error] *)

(** How a file answers [os.unlink]: it is removed; it is refused until
    [os.chmod] has given the owner the right to write (a read-only file
    where the system looks at the mode of the file); or it is refused
    whatever its mode, and [os.chmod] is refused too (on a read-only mount,
    with the immutable attribute, in a directory of another owner). *)
Inductive fstate : Type := Removable | ReadOnly | Stuck.

(** What is at a path, as far as removing it goes: a file or a directory
    with its entries. *)
#[warnings="-register-all"]
Inductive fnode : Type :=
| File (st : fstate)
| Folder (children : list (string * fnode)).

(** The outcome of a system call: its value, or the [OSError] it raises. *)
Inductive syscall (A : Type) : Type :=
| Done (a : A)
| OSError (msg : string).

Arguments Done {A} a.
Arguments OSError {A} msg.

(** [os.unlink(path)], [os.rmdir(path)]: what is left at the path. *)
Definition os_unlink (n : fnode) : syscall (option fnode) :=
  match n with
  | File Removable => Done None
  | File ReadOnly => OSError "[Errno 13] Permission denied"
  | File Stuck => OSError "[Errno 1] Operation not permitted"
  | Folder _ => OSError "[Errno 21] Is a directory"
  end.

Definition os_rmdir (n : fnode) : syscall (option fnode) :=
  match n with
  | Folder [] => Done None
  | Folder (_ :: _) => OSError "[Errno 39] Directory not empty"
  | File _ => OSError "[Errno 20] Not a directory"
  end.

(** [os.chmod(path, stat.S_IRUSR | stat.S_IWUSR | stat.S_IXUSR)] *)
Definition os_chmod (n : fnode) : syscall fnode :=
  match n with
  | File ReadOnly => Done (File Removable)
  | File Stuck => OSError "[Errno 1] Operation not permitted"
  | _ => Done n
  end.

(** [_on_rm_error(func, path, exc_info)]: [os.chmod], then [func(path)]
    again; whatever either of them raises is dropped
    ([except Exception: pass]).  The result is what is left at the path. *)
Definition _on_rm_error (func : fnode -> syscall (option fnode)) (n : fnode)
  : option fnode :=
  match os_chmod n with
  | OSError _ => Some n
  | Done n' =>
      match func n' with
      | Done remains => remains
      | OSError _ => Some n'
      end
  end.

(** A removal step of [shutil.rmtree]: the [OSError] of [func(path)] is not
    raised but passed to [onerror], and the removal goes on. *)
Definition rm_call (onerror : (fnode -> syscall (option fnode)) -> fnode -> option fnode)
    (func : fnode -> syscall (option fnode)) (n : fnode) : option fnode :=
  match func n with
  | Done remains => remains
  | OSError _ => onerror func n
  end.

(** [shutil.rmtree(path, onerror=onerror)] on what is at [path]: the
    entries of a directory are removed first, each file with [os.unlink] and
    each directory in the same way, then the directory with [os.rmdir].
    The result is what is left at the path when [rmtree] returns. *)
Fixpoint rmtree_at (onerror : (fnode -> syscall (option fnode)) -> fnode -> option fnode)
    (n : fnode) : option fnode :=
  match n with
  | File _ => rm_call onerror os_unlink n
  | Folder children =>
      let remains :=
        (fix each (l : list (string * fnode)) : list (string * fnode) :=
           match l with
           | [] => []
           | (name, c) :: l' =>
               match rmtree_at onerror c with
               | None => each l'
               | Some c' => (name, c') :: each l'
               end
           end) children in
      rm_call onerror os_rmdir (Folder remains)
  end.

(** A file system of target directories: the paths that exist, each with
    what it holds. *)
Definition disk : Type := list (string * fnode).

Fixpoint disk_lookup (w : disk) (p : string) : option fnode :=
  match w with
  | [] => None
  | (q, n) :: w' => if (q =? p)%string then Some n else disk_lookup w' p
  end.

Fixpoint disk_put (w : disk) (p : string) (remains : option fnode) : disk :=
  match w with
  | [] => []
  | (q, n) :: w' =>
      if (q =? p)%string then
        match remains with
        | Some n' => (q, n') :: w'
        | None => disk_put w' p None
        end
      else (q, n) :: disk_put w' p remains
  end.

(** [shutil.rmtree(p, onerror=_on_rm_error)] on a disk: every [OSError] of
    the removal goes to the handler, which raises none, so that [rmtree]
    returns.  (For a path that is not there the error is that of [os.lstat],
    and the [os.chmod] of the handler fails on it as well.) *)
#[export] Instance disk_fs : FileSystem disk := {
  path_exists w p := match disk_lookup w p with Some _ => true | None => false end;
  rmtree w p :=
    match disk_lookup w p with
    | Some n => (disk_put w p (rmtree_at _on_rm_error n), None)
    | None => (w, None)
    end
}.

(* ------------------------------------------------------------------ *)
(** * Input handling *)
(* ------------------------------------------------------------------ *)

Definition SCROLLOFF : Z := 3.

(** Key codes: [curses.KEY_*] and [ord(...)]. *)
Definition KEY_DOWN : Z := 258.
Definition KEY_UP : Z := 259.
Definition KEY_NPAGE : Z := 338.
Definition KEY_PPAGE : Z := 339.
Definition ord (c : ascii) : Z := Z.of_nat (nat_of_ascii c).

Definition len {A : Type} (l : list A) : Z := Z.of_nat (length l).

(** [key in (a, b)] *)
Definition key_in (key : Z) (keys : list Z) : bool := existsb (Z.eqb key) keys.

(** [handle_input]: [(new_selected, new_scroll, quit_flag, delete_flag,
    mark_flag)]. *)
Definition handle_input (key selected scroll : Z) (entries : list NodeModulesEntry)
    (height : Z) : Z * Z * bool * bool * bool :=
  let table_rows := height - 5 in
  let n := len entries in
  let '(selected, quit_flag, delete_flag, mark_flag) :=
    if key_in key [KEY_UP; ord "k"] then (Z.max 0 (selected - 1), false, false, false)
    else if key_in key [KEY_DOWN; ord "j"] then
      (Z.min (Z.max 0 (n - 1)) (selected + 1), false, false, false)
    else if key =? KEY_PPAGE then (Z.max 0 (selected - table_rows), false, false, false)
    else if key =? KEY_NPAGE then
      (Z.min (Z.max 0 (n - 1)) (selected + table_rows), false, false, false)
    else if key =? ord "g" then (0, false, false, false)
    else if key =? ord "G" then (Z.max 0 (n - 1), false, false, false)
    else if key_in key [ord "Q"; ord "q"; 27] then (selected, true, false, false)
    else if key =? ord "D" then (selected, false, true, false)
    else if key =? ord " " then (selected, false, false, true)
    else (selected, false, false, false) in
  let so := Z.min SCROLLOFF (table_rows / 2) in
  let scroll := if selected - scroll <? so then Z.max 0 (selected - so) else scroll in
  let scroll :=
    if scroll + table_rows - so <=? selected then selected - table_rows + so + 1
    else scroll in
  let scroll := Z.max 0 scroll in
  (selected, scroll, quit_flag, delete_flag, mark_flag).

(** The scroll offset that [handle_input] returns when the selection it
    returns is [selected]: its scroll-off rule, as a function. *)
Definition scrolled (selected scroll height : Z) : Z :=
  let table_rows := height - 5 in
  let so := Z.min SCROLLOFF (table_rows / 2) in
  let s1 := if selected - scroll <? so then Z.max 0 (selected - so) else scroll in
  let s2 := if s1 + table_rows - so <=? selected then selected - table_rows + so + 1 else s1 in
  Z.max 0 s2.

(** The keys that [handle_input] does not recognise. *)
Definition unrecognized (key : Z) : Prop :=
  ~ In key [KEY_UP; ord "k"; KEY_DOWN; ord "j"; KEY_PPAGE; KEY_NPAGE;
            ord "g"; ord "G"; ord "Q"; ord "q"; 27; ord "D"; ord " "].

(* ------------------------------------------------------------------ *)
(** * Main loop *)
(* ------------------------------------------------------------------ *)

(** [l[i]] on a Python list: the position read, also for a negative [i]. *)
Definition py_index {A : Type} (l : list A) (i : Z) : result nat :=
  let n := len l in
  if (0 <=? i) && (i <? n) then Ok (Z.to_nat i)
  else if (- n <=? i) && (i <? 0) then Ok (Z.to_nat (n + i))
  else Raise IndexError.

(** The object at position [i] of the list, updated in place by [f]. *)
Fixpoint update_at {A : Type} (i : nat) (f : A -> A) (l : list A) : list A :=
  match l with
  | [] => []
  | x :: r =>
      match i with
      | O => f x :: r
      | S i' => x :: update_at i' f r
      end
  end.

(** The variables of [main_loop] that live across iterations, and the file
    system. *)
Record State (World : Type) : Type := mkState {
  entries : list NodeModulesEntry;
  selected : Z;
  scroll : Z;
  world : World
}.

Arguments mkState {World} entries selected scroll world.
Arguments entries {World} s.
Arguments selected {World} s.
Arguments scroll {World} s.
Arguments world {World} s.

(** What one iteration reads from outside: the items that [get_nowait]
    finds on the queue, the height from [getmaxyx], the key from [getch]
    ([-1]: none) and the key that the confirmation dialog would read. *)
Record Frame : Type := mkFrame {
  arrived : list NodeModulesEntry;
  height : Z;
  key : Z;
  confirm_key : Z
}.

Inductive Outcome (World : Type) : Type :=
| Continue (s : State World)          (* next iteration *)
| Quit (s : State World)              (* [break] *)
| Crash (e : exn) (s : State World).  (* an exception leaves [main_loop] *)

Arguments Continue {World} s.
Arguments Quit {World} s.
Arguments Crash {World} e s.

(** The drain of the queue and the clamp of [selected] and [scroll]: the
    state that the frame shows ([draw_table] is called with it). *)
Definition drain_and_clamp {World : Type} (f : Frame) (s : State World) : State World :=
  let entries := (entries s ++ arrived f)%list in
  let h := height f in
  match entries with
  | [] => mkState entries (selected s) (scroll s) (world s)
  | _ :: _ =>
      let n := len entries in
      let selected := Z.min (selected s) (Z.max 0 (n - 1)) in
      let table_rows := h - 5 in
      let scroll := Z.min (scroll s) (Z.max 0 (n - table_rows)) in
      mkState entries selected scroll (world s)
  end.

(** [if not entry.deleted: entry.marked = not entry.marked] *)
Definition toggle_mark (entry : NodeModulesEntry) : NodeModulesEntry :=
  if negb (deleted entry) then set_marked (negb (marked entry)) entry else entry.

(** The body of [if mark_flag and entries:]. *)
Definition mark_step (h : Z) (entries : list NodeModulesEntry) (selected scroll : Z)
  : result (list NodeModulesEntry * Z * Z) :=
  i <- py_index entries selected ;;
  let entries := update_at i toggle_mark entries in
  if selected <? len entries - 1 then
    let selected := selected + 1 in
    let table_rows := h - 5 in
    let so := Z.min SCROLLOFF (table_rows / 2) in
    let scroll :=
      if scroll + table_rows - so <=? selected then selected - table_rows + so + 1
      else scroll in
    let scroll := Z.max 0 scroll in
    Ok (entries, selected, scroll)
  else Ok (entries, selected, scroll).

(** The positions of [[e for e in entries if e.marked and not e.deleted]]
    in [entries], counted from [i]. *)
Fixpoint marked_from (i : nat) (entries : list NodeModulesEntry) : list nat :=
  match entries with
  | [] => []
  | e :: r =>
      if marked e && negb (deleted e) then i :: marked_from (S i) r
      else marked_from (S i) r
  end.

(** [targets]: the entries to delete, as positions in [entries] (the list
    holds references to the objects of [entries]). *)
Definition select_targets (entries : list NodeModulesEntry) (selected : Z)
  : result (list nat) :=
  match marked_from 0 entries with
  | (_ :: _) as targets => Ok targets
  | [] =>
      cur <- py_index entries selected ;;
      match nth_error entries cur with
      | Some e => if negb (deleted e) then Ok [cur] else Ok []
      | None => Raise IndexError
      end
  end.

(** [entry.status = "Deleting..."; entry.marked = False] *)
Definition begin_delete (entry : NodeModulesEntry) : NodeModulesEntry :=
  set_marked false (set_status "Deleting..." entry).

(** [if error:] on the value that [delete_entry] returns: [None] and the
    empty string are false. *)
Definition truthy (error : option string) : bool :=
  match error with
  | None => false
  | Some msg => negb (msg =? "")%string
  end.

(** The [if error: ... else: ...] after [delete_entry]. *)
Definition finish_delete (error : option string) (entry : NodeModulesEntry)
  : NodeModulesEntry :=
  if truthy error then
    match error with
    | Some msg => set_status ("Err: " ++ substring 0 8 msg) entry
    | None => entry
    end
  else set_size_human "—" (set_size_kb 0 (set_status "Deleted" (set_deleted true entry))).

(** The first [for entry in targets:] loop. *)
Definition begin_all (targets : list nat) (entries : list NodeModulesEntry)
  : list NodeModulesEntry :=
  fold_left (fun es t => update_at t begin_delete es) targets entries.

(** The second [for entry in targets:] loop.  (A target is a position of
    the list, so the first case of the inner [match] does not occur.) *)
Fixpoint delete_loop {World : Type} `{FileSystem World} (w : World)
    (entries : list NodeModulesEntry) (targets : list nat)
  : World * list NodeModulesEntry :=
  match targets with
  | [] => (w, entries)
  | t :: rest =>
      match nth_error entries t with
      | None => delete_loop w entries rest
      | Some entry =>
          let '(w', error) := delete_entry w entry in
          delete_loop w' (update_at t (finish_delete error) entries) rest
      end
  end.

(** The body of [if delete_flag and entries:]. *)
Definition delete_step {World : Type} `{FileSystem World} (confirm : Z)
    (s : State World) : result (State World) :=
  targets <- select_targets (entries s) (selected s) ;;
  match targets with
  | [] => Ok s
  | _ :: _ =>
      if key_in confirm [ord "Y"; ord "y"] then
        let entries := begin_all targets (entries s) in
        let '(w, entries) := delete_loop (world s) entries targets in
        Ok (mkState entries (selected s) (scroll s) w)
      else Ok s
  end.

Definition nonempty_list {A : Type} (l : list A) : bool :=
  match l with
  | [] => false
  | _ :: _ => true
  end.

(** What follows [getch] in one iteration. *)
Definition process_key {World : Type} `{FileSystem World} (f : Frame)
    (s : State World) : Outcome World :=
  if key f =? -1 then Continue s
  else
    let '(selected, scroll, quit_flag, delete_flag, mark_flag) :=
      handle_input (key f) (selected s) (scroll s) (entries s) (height f) in
    let s := mkState (entries s) selected scroll (world s) in
    if quit_flag then Quit s
    else
      match
        (if mark_flag && nonempty_list (entries s) then
           r <- mark_step (height f) (entries s) selected scroll ;;
           let '(es, sel, scr) := r in
           Ok (mkState es sel scr (world s))
         else Ok s)
      with
      | Raise e => Crash e s
      | Ok s =>
          if delete_flag && nonempty_list (entries s) then
            match delete_step (confirm_key f) s with
            | Raise e => Crash e s
            | Ok s => Continue s
            end
          else Continue s
      end.

(** One iteration of the [while True:] loop: the drain of the queue, the
    clamp, and what follows [getch].  The calls that draw ([draw_header],
    [draw_table], [draw_footer], [draw_confirm_dialog]) change none of the
    variables of the loop and are not part of the step; [Crash] stands for
    an exception of the steps that are. *)
Definition main_loop_iteration {World : Type} `{FileSystem World} (f : Frame)
    (s : State World) : Outcome World :=
  process_key f (drain_and_clamp f s).

(** [main_loop] over the frames [frames]: the state after the last one, or
    where the loop ended before. *)
Fixpoint main_loop {World : Type} `{FileSystem World} (frames : list Frame)
    (s : State World) : Outcome World :=
  match frames with
  | [] => Continue s
  | f :: rest =>
      match main_loop_iteration f s with
      | Continue s' => main_loop rest s'
      | o => o
      end
  end.

(** The state that the redraw of a confirmed deletion shows (the calls of
    [draw_table] and [draw_footer] between the two loops over [targets]),
    in the iteration that reads [f] from the state [s]; [None] when the
    iteration does not come to it. *)
Definition redrawn {World : Type} `{FileSystem World} (f : Frame) (s : State World)
  : option (State World) :=
  let s := drain_and_clamp f s in
  if key f =? -1 then None
  else
    let '(selected, scroll, quit_flag, delete_flag, mark_flag) :=
      handle_input (key f) (selected s) (scroll s) (entries s) (height f) in
    if quit_flag || mark_flag || negb delete_flag || negb (nonempty_list (entries s))
    then None
    else
      match select_targets (entries s) selected with
      | Ok (t :: ts) =>
          if key_in (confirm_key f) [ord "Y"; ord "y"] then
            Some (mkState (begin_all (t :: ts) (entries s)) selected scroll (world s))
          else None
      | _ => None
      end.

(** The file system in which the [k]-th target of a confirmed deletion is
    deleted: the one that the deletions of the targets before it leave. *)
Definition world_before {World : Type} `{FileSystem World} (s : State World)
    (targets : list nat) (k : nat) : World :=
  fst (delete_loop (world s) (begin_all targets (entries s)) (firstn k targets)).

(** The state in which [main_loop] enters its loop. *)
Definition initial_state {World : Type} (w : World) : State World := mkState [] 0 0 w.

(** The state of an outcome. *)
Definition outcome_state {World : Type} (o : Outcome World) : State World :=
  match o with
  | Continue s => s
  | Quit s => s
  | Crash _ s => s
  end.

(* ------------------------------------------------------------------ *)
(** * Sessions *)
(* ------------------------------------------------------------------ *)

(** An entry as the scanner puts it on the queue: built by the constructor
    call of [measure_and_enqueue]. *)
Definition scanner_entry (e : NodeModulesEntry) : Prop :=
  exists abs_path rel_path size_kb, new_entry abs_path rel_path size_kb = Ok e.

(** Frames whose queue items all come from the scanner. *)
Definition scanner_frames (frames : list Frame) : Prop :=
  Forall (fun f => Forall scanner_entry (arrived f)) frames.

(** Frames of a terminal that has at least the five rows of the header,
    the column titles and the footer. *)
Definition tall_frames (frames : list Frame) : Prop :=
  Forall (fun f => 5 <= height f) frames.

(** How size, label, mark and deletion go together in a record. *)
Definition record_ok (e : NodeModulesEntry) : Prop :=
  (deleted e = false -> format_size (size_kb e) = Ok (size_human e)) /\
  (deleted e = true -> size_kb e = 0 /\ size_human e = "—" /\ marked e = false).

(** The label of a record of size 0: ["0 B"] when the record is not
    deleted; a deleted record has size 0 and the label ["—"]. *)
Definition zero_label_ok (e : NodeModulesEntry) : Prop :=
  (deleted e = false -> size_kb e = 0 -> size_human e = "0 B") /\
  (deleted e = true -> size_kb e = 0 /\ size_human e = "—").

(** The cursor is on a row of the list and the window starts at a row. *)
Definition cursor_ok {World : Type} (s : State World) : Prop :=
  0 <= selected s <= Z.max 0 (len (entries s) - 1) /\ 0 <= scroll s.

(** Examples: two entries as the scanner makes them, and a file system
    that holds the first. *)
Definition example_a : NodeModulesEntry :=
  mkEntry "/r/a/node_modules" "a" 100 "100.0 KB" "Active" false false.

Definition example_b : NodeModulesEntry :=
  mkEntry "/r/b/node_modules" "b" 2048 "2.0 MB" "Active" false false.

Definition example_world : toy_world := [("/r/a/node_modules", None)].

(** A disk for examples: the target of [example_a] holds a file that can be
    removed, a read-only one, and a package with a file that stays. *)
Definition example_disk : disk :=
  [("/r/a/node_modules",
    Folder [("x.js", File Removable);
            ("y.js", File ReadOnly);
            ("pkg", Folder [("index.js", File Stuck); ("README", File Removable)])])].

(** [n] entries as the scanner makes them, of the projects [/r/p0],
    [/r/p1], ... *)
Definition example_entries (n : nat) : list NodeModulesEntry :=
  map (fun i => mkEntry ("/r/p" ++ PyNum.str_int (Z.of_nat i) ++ "/node_modules")
                        ("p" ++ PyNum.str_int (Z.of_nat i)) 100 "100.0 KB" "Active" false false)
      (seq 0 n).

(** A tree with a [node_modules] inside another one and a linked one. *)
Definition example_tree : dtree :=
  Dir [("a", Dir [("node_modules", Dir [("x", Dir [("node_modules", Dir [])])]);
                  ("src", Dir [])]);
       ("b", Dir [("node_modules", Unlisted)])].

(* ------------------------------------------------------------------ *)
(** * Python strings: characters, [len], slices, [find] *)
(* ------------------------------------------------------------------ *)

Module PyStr.

(** A Python [str] is held as its UTF-8 text, and Python counts its
    characters: a character is a byte that is not a continuation byte
    ([10xxxxxx]) together with the continuation bytes that follow it. *)
Definition is_cont (c : ascii) : bool :=
  match c with
  | Ascii _ _ _ _ _ _ b6 b7 => b7 && negb b6
  end.

Definition starts_cont (s : string) : bool :=
  match s with
  | String c _ => is_cont c
  | EmptyString => false
  end.

Fixpoint all_cont (s : string) : bool :=
  match s with
  | String c r => is_cont c && all_cont r
  | EmptyString => true
  end.

(** A character: a byte followed by continuation bytes only. *)
Definition chunk (x : string) : Prop :=
  exists c t, x = String c t /\ all_cont t = true.

(** A text that does not start with a continuation byte. *)
Definition lead (x : string) : Prop := starts_cont x = false.

(** The characters of a text, in order. *)
Fixpoint chars (s : string) : list string :=
  match s with
  | EmptyString => []
  | String c r =>
      match chars r with
      | x :: xs => if starts_cont r then String c x :: xs else String c "" :: x :: xs
      | [] => [String c ""]
      end
  end.

(** [len(s)] *)
Definition length (s : string) : Z := Z.of_nat (List.length (chars s)).

(** The position that the slice bound [i] stands for in a text of [n]
    characters: a negative bound counts from the end, and a bound beyond
    either end is that end. *)
Definition bound (n i : Z) : Z :=
  if i <? 0 then Z.max 0 (n + i) else Z.min i n.

(** [s[i:]] *)
Definition slice_from (s : string) (i : Z) : string :=
  String.concat "" (skipn (Z.to_nat (bound (length s) i)) (chars s)).

(** The first position of the character [c] in a list of characters, and
    [-1] when the list does not hold it. *)
Fixpoint index_of (c : string) (l : list string) : Z :=
  match l with
  | [] => -1
  | x :: r =>
      if (x =? c)%string then 0
      else
        let k := index_of c r in
        if k =? -1 then -1 else k + 1
  end.

(** [s.find(c)] for a text [c] of one character. *)
Definition find (s c : string) : Z := index_of c (chars s).

End PyStr.

(* ------------------------------------------------------------------ *)
(** * The path column *)
(* ------------------------------------------------------------------ *)

(** [truncate_path]: the path if it fits [max_width], else ["..."] and the
    tail of the path, started at a separator when one is among the first
    eight characters of the tail. *)
Definition truncate_path (rel_path : string) (max_width : Z) : string :=
  if PyStr.length rel_path <=? max_width then rel_path
  else
    let tail := PyStr.slice_from rel_path (- (max_width - 3)) in
    let sep_idx := PyStr.find tail "/" in
    let tail :=
      if negb (sep_idx =? -1) && (sep_idx <? 8) then PyStr.slice_from tail sep_idx
      else tail in
    "..." ++ tail.

Definition COL_STATUS_W : Z := 12.
Definition COL_SIZE_W : Z := 10.
Definition COL_SEP : Z := 2.
Definition COL_MARK_W : Z := 2.

Definition _path_col_width (width : Z) : Z :=
  Z.max 20 (width - COL_MARK_W - COL_SIZE_W - COL_STATUS_W - COL_SEP * 2 - 2).

(* ------------------------------------------------------------------ *)
(** * Records and windows over a session *)
(* ------------------------------------------------------------------ *)

(** What a later state keeps of a record: its two paths, and the whole
    record once it is deleted. *)
Definition kept (e e' : NodeModulesEntry) : Prop :=
  abs_path e' = abs_path e /\ rel_path e' = rel_path e /\ (deleted e = true -> e' = e).

(** The status texts between iterations: ["Deleted"] for a deleted record;
    ["Active"] or ["Err: "] and the first eight characters of an error text
    for the others. *)
Definition status_ok (e : NodeModulesEntry) : Prop :=
  if deleted e then status e = "Deleted"
  else status e = "Active" \/
       exists msg, msg <> "" /\ status e = "Err: " ++ substring 0 8 msg.

(** The selected row is one of the table rows of a terminal of [h] rows:
    [scroll <= selected < scroll + table_rows]. *)
Definition on_screen {World : Type} (h : Z) (s : State World) : Prop :=
  0 <= scroll s <= selected s /\ selected s < scroll s + (h - 5).

(** Frames of a terminal that keeps the height [h]. *)
Definition frames_of_height (h : Z) (frames : list Frame) : Prop :=
  Forall (fun f => height f = h) frames.

(* ------------------------------------------------------------------ *)
(** * Directories of the tree *)
(* ------------------------------------------------------------------ *)

(** The directory that the components [cs] lead to from [t], each through
    the listing of the one before: [None] when a component is not listed or
    a directory on the way cannot be listed. *)
Fixpoint subdir_at (t : dtree) (cs : list string) : option dtree :=
  match cs with
  | [] => Some t
  | c :: cs' =>
      match t with
      | Unlisted => None
      | Dir subdirs =>
          match find (fun p => (fst p =? c)%string) subdirs with
          | Some (_, sub) => subdir_at sub cs'
          | None => None
          end
      end
  end.

(** The directory lists a sub-directory called [node_modules]. *)
Definition has_node_modules (t : dtree) : bool :=
  match t with
  | Dir subdirs => existsb (String.eqb "node_modules") (map fst subdirs)
  | Unlisted => false
  end.

(* ------------------------------------------------------------------ *)
(** * The table *)
(* ------------------------------------------------------------------ *)

(** The attributes of a line: which of [curses.A_DIM], [curses.A_BOLD] and
    [curses.A_REVERSE] are set in [attrs]. *)
Record Attrs : Type := mkAttrs { A_DIM : bool; A_BOLD : bool; A_REVERSE : bool }.

(** What [draw_table] asks the screen for in one row: to clear it
    ([move(row, 0)], [clrtoeol()]), or to write the line of a record with
    its attributes ([addstr(row, 0, line, attrs)]).  The line is made of
    the mark, [path_str], the size label and the status of [entry], padded
    to their columns and cut at the width of the terminal. *)
Inductive TableRow : Type :=
| Cleared (row : Z)
| Shown (row : Z) (entry : NodeModulesEntry) (path_str : string) (attrs : Attrs).

(** [range(n)] *)
Definition range (n : Z) : list Z := map Z.of_nat (seq 0 (Z.to_nat n)).

(** A [for] loop whose body can raise: the results of the body, or the
    first exception. *)
Fixpoint for_each {A B : Type} (body : A -> result B) (l : list A) : result (list B) :=
  match l with
  | [] => Ok []
  | a :: l' =>
      b <- body a ;;
      bs <- for_each body l' ;;
      Ok (b :: bs)
  end.

(** The body of the loop of [draw_table], for the table row [i]. *)
Definition draw_table_row (entries : list NodeModulesEntry) (selected scroll width i : Z)
  : result TableRow :=
  let path_w := _path_col_width width in
  let idx := scroll + i in
  let row := 2 + i in
  if len entries <=? idx then Ok (Cleared row)
  else
    pos <- py_index entries idx ;;
    match nth_error entries pos with
    | None => Raise IndexError
    | Some entry =>
        let path_str := truncate_path (rel_path entry) path_w in
        Ok (Shown row entry path_str
              (mkAttrs (deleted entry) (marked entry) (idx =? selected)))
    end.

(** [draw_table]: what it asks for, row after row. *)
Definition draw_table (entries : list NodeModulesEntry) (selected scroll height width : Z)
  : result (list TableRow) :=
  let table_rows := height - 5 in
  for_each (draw_table_row entries selected scroll width) (range table_rows).

(** The row that [draw_table] asks for at the table row [i], when the
    window starts at a row of the list. *)
Definition row_at (entries : list NodeModulesEntry) (selected scroll width i : Z)
  : TableRow :=
  match nth_error entries (Z.to_nat (scroll + i)) with
  | Some entry =>
      Shown (2 + i) entry (truncate_path (rel_path entry) (_path_col_width width))
        (mkAttrs (deleted entry) (marked entry) (scroll + i =? selected))
  | None => Cleared (2 + i)
  end.

(** The line is written in reverse video. *)
Definition highlighted (r : TableRow) : bool :=
  match r with
  | Cleared _ => false
  | Shown _ _ _ attrs => A_REVERSE attrs
  end.

(* ================================================================== *)
(** * Properties *)
(* ================================================================== *)

(* ------------------------------------------------------------------ *)
(** * Facts on strings *)
(* ------------------------------------------------------------------ *)

Module StrFacts.

Lemma to_list_app (a b : string) :
  list_ascii_of_string (a ++ b) = (list_ascii_of_string a ++ list_ascii_of_string b)%list.
Proof. induction a as [|c a IH]; simpl; [reflexivity | now rewrite IH]. Qed.

Lemma to_list_inj (a b : string) :
  list_ascii_of_string a = list_ascii_of_string b -> a = b.
Proof.
  intros E. rewrite <- (string_of_list_ascii_of_string a), <- (string_of_list_ascii_of_string b).
  now rewrite E.
Qed.

Lemma app_assoc (a b c : string) : (a ++ b) ++ c = a ++ b ++ c.
Proof. induction a as [|x a IH]; simpl; [reflexivity | now rewrite IH]. Qed.

Lemma app_nil_r (a : string) : a ++ "" = a.
Proof. induction a as [|x a IH]; simpl; [reflexivity | now rewrite IH]. Qed.

Lemma length_app (a b : string) :
  String.length (a ++ b) = (String.length a + String.length b)%nat.
Proof. induction a as [|x a IH]; simpl; [reflexivity | now rewrite IH]. Qed.

Lemma app_inv_tail (a b c : string) : a ++ c = b ++ c -> a = b.
Proof.
  intros E. apply to_list_inj. apply (f_equal list_ascii_of_string) in E.
  rewrite !to_list_app in E. now apply List.app_inv_tail in E.
Qed.

Lemma app_inv_head (a b c : string) : a ++ b = a ++ c -> b = c.
Proof. induction a as [|x a IH]; simpl; intros E; [assumption | injection E; auto]. Qed.

Lemma length_substring_le (n : nat) (s : string) :
  (String.length (substring 0 n s) <= n)%nat.
Proof.
  revert s. induction n as [|n IH]; intros [|c s]; simpl; try lia.
  specialize (IH s). lia.
Qed.

Lemma substring_prefix (n : nat) (s : string) :
  exists rest, s = substring 0 n s ++ rest.
Proof.
  revert s. induction n as [|n IH]; intros [|c s]; simpl.
  - now exists "".
  - now exists (String c s).
  - now exists "".
  - destruct (IH s) as [r Hr]. exists r. now rewrite <- Hr.
Qed.

Lemma app_inj_last (a b : string) (c1 c2 : ascii) :
  a ++ String c1 "" = b ++ String c2 "" -> a = b /\ c1 = c2.
Proof.
  intros E. apply (f_equal list_ascii_of_string) in E. rewrite !to_list_app in E.
  simpl in E. apply List.app_inj_tail in E. destruct E as [E1 E2].
  split; [now apply to_list_inj | assumption].
Qed.

End StrFacts.

(* ------------------------------------------------------------------ *)
(** * Python numbers *)
(* ------------------------------------------------------------------ *)

Module PyNumFacts.
Import PyNum.

Lemma to_int_not_nil (z : Z) :
  Z.to_int z <> Decimal.Pos Decimal.Nil /\ Z.to_int z <> Decimal.Neg Decimal.Nil.
Proof.
  split; intros E; pose proof (DecimalZ.of_to z) as R; rewrite E in R;
    cbn in R; subst z; discriminate E.
Qed.

Lemma str_int_inj (a b : Z) : str_int a = str_int b -> a = b.
Proof.
  unfold str_int. intros E.
  destruct (to_int_not_nil a) as [A1 A2], (to_int_not_nil b) as [B1 B2].
  pose proof (NilZero.isi _ A1 A2) as Ra. pose proof (NilZero.isi _ B1 B2) as Rb.
  rewrite E in Ra. rewrite Ra in Rb. injection Rb as Rb. now apply DecimalZ.to_int_inj.
Qed.

Lemma round_half_even_cases (num den : Z) :
  round_half_even num den = num / den \/ round_half_even num den = num / den + 1.
Proof.
  unfold round_half_even.
  destruct (2 * (num mod den) <? den); [now left|].
  destruct (den <? 2 * (num mod den)); [now right|].
  destruct (Z.even (num / den)); [now left | now right].
Qed.

Lemma round_half_even_nonneg (num den : Z) :
  0 <= num -> 0 < den -> 0 <= round_half_even num den.
Proof.
  intros Hn Hd. pose proof (Z.div_pos num den Hn Hd).
  destruct (round_half_even_cases num den) as [-> | ->]; lia.
Qed.

(** The rounded value is a nearest integer: it is within one half of the
    fraction. *)
Lemma round_half_even_nearest (num den : Z) :
  0 < den -> 2 * Z.abs (num - round_half_even num den * den) <= den.
Proof.
  intros Hd. unfold round_half_even.
  pose proof (Z.div_mod num den ltac:(lia)) as E.
  pose proof (Z.mod_pos_bound num den Hd) as B.
  destruct (Z.ltb_spec (2 * (num mod den)) den).
  - nia.
  - destruct (Z.ltb_spec den (2 * (num mod den))); [nia|].
    destruct (Z.even (num / den)); nia.
Qed.

Lemma round_half_even_exact (q den : Z) : 0 < den -> round_half_even (q * den) den = q.
Proof.
  intros Hd. unfold round_half_even.
  rewrite Z.mod_mul, Z.div_mul by lia. simpl.
  destruct (Z.ltb_spec 0 den); [reflexivity | lia].
Qed.

Lemma round_half_even_scale (c num den : Z) :
  0 < c -> 0 < den -> round_half_even (c * num) (c * den) = round_half_even num den.
Proof.
  intros Hc Hd. unfold round_half_even.
  rewrite Z.div_mul_cancel_l by lia. rewrite Z.mul_mod_distr_l by lia.
  replace (2 * (c * (num mod den))) with (c * (2 * (num mod den))) by ring.
  destruct (Z.ltb_spec (2 * (num mod den)) den), (Z.ltb_spec (c * (2 * (num mod den))) (c * den));
    try nia; try reflexivity.
  destruct (Z.ltb_spec den (2 * (num mod den))), (Z.ltb_spec (c * den) (c * (2 * (num mod den))));
    try nia; reflexivity.
Qed.

Lemma scale2_den_pos (x s : Z) : 0 < snd (scale2 x s).
Proof.
  unfold scale2. destruct (Z.leb_spec 0 s); simpl; [lia|].
  apply Z.pow_pos_nonneg; lia.
Qed.

Lemma scale2_num_nonneg (x s : Z) : 0 <= x -> 0 <= fst (scale2 x s).
Proof.
  unfold scale2. intros Hx. destruct (Z.leb_spec 0 s); simpl; [|lia].
  apply Z.mul_nonneg_nonneg; [lia|]. apply Z.pow_nonneg; lia.
Qed.

Lemma tenths_nonneg (x : pyfloat) : 0 <= fmant x -> 0 <= tenths x.
Proof.
  intros Hm. unfold tenths.
  pose proof (scale2_den_pos (10 * fmant x) (fexp x)).
  pose proof (scale2_num_nonneg (10 * fmant x) (fexp x) ltac:(lia)).
  destruct (scale2 (10 * fmant x) (fexp x)) as [n d]; simpl in *.
  now apply round_half_even_nonneg.
Qed.

Lemma quotient_exponent_le (a b : Z) : 0 < b -> quotient_exponent a b <= Z.log2 a.
Proof.
  intros Hb. unfold quotient_exponent.
  pose proof (Z.log2_nonneg b).
  destruct (scale2 b (Z.log2 a - Z.log2 b)) as [n d].
  destruct (a * d <? n); lia.
Qed.

(** Below [2^1023] the quotient of positive integers is a float. *)
Lemma int_true_divide_ok (a b : Z) :
  0 < b -> 0 < a -> a < 2 ^ 1023 ->
  exists m e, int_true_divide a b = Ok (mkfloat false m e) /\ 0 <= m.
Proof.
  intros Hb Ha Hlt. unfold int_true_divide.
  destruct (Z.eqb_spec b 0); [lia|]. destruct (Z.eqb_spec a 0); [lia|].
  destruct (Z.ltb_spec a 0); [lia|]. destruct (Z.ltb_spec b 0); [lia|]. simpl xorb.
  rewrite (Z.abs_eq a), (Z.abs_eq b) by lia.
  pose proof (quotient_exponent_le a b Hb) as Hq.
  assert (Z.log2 a < 1023) as Hl by (apply Z.log2_lt_pow2; lia).
  set (e := Z.max (quotient_exponent a b) (-1022)).
  assert (e <= 1022) as He by (subst e; lia).
  pose proof (scale2_den_pos 1 (52 - e)) as Hd.
  pose proof (scale2_num_nonneg 1 (52 - e) ltac:(lia)) as Hn.
  destruct (scale2 1 (52 - e)) as [sn sd]; simpl in Hd, Hn.
  destruct (Z.leb_spec 1024 e); [lia|]. destruct (Z.eqb_spec e 1023); [lia|]. simpl.
  eexists _, _. split; [reflexivity|].
  apply round_half_even_nonneg; nia.
Qed.

(** [format(x, '.1f')] of a float that is not negative: an integer, the
    point and one digit. *)
Lemma format_1f_shape (m e : Z) :
  0 <= m ->
  exists q d, 0 <= q /\ 0 <= d <= 9 /\
    format_1f (mkfloat false m e) = str_int q ++ "." ++ str_int d.
Proof.
  intros Hm. unfold format_1f. set (t := tenths (mkfloat false m e)).
  assert (0 <= t) as Ht by (apply tenths_nonneg; exact Hm).
  exists (t / 10), (t mod 10). split; [apply Z.div_pos; lia|].
  split; [pose proof (Z.mod_pos_bound t 10); lia | reflexivity].
Qed.

(** A quotient by a power of two that is below [2^53] is exact: its
    [.1f] digits are those of the fraction itself. *)
Lemma int_true_divide_pow2 (a j : Z) :
  0 <= j -> 2 ^ j <= a -> a < 2 ^ 53 ->
  exists x, int_true_divide a (2 ^ j) = Ok x /\ fneg x = false /\
            tenths x = round_half_even (10 * a) (2 ^ j).
Proof.
  intros Hj Hle Hlt.
  assert (0 < 2 ^ j) as Hb by (apply Z.pow_pos_nonneg; lia).
  assert (0 < a) as Ha by lia.
  assert (j <= Z.log2 a) as Hjl by (apply Z.log2_le_pow2; lia).
  assert (Z.log2 a < 53) as Hl by (apply Z.log2_lt_pow2; lia).
  pose proof (Z.log2_spec a Ha) as [Hlo _].
  unfold int_true_divide.
  destruct (Z.eqb_spec (2 ^ j) 0); [lia|]. destruct (Z.eqb_spec a 0); [lia|].
  destruct (Z.ltb_spec a 0); [lia|]. destruct (Z.ltb_spec (2 ^ j) 0); [lia|]. simpl xorb.
  rewrite (Z.abs_eq a), (Z.abs_eq (2 ^ j)) by lia.
  assert (quotient_exponent a (2 ^ j) = Z.log2 a - j) as Hq.
  { unfold quotient_exponent. rewrite Z.log2_pow2 by lia. unfold scale2.
    destruct (Z.leb_spec 0 (Z.log2 a - j)); [|lia].
    rewrite <- Z.pow_add_r by lia. replace (j + (Z.log2 a - j)) with (Z.log2 a) by ring.
    destruct (Z.ltb_spec (a * 1) (2 ^ Z.log2 a)); [lia | reflexivity]. }
  rewrite Hq. rewrite Z.max_l by lia.
  set (k := 52 - Z.log2 a).
  assert (0 <= k) as Hk by (subst k; lia).
  assert (0 < 2 ^ k) as Hpk by (apply Z.pow_pos_nonneg; lia).
  unfold scale2 at 1. destruct (Z.leb_spec 0 (52 - (Z.log2 a - j))); [|lia].
  replace (52 - (Z.log2 a - j)) with (k + j) by (subst k; ring).
  rewrite Z.pow_add_r by lia. rewrite Z.mul_1_l, Z.mul_1_r.
  replace (a * (2 ^ k * 2 ^ j)) with ((a * 2 ^ k) * 2 ^ j) by ring.
  rewrite round_half_even_exact by lia.
  destruct (Z.leb_spec 1024 (Z.log2 a - j)); [lia|].
  destruct (Z.eqb_spec (Z.log2 a - j) 1023); [lia|]. cbn [orb andb].
  eexists. split; [reflexivity|]. split; [reflexivity|].
  unfold tenths, scale2; cbn [fmant fexp].
  destruct (Z.leb_spec 0 (Z.log2 a - j - 52)).
  - assert (j = 0) as Hj0 by lia. subst k.
    replace (Z.log2 a - j - 52) with 0 by lia. replace (52 - Z.log2 a) with 0 by lia.
    rewrite Hj0, !Z.pow_0_r. f_equal. ring.
  - replace (- (Z.log2 a - j - 52)) with (k + j) by (subst k; ring).
    rewrite Z.pow_add_r by lia.
    replace (10 * (a * 2 ^ k)) with (2 ^ k * (10 * a)) by ring.
    apply round_half_even_scale; lia.
Qed.

(** The leading bit of a quotient by a power of two. *)
Lemma quotient_exponent_pow2 (a j : Z) :
  0 <= j -> 2 ^ j <= a -> quotient_exponent a (2 ^ j) = Z.log2 a - j.
Proof.
  intros Hj Ha. unfold quotient_exponent.
  assert (0 < 2 ^ j) as Hp by (apply Z.pow_pos_nonneg; lia).
  rewrite Z.log2_pow2 by assumption.
  assert (j <= Z.log2 a) as Hl by (apply Z.log2_le_pow2; lia).
  unfold scale2. destruct (Z.leb_spec 0 (Z.log2 a - j)); [|lia].
  rewrite <- Z.pow_add_r by lia. replace (j + (Z.log2 a - j)) with (Z.log2 a) by ring.
  destruct (Z.ltb_spec (a * 1) (2 ^ Z.log2 a)); [|reflexivity].
  pose proof (Z.log2_spec a ltac:(lia)). lia.
Qed.

(** Rounding stays below [M] as long as the fraction is below [M - 1/2],
    and reaches an even [M] from there on. *)
Lemma round_half_even_below (num den M : Z) :
  0 < den -> 2 * num < (2 * M - 1) * den -> round_half_even num den < M.
Proof.
  intros Hd Hlt. pose proof (round_half_even_nearest num den Hd). nia.
Qed.

Lemma round_half_even_reaches (num den M : Z) :
  0 < den -> Z.even M = true -> (2 * M - 1) * den <= 2 * num -> num < M * den ->
  round_half_even num den = M.
Proof.
  intros Hd He Hle Hlt. unfold round_half_even.
  pose proof (Z.div_mod num den ltac:(lia)) as E.
  pose proof (Z.mod_pos_bound num den Hd) as B.
  assert (num / den = M - 1) as Hq by nia.
  rewrite Hq in *.
  destruct (Z.ltb_spec (2 * (num mod den)) den); [nia|].
  destruct (Z.ltb_spec den (2 * (num mod den))); [lia|].
  replace (M - 1) with (Z.pred M) by lia. rewrite Z.even_pred.
  rewrite <- Z.negb_even, He. cbn. lia.
Qed.

(** The quotient by [2^j] is a float exactly below [2^(1024+j) - 2^(970+j)],
    the first value that rounds to [2^1024]. *)
Lemma int_true_divide_pow2_float (a j : Z) :
  0 <= j -> 2 ^ j <= a -> a < 2 ^ (1024 + j) - 2 ^ (970 + j) ->
  exists m e, int_true_divide a (2 ^ j) = Ok (mkfloat false m e) /\ 0 <= m.
Proof.
  intros Hj Hle Hlt.
  assert (0 < 2 ^ j) as Hb by (apply Z.pow_pos_nonneg; lia).
  assert (0 < 2 ^ (970 + j)) as Hp by (apply Z.pow_pos_nonneg; lia).
  assert (j <= Z.log2 a) as Hjl by (apply Z.log2_le_pow2; lia).
  assert (Z.log2 a < 1024 + j) as Hl by (apply Z.log2_lt_pow2; lia).
  unfold int_true_divide.
  destruct (Z.eqb_spec (2 ^ j) 0); [lia|]. destruct (Z.eqb_spec a 0); [lia|].
  destruct (Z.ltb_spec a 0); [lia|]. destruct (Z.ltb_spec (2 ^ j) 0); [lia|]. simpl xorb.
  rewrite (Z.abs_eq a), (Z.abs_eq (2 ^ j)) by lia.
  rewrite quotient_exponent_pow2 by lia. rewrite Z.max_l by lia.
  pose proof (scale2_den_pos 1 (52 - (Z.log2 a - j))) as Hd.
  pose proof (scale2_num_nonneg 1 (52 - (Z.log2 a - j)) ltac:(lia)) as Hn.
  destruct (Z.leb_spec 1024 (Z.log2 a - j)); [lia|]. cbn [orb].
  destruct (Z.eqb_spec (Z.log2 a - j) 1023) as [E|E]; cbn [andb].
  - clear Hd Hn. rewrite E. change (52 - 1023) with (-971). unfold scale2.
    change (0 <=? -971) with false. cbv iota. change (- -971) with 971.
    rewrite Z.mul_1_r.
    assert (2 ^ j * 2 ^ 971 = 2 ^ (971 + j)) as Ep
      by (rewrite <- Z.pow_add_r by lia; f_equal; lia).
    rewrite Ep.
    assert (2 ^ (1024 + j) = 2 ^ 53 * 2 ^ (971 + j)) as E1
      by (rewrite <- Z.pow_add_r by lia; f_equal; lia).
    assert (2 ^ (971 + j) = 2 * 2 ^ (970 + j)) as E2.
    { replace (971 + j) with (1 + (970 + j)) by lia. rewrite Z.pow_add_r by lia. reflexivity. }
    assert (0 < 2 ^ (971 + j)) as Hp2 by lia.
    pose proof (round_half_even_below a (2 ^ (971 + j)) (2 ^ 53) Hp2 ltac:(nia)) as Hm.
    destruct (Z.eqb_spec (round_half_even a (2 ^ (971 + j))) (2 ^ 53)); [lia|].
    eexists _, _. split; [reflexivity|]. apply round_half_even_nonneg; lia.
  - destruct (scale2 1 (52 - (Z.log2 a - j))) as [sn sd]; simpl in Hd, Hn.
    eexists _, _. split; [reflexivity|]. apply round_half_even_nonneg; nia.
Qed.

Lemma int_true_divide_pow2_overflow (a j : Z) :
  0 <= j -> 2 ^ (1024 + j) - 2 ^ (970 + j) <= a ->
  int_true_divide a (2 ^ j) = Raise OverflowError.
Proof.
  intros Hj Hle.
  assert (0 < 2 ^ j) as Hb by (apply Z.pow_pos_nonneg; lia).
  assert (0 < 2 ^ (970 + j)) as Hp by (apply Z.pow_pos_nonneg; lia).
  assert (2 ^ (1024 + j) = 2 ^ 54 * 2 ^ (970 + j)) as E0
    by (rewrite <- Z.pow_add_r by lia; f_equal; lia).
  assert (2 ^ (970 + j) = 2 ^ 970 * 2 ^ j) as E3 by (apply Z.pow_add_r; lia).
  assert (0 < 2 ^ 970) as Hp970 by (apply Z.pow_pos_nonneg; lia).
  assert (2 ^ (1023 + j) <= a) as Hlow.
  { assert (2 ^ (1023 + j) = 2 ^ 53 * 2 ^ (970 + j)) as ->
      by (rewrite <- Z.pow_add_r by lia; f_equal; lia).
    change (2 ^ 54) with (2 * 2 ^ 53) in E0. nia. }
  assert (2 ^ j <= a) as Hja.
  { assert (2 ^ j <= 2 ^ (1023 + j)) by (apply Z.pow_le_mono_r; lia). lia. }
  assert (1023 + j <= Z.log2 a) as Hl by (apply Z.log2_le_pow2; lia).
  unfold int_true_divide.
  destruct (Z.eqb_spec (2 ^ j) 0); [lia|]. destruct (Z.eqb_spec a 0); [lia|].
  rewrite (Z.abs_eq a), (Z.abs_eq (2 ^ j)) by lia.
  rewrite quotient_exponent_pow2 by lia. rewrite Z.max_l by lia.
  destruct (Z.leb_spec 1024 (Z.log2 a - j)) as [|Hlt].
  { destruct (scale2 1 (52 - (Z.log2 a - j))); reflexivity. }
  assert (Z.log2 a - j = 1023) as E by lia. rewrite E.
  change (52 - 1023) with (-971). unfold scale2.
  change (0 <=? -971) with false. cbv iota. change (- -971) with 971.
  rewrite Z.mul_1_r.
  assert (2 ^ j * 2 ^ 971 = 2 ^ (971 + j)) as Ep
    by (rewrite <- Z.pow_add_r by lia; f_equal; lia).
  rewrite Ep.
  assert (2 ^ (971 + j) = 2 * 2 ^ (970 + j)) as E2.
  { replace (971 + j) with (1 + (970 + j)) by lia. rewrite Z.pow_add_r by lia. reflexivity. }
  assert (a < 2 ^ (1024 + j)) as Hup.
  { pose proof (Z.log2_spec a ltac:(lia)) as [_ Hs].
    replace (Z.succ (Z.log2 a)) with (1024 + j) in Hs by lia. exact Hs. }
  rewrite (round_half_even_reaches a (2 ^ (971 + j)) (2 ^ 53)).
  - rewrite Z.eqb_refl. reflexivity.
  - lia.
  - reflexivity.
  - change (2 ^ 54) with (2 * 2 ^ 53) in E0. nia.
  - change (2 ^ 54) with (2 * 2 ^ 53) in E0. nia.
Qed.

End PyNumFacts.

(* ------------------------------------------------------------------ *)
(** * [format_size] *)
(* ------------------------------------------------------------------ *)

Section FormatSize.
Import PyNum PyNumFacts.

Lemma format_quotient_length (size_b threshold : Z) (unit s : string) :
  format_quotient size_b threshold unit = Ok s ->
  exists num, s = num ++ " " ++ unit /\ (1 <= String.length num)%nat.
Proof.
  unfold format_quotient. destruct (int_true_divide size_b threshold) as [x|]; simpl;
    [|discriminate].
  intros E. injection E as <-. exists (format_1f x). split; [reflexivity|].
  unfold format_1f. rewrite !StrFacts.length_app. simpl. lia.
Qed.

Lemma format_quotient_shape (size_b threshold : Z) (unit : string) :
  0 < threshold -> 0 < size_b -> size_b < 2 ^ 1023 ->
  exists q d, 0 <= q /\ 0 <= d <= 9 /\
    format_quotient size_b threshold unit = Ok (str_int q ++ "." ++ str_int d ++ " " ++ unit).
Proof.
  intros Ht Hs Hlt.
  destruct (int_true_divide_ok size_b threshold Ht Hs Hlt) as (m & e & E & Hm).
  destruct (format_1f_shape m e Hm) as (q & d & Hq & Hd & F).
  exists q, d. split; [assumption|]. split; [assumption|].
  unfold format_quotient. rewrite E. simpl. rewrite F.
  now rewrite !StrFacts.app_assoc.
Qed.

Lemma format_quotient_exact (size_b j : Z) (unit : string) :
  0 <= j -> 2 ^ j <= size_b -> size_b < 2 ^ 53 ->
  format_quotient size_b (2 ^ j) unit =
    Ok (str_int (round_half_even (10 * size_b) (2 ^ j) / 10) ++ "."
        ++ str_int (round_half_even (10 * size_b) (2 ^ j) mod 10) ++ " " ++ unit).
Proof.
  intros Hj Hle Hlt.
  destruct (int_true_divide_pow2 size_b j Hj Hle Hlt) as (x & E & Hneg & Ht).
  unfold format_quotient. rewrite E. simpl. unfold format_1f. rewrite Hneg, Ht. simpl.
  now rewrite !StrFacts.app_assoc.
Qed.

(** The branch that [format_size] takes on a size that is not zero. *)
Lemma format_size_branch (size_kb : Z) :
  size_kb <> 0 ->
  let size_b := size_kb * 1024 in
  (2 ^ 30 <= size_b -> format_size size_kb = format_quotient size_b (2 ^ 30) "GB") /\
  (2 ^ 20 <= size_b < 2 ^ 30 -> format_size size_kb = format_quotient size_b (2 ^ 20) "MB") /\
  (2 ^ 10 <= size_b < 2 ^ 20 -> format_size size_kb = format_quotient size_b (2 ^ 10) "KB") /\
  (size_b < 2 ^ 10 -> format_size size_kb = Ok (str_int size_b ++ " B")).
Proof.
  intros Hk size_b. unfold format_size. destruct (Z.eqb_spec size_kb 0); [contradiction|].
  fold size_b. unfold size_units, format_size_loop.
  change (Z.shiftl 1 30) with (2 ^ 30). change (Z.shiftl 1 20) with (2 ^ 20).
  change (Z.shiftl 1 10) with (2 ^ 10).
  destruct (Z.leb_spec (2 ^ 30) size_b), (Z.leb_spec (2 ^ 20) size_b),
    (Z.leb_spec (2 ^ 10) size_b); repeat split; intros; try reflexivity; lia.
Qed.

Lemma format_quotient_not_zero_label (size_b threshold : Z) (unit : string) :
  String.length unit = 2%nat -> format_quotient size_b threshold unit <> Ok "0 B".
Proof.
  intros Hu E. apply format_quotient_length in E. destruct E as (num & E & Hn).
  apply (f_equal String.length) in E. rewrite !StrFacts.length_app, Hu in E.
  simpl in E. lia.
Qed.

Lemma format_quotient_not_bytes (size_b threshold n : Z) (unit : string) :
  In unit ["KB"; "MB"; "GB"] ->
  format_quotient size_b threshold unit <> Ok (str_int n ++ " B").
Proof.
  intros Hu E. apply format_quotient_length in E. destruct E as (num & E & _).
  assert (exists c, c <> " "%char /\ unit = String c "B") as (c & Hc & ->).
  { simpl in Hu. destruct Hu as [<- | [<- | [<- | []]]]; eexists; (split; [|reflexivity]);
      discriminate. }
  change (str_int n ++ " B") with (str_int n ++ String " " (String "B" "")) in E.
  change (num ++ " " ++ String c "B") with (num ++ String " " (String c (String "B" ""))) in E.
  replace (str_int n ++ String " " (String "B" ""))
    with ((str_int n ++ String " " "") ++ String "B" "") in E
    by now rewrite StrFacts.app_assoc.
  replace (num ++ String " " (String c (String "B" "")))
    with ((num ++ String " " (String c "")) ++ String "B" "") in E
    by now rewrite StrFacts.app_assoc.
  apply StrFacts.app_inj_last in E. destruct E as [E _].
  replace (num ++ String " " (String c "")) with ((num ++ String " " "") ++ String c "") in E
    by now rewrite StrFacts.app_assoc.
  apply StrFacts.app_inj_last in E. destruct E as [_ E]. congruence.
Qed.

End FormatSize.

Section FormatSizeRange.
Import PyNum PyNumFacts.

(** The quotient by [2^j], where it is a float: an integer part, the point
    and one digit, then the unit. *)
Lemma format_quotient_float (size_b j : Z) (unit : string) :
  0 <= j -> 2 ^ j <= size_b -> size_b < 2 ^ (1024 + j) - 2 ^ (970 + j) ->
  exists q d, 0 <= q /\ 0 <= d <= 9 /\
    format_quotient size_b (2 ^ j) unit = Ok (str_int q ++ "." ++ str_int d ++ " " ++ unit).
Proof.
  intros Hj Hle Hlt.
  destruct (int_true_divide_pow2_float size_b j Hj Hle Hlt) as (m & e & E & Hm).
  destruct (format_1f_shape m e Hm) as (q & d & Hq & Hd & F).
  exists q, d. split; [assumption|]. split; [assumption|].
  unfold format_quotient. rewrite E. simpl. rewrite F.
  now rewrite !StrFacts.app_assoc.
Qed.

Lemma format_quotient_overflow (size_b j : Z) (unit : string) :
  0 <= j -> 2 ^ (1024 + j) - 2 ^ (970 + j) <= size_b ->
  format_quotient size_b (2 ^ j) unit = Raise OverflowError.
Proof.
  intros Hj Hle. unfold format_quotient.
  now rewrite int_true_divide_pow2_overflow.
Qed.

(** The unit that [format_size] takes for a positive size: the largest
    whose threshold the byte value meets. *)
Lemma format_size_largest_unit (size_kb : Z) :
  1 <= size_kb ->
  exists unit j,
    In (unit, 2 ^ j) size_units /\ In unit ["KB"; "MB"; "GB"] /\ 10 <= j <= 30 /\
    2 ^ j <= size_kb * 1024 /\
    (forall u t, In (u, t) size_units -> t <= size_kb * 1024 -> t <= 2 ^ j) /\
    (j < 30 -> size_kb * 1024 < 2 ^ 30) /\
    format_size size_kb = format_quotient (size_kb * 1024) (2 ^ j) unit.
Proof.
  intros Hk.
  destruct (format_size_branch size_kb ltac:(lia)) as (Hg & Hm & Hkb & _).
  assert (forall u t, In (u, t) size_units -> t = 2 ^ 30 \/ t = 2 ^ 20 \/ t = 2 ^ 10) as Hu.
  { intros u t Hin. simpl in Hin.
    destruct Hin as [E | [E | [E | []]]]; injection E as _ <-; auto. }
  assert (forall j, (j = 30 \/ j = 20 \/ j = 10) -> 2 ^ j <= size_kb * 1024 ->
            (forall t, (t = 2 ^ 30 \/ t = 2 ^ 20 \/ t = 2 ^ 10) -> t <= size_kb * 1024 ->
                       t <= 2 ^ j) ->
            forall u t, In (u, t) size_units -> t <= size_kb * 1024 -> t <= 2 ^ j) as Hmax.
  { intros j _ _ Hj u t Hin Ht. apply Hj; [now apply (Hu u t) | assumption]. }
  destruct (Z.le_gt_cases (2 ^ 30) (size_kb * 1024)) as [L|L].
  { exists "GB", 30. split; [simpl; tauto|]. split; [simpl; tauto|]. split; [lia|].
    split; [lia|]. split; [|split; [lia | now apply Hg]].
    apply Hmax; [tauto | lia |]. intros t [-> | [-> | ->]]; lia. }
  destruct (Z.le_gt_cases (2 ^ 20) (size_kb * 1024)) as [L1|L1].
  { exists "MB", 20. split; [simpl; tauto|]. split; [simpl; tauto|]. split; [lia|].
    split; [lia|]. split; [|split; [lia | apply Hm; lia]].
    apply Hmax; [tauto | lia |]. intros t [-> | [-> | ->]]; lia. }
  exists "KB", 10. split; [simpl; tauto|]. split; [simpl; tauto|]. split; [lia|].
  split; [lia|]. split; [|split; [lia | apply Hkb; lia]].
  apply Hmax; [tauto | lia |]. intros t [-> | [-> | ->]]; lia.
Qed.

(** The first size, in bytes and in KB, whose quotient by [2^30] is no
    float. *)
Lemma float_limit_bytes : 2 ^ (1024 + 30) - 2 ^ (970 + 30) = (2 ^ 1044 - 2 ^ 990) * 1024.
Proof. vm_compute. reflexivity. Qed.

Lemma float_limit_above (j : Z) :
  10 <= j < 30 -> 2 ^ 30 <= 2 ^ (1024 + j) - 2 ^ (970 + j).
Proof.
  intros Hj.
  assert (2 ^ (1024 + j) = 2 ^ 54 * 2 ^ (970 + j)) as ->
    by (rewrite <- Z.pow_add_r by lia; f_equal; lia).
  assert (2 ^ 30 <= 2 ^ (970 + j)) by (apply Z.pow_le_mono_r; lia).
  change (2 ^ 54) with 18014398509481984. lia.
Qed.

(** What [format_size] returns for a positive size: a label below
    [2^1044 - 2^990] KB, [OverflowError] from there on. *)
Lemma format_size_positive (size_kb : Z) :
  1 <= size_kb ->
  (size_kb < 2 ^ 1044 - 2 ^ 990 ->
   exists unit threshold q d,
     In (unit, threshold) size_units /\ In unit ["KB"; "MB"; "GB"] /\
     threshold <= size_kb * 1024 /\
     (forall u t, In (u, t) size_units -> t <= size_kb * 1024 -> t <= threshold) /\
     0 <= q /\ 0 <= d <= 9 /\
     format_size size_kb = Ok (str_int q ++ "." ++ str_int d ++ " " ++ unit)) /\
  (2 ^ 1044 - 2 ^ 990 <= size_kb -> format_size size_kb = Raise OverflowError).
Proof.
  intros Hk.
  destruct (format_size_largest_unit size_kb Hk)
    as (unit & j & Hin & Hu & Hj & Hle & Hmax & Hsmall & E).
  pose proof float_limit_bytes as Elim.
  assert (2 ^ 30 <= (2 ^ 1044 - 2 ^ 990) * 1024) as Hbig.
  { rewrite <- Elim. apply Z.leb_le. vm_compute. reflexivity. }
  split.
  - intros Hlt.
    destruct (format_quotient_float (size_kb * 1024) j unit) as (q & d & Hq & Hd & F);
      try lia.
    { destruct (Z.eq_dec j 30) as [->|Hne]; [rewrite Elim; lia|].
      pose proof (float_limit_above j ltac:(lia)). specialize (Hsmall ltac:(lia)). lia. }
    exists unit, (2 ^ j), q, d. rewrite E, F. repeat split; auto; lia.
  - intros Hge.
    assert (j = 30) as -> by (destruct (Z.eq_dec j 30); [assumption|];
                              specialize (Hsmall ltac:(lia)); lia).
    rewrite E. apply format_quotient_overflow; [lia|]. rewrite Elim. lia.
Qed.

End FormatSizeRange.

(** C6 (amended).  [format_size] returns ["0 B"] exactly for the input 0.
    For every positive input below [2^1044 - 2^990] KB it returns the
    quotient of the byte value by the largest of the thresholds of GB, MB
    and KB that the byte value meets, with one decimal place (an integer
    part, a point, one digit), and that unit; below [2^53] bytes, where the
    quotient is exact, the digits are those of the quotient rounded to the
    nearest tenth.  From [2^1044 - 2^990] KB on, the quotient by [2^30] is
    too large for a float and [format_size] raises [OverflowError]; a
    negative input meets no threshold and is printed in bytes.  100, 2048
    and 3145728 KiB give "100.0 KB", "2.0 MB" and "3.0 GB". *)
Theorem format_size_units :
  (forall size_kb, format_size size_kb = Ok "0 B" <-> size_kb = 0) /\
  (forall size_kb, 1 <= size_kb -> size_kb < 2 ^ 1044 - 2 ^ 990 ->
     exists unit threshold q d,
       In (unit, threshold) size_units /\ threshold <= size_kb * 1024 /\
       (forall u t, In (u, t) size_units -> t <= size_kb * 1024 -> t <= threshold) /\
       0 <= q /\ 0 <= d <= 9 /\
       format_size size_kb =
         Ok (PyNum.str_int q ++ "." ++ PyNum.str_int d ++ " " ++ unit)) /\
  (forall size_kb, 1 <= size_kb -> size_kb * 1024 < 2 ^ 53 ->
     exists unit threshold,
       In (unit, threshold) size_units /\ threshold <= size_kb * 1024 /\
       (forall u t, In (u, t) size_units -> t <= size_kb * 1024 -> t <= threshold) /\
       let t := PyNum.round_half_even (10 * (size_kb * 1024)) threshold in
       2 * Z.abs (10 * (size_kb * 1024) - t * threshold) <= threshold /\
       format_size size_kb =
         Ok (PyNum.str_int (t / 10) ++ "." ++ PyNum.str_int (t mod 10) ++ " " ++ unit)) /\
  (forall size_kb, 2 ^ 1044 - 2 ^ 990 <= size_kb ->
     format_size size_kb = Raise OverflowError) /\
  (forall size_kb, size_kb < 0 ->
     format_size size_kb = Ok (PyNum.str_int (size_kb * 1024) ++ " B")) /\
  format_size 100 = Ok "100.0 KB" /\
  format_size 2048 = Ok "2.0 MB" /\
  format_size 3145728 = Ok "3.0 GB".
Proof.
  split; [|split; [|split; [|split; [|split]]]].
  - intros size_kb. split.
    + intros E. destruct (Z.eq_dec size_kb 0) as [|Hk]; [assumption | exfalso].
      destruct (format_size_branch size_kb Hk) as (Hg & Hm & Hkb & Hb).
      destruct (Z.le_gt_cases (2 ^ 30) (size_kb * 1024)) as [L|L].
      { rewrite (Hg L) in E. now apply format_quotient_not_zero_label in E. }
      destruct (Z.le_gt_cases (2 ^ 20) (size_kb * 1024)) as [L1|L1].
      { rewrite (Hm (conj L1 L)) in E. now apply format_quotient_not_zero_label in E. }
      destruct (Z.le_gt_cases (2 ^ 10) (size_kb * 1024)) as [L2|L2].
      { rewrite (Hkb (conj L2 L1)) in E. now apply format_quotient_not_zero_label in E. }
      rewrite (Hb L2) in E. injection E as E.
      change "0 B" with (PyNum.str_int 0 ++ " B") in E.
      apply StrFacts.app_inv_tail, PyNumFacts.str_int_inj in E. lia.
    + intros ->. reflexivity.
  - intros size_kb Hk Hlt.
    destruct (proj1 (format_size_positive size_kb Hk) Hlt)
      as (unit & threshold & q & d & H1 & _ & H2 & H3 & H4 & H5 & H6).
    exists unit, threshold, q, d. repeat split; try assumption; lia.
  - intros size_kb Hk Hlt.
    destruct (format_size_largest_unit size_kb Hk)
      as (unit & j & Hin & _ & Hj & Hle & Hmax & _ & E).
    exists unit, (2 ^ j). split; [assumption|]. split; [assumption|].
    split; [assumption|]. intros t. split.
    + apply PyNumFacts.round_half_even_nearest. apply Z.pow_pos_nonneg; lia.
    + rewrite E. apply format_quotient_exact; lia.
  - intros size_kb Hge.
    assert (0 < 2 ^ 1044 - 2 ^ 990) as Hp by (apply Z.ltb_lt; vm_compute; reflexivity).
    apply (format_size_positive size_kb); lia.
  - intros size_kb Hk.
    destruct (format_size_branch size_kb ltac:(lia)) as (_ & _ & _ & Hb). apply Hb. lia.
  - repeat split; reflexivity.
Qed.

(** At [2^1100] KB, a size that is not 0 and meets the threshold of GB,
    [format_size] returns no label; and -1 KB is printed without any of the
    three units. *)
Lemma format_size_without_unit :
  2 ^ 1100 <> 0 /\ Z.shiftl 1 30 <= 2 ^ 1100 * 1024 /\
  format_size (2 ^ 1100) = Raise OverflowError /\
  -1 <> 0 /\ format_size (-1) = Ok "-1024 B".
Proof.
  split; [discriminate|]. split; [apply Z.leb_le; vm_compute; reflexivity|].
  split; [vm_compute; reflexivity|]. split; [discriminate | reflexivity].
Qed.

(** C10 (amended).  For every [size_kb >= 1] the byte value is at least
    1024, so [format_size] takes one of the KB, MB, GB branches and never
    its final ["<n> B"] one, whose text it does not return.  Below
    [2^1044 - 2^990] KB it returns a string that ends in one of the three
    units; from there on the GB branch raises [OverflowError] and nothing
    is returned. *)
Theorem format_size_unit_for_positive (size_kb : Z) :
  1 <= size_kb ->
  2 ^ 10 <= size_kb * 1024 /\
  (exists unit threshold,
     In (unit, threshold) size_units /\ threshold <= size_kb * 1024 /\
     format_size size_kb = format_quotient (size_kb * 1024) threshold unit) /\
  format_size size_kb <> Ok (PyNum.str_int (size_kb * 1024) ++ " B") /\
  (size_kb < 2 ^ 1044 - 2 ^ 990 ->
   exists num unit, In unit ["KB"; "MB"; "GB"] /\ format_size size_kb = Ok (num ++ " " ++ unit)) /\
  (2 ^ 1044 - 2 ^ 990 <= size_kb -> format_size size_kb = Raise OverflowError).
Proof.
  intros Hk.
  destruct (format_size_largest_unit size_kb Hk)
    as (unit & j & Hin & Hu & Hj & Hle & _ & _ & E).
  destruct (format_size_positive size_kb Hk) as [Hret Hover].
  split; [lia|]. split; [|split; [|split]].
  - exists unit, (2 ^ j). repeat split; assumption.
  - rewrite E. now apply format_quotient_not_bytes.
  - intros Hlt. destruct (Hret Hlt) as (u & t & q & d & _ & Hu' & _ & _ & _ & _ & F).
    exists (PyNum.str_int q ++ "." ++ PyNum.str_int d), u. split; [assumption|].
    rewrite F. now rewrite !StrFacts.app_assoc.
  - exact Hover.
Qed.

Lemma format_size_unit_for_positive_witness :
  1 <= 1 /\
  exists num unit, In unit ["KB"; "MB"; "GB"] /\ format_size 1 = Ok (num ++ " " ++ unit).
Proof.
  split; [lia|].
  apply (format_size_unit_for_positive 1); [lia | reflexivity].
Defined.

(** At [2^1044] KB, a size of at least 1, [format_size] returns no
    string. *)
Lemma format_size_raises_for_positive :
  1 <= 2 ^ 1044 /\ format_size (2 ^ 1044) = Raise OverflowError /\
  forall s, format_size (2 ^ 1044) <> Ok s.
Proof.
  assert (format_size (2 ^ 1044) = Raise OverflowError) as E by (vm_compute; reflexivity).
  split; [apply Z.leb_le; vm_compute; reflexivity|]. split; [exact E|].
  intros s. rewrite E. discriminate.
Qed.

(* ------------------------------------------------------------------ *)
(** * Paths *)
(* ------------------------------------------------------------------ *)

Module PathFacts.
Import PosixPath.

Lemma clean_name_spec (n : string) :
  clean_name n = true <-> n <> "" /\ sep_free n /\ n <> "." /\ n <> "..".
Proof.
  unfold clean_name, sep_free. rewrite !andb_true_iff, !negb_true_iff, !String.eqb_neq.
  tauto.
Qed.

Lemma has_sep_app (a b : string) : has_sep (a ++ b) = has_sep a || has_sep b.
Proof. induction a as [|c a IH]; simpl; [reflexivity | now rewrite IH, orb_assoc]. Qed.

Lemma sep_free_first (c : ascii) (r : string) : sep_free (String c r) -> is_sep c = false.
Proof. unfold sep_free. simpl. now intros [H _]%orb_false_iff. Qed.

Lemma startswith_sep_free (n : string) : sep_free n -> startswith_sep n = false.
Proof. destruct n as [|c r]; [reflexivity | apply sep_free_first]. Qed.

Lemma endswith_sep_free (n : string) : sep_free n -> endswith_sep n = false.
Proof.
  unfold sep_free. induction n as [|c r IH]; [reflexivity|].
  simpl. intros [Hc Hr]%orb_false_iff. destruct r; [assumption | now apply IH].
Qed.

Lemma endswith_sep_app (a b : string) : b <> "" -> endswith_sep (a ++ b) = endswith_sep b.
Proof.
  intros Hb. induction a as [|c a IH]; [reflexivity|].
  simpl. destruct (a ++ b) eqn:E; [|assumption].
  destruct a; [simpl in E; contradiction | discriminate].
Qed.

(** ** [split] and [join] on components without separator *)

Lemma split_sep_free (a : string) : sep_free a -> split_sep a = [a].
Proof.
  unfold sep_free. induction a as [|c a IH]; [reflexivity|].
  simpl. intros [Hc Ha]%orb_false_iff. now rewrite Hc, IH.
Qed.

Lemma split_sep_app (a b : string) :
  sep_free a -> split_sep (a ++ "/" ++ b) = a :: split_sep b.
Proof.
  unfold sep_free. change ("/" ++ b) with (String "/" b).
  induction a as [|c a IH]; [reflexivity|].
  simpl. intros [Hc Ha]%orb_false_iff. now rewrite Hc, IH.
Qed.

Lemma concat_cons (x : string) (xs : list string) :
  xs <> [] -> String.concat "/" (x :: xs) = x ++ "/" ++ String.concat "/" xs.
Proof. destruct xs; [contradiction | reflexivity]. Qed.

Lemma split_concat (xs : list string) :
  xs <> [] -> Forall sep_free xs -> split_sep (String.concat "/" xs) = xs.
Proof.
  induction xs as [|x xs IH]; [contradiction|]. intros _ H.
  inversion H as [|? ? Hx Hxs]; subst.
  destruct xs as [|y ys]; [now apply split_sep_free|].
  rewrite concat_cons by discriminate. rewrite split_sep_app by assumption.
  now rewrite IH.
Qed.

Lemma concat_snoc (xs : list string) (n : string) :
  xs <> [] -> String.concat "/" (xs ++ [n]) = String.concat "/" xs ++ "/" ++ n.
Proof.
  induction xs as [|x xs IH]; [contradiction|]. intros _.
  destruct xs as [|y ys]; [reflexivity|].
  change ((x :: y :: ys) ++ [n])%list with (x :: ((y :: ys) ++ [n]))%list.
  rewrite concat_cons by (intros E; discriminate E). rewrite IH by discriminate.
  rewrite (concat_cons x (y :: ys)) by discriminate. now rewrite !StrFacts.app_assoc.
Qed.

Lemma concat_nonempty (xs : list string) :
  xs <> [] -> Forall (fun x => x <> "") xs -> String.concat "/" xs <> "".
Proof.
  destruct xs as [|x xs]; [contradiction|]. intros _ H. inversion H; subst.
  destruct xs; simpl; [assumption|]. destruct x; [contradiction | discriminate].
Qed.

Lemma concat_endswith (xs : list string) :
  xs <> [] -> Forall (fun x => x <> "" /\ sep_free x) xs ->
  endswith_sep (String.concat "/" xs) = false.
Proof.
  induction xs as [|x xs IH]; [contradiction|]. intros _ H.
  inversion H as [|? ? [Hx Hs] Hxs]; subst.
  destruct xs as [|y ys]; [now apply endswith_sep_free|].
  rewrite concat_cons by discriminate. rewrite <- StrFacts.app_assoc.
  rewrite endswith_sep_app; [apply IH; [discriminate | assumption]|].
  apply concat_nonempty; [discriminate|].
  eapply Forall_impl; [|exact Hxs]. now intros ? [? _].
Qed.

(** ** Lists of clean names *)

Lemma clean_forall (xs : list string) :
  forallb clean_name xs = true ->
  Forall (fun x => x <> "" /\ sep_free x) xs /\ Forall sep_free xs
  /\ Forall (fun x => x <> "") xs.
Proof.
  rewrite forallb_forall. intros H. repeat split; apply Forall_forall; intros x Hx;
    apply H, clean_name_spec in Hx; tauto.
Qed.

Lemma clean_app (xs ys : list string) :
  forallb clean_name (xs ++ ys) = true <->
  forallb clean_name xs = true /\ forallb clean_name ys = true.
Proof. rewrite forallb_app, andb_true_iff. tauto. Qed.

Lemma concat_first (xs : list string) :
  xs <> [] -> forallb clean_name xs = true ->
  exists c r, String.concat "/" xs = String c r /\ is_sep c = false.
Proof.
  destruct xs as [|x xs]; [contradiction|]. intros _ H. simpl in H.
  apply andb_true_iff in H. destruct H as [Hx _]. apply clean_name_spec in Hx.
  destruct Hx as (Hne & Hs & _). destruct x as [|c r]; [contradiction|].
  exists c. apply sep_free_first in Hs.
  destruct xs; simpl; eauto.
Qed.

(** ** [path_of] *)

Lemma path_of_nonempty_endswith (d : bool) (xs : list string) :
  xs <> [] -> forallb clean_name xs = true -> endswith_sep (path_of d xs) = false.
Proof.
  intros Hne H. unfold path_of. destruct (clean_forall xs H) as (H1 & _ & H3).
  rewrite endswith_sep_app; [now apply concat_endswith | now apply concat_nonempty].
Qed.

Lemma path_of_snoc (d : bool) (xs : list string) (n : string) :
  xs <> [] -> path_of d (xs ++ [n]) = path_of d xs ++ "/" ++ n.
Proof. intros Hne. unfold path_of. now rewrite concat_snoc, StrFacts.app_assoc. Qed.

Lemma join_path_of (d : bool) (xs : list string) (n : string) :
  forallb clean_name xs = true -> clean_name n = true ->
  join (path_of d xs) n = path_of d (xs ++ [n]).
Proof.
  intros Hxs Hn. apply clean_name_spec in Hn. destruct Hn as (_ & Hs & _).
  unfold join. rewrite (startswith_sep_free n Hs).
  destruct xs as [|x xs]; [now destruct d|].
  rewrite path_of_nonempty_endswith by (assumption || discriminate).
  assert ((path_of d (x :: xs) =? "")%string = false) as -> by now destruct d.
  now rewrite path_of_snoc by discriminate.
Qed.

(** ** [dirname] *)

Lemma head_of_sep_free (n : string) : sep_free n -> head_of n = "".
Proof. unfold sep_free. destruct n as [|c r]; [reflexivity|]. intros H. simpl head_of.
  change (is_sep c || has_sep r) with (has_sep (String c r)). now rewrite H. Qed.

Lemma head_of_app (a n : string) : sep_free n -> head_of (a ++ "/" ++ n) = a ++ "/".
Proof.
  intros Hn. change ("/" ++ n) with (String "/" n). change (a ++ "/") with (a ++ String "/" "").
  induction a as [|c a IH].
  - simpl. now rewrite head_of_sep_free.
  - change (String c a ++ String "/" n) with (String c (a ++ String "/" n)).
    cbn [head_of]. rewrite IH.
    change (is_sep c || has_sep (a ++ String "/" n)) with (has_sep (String c (a ++ String "/" n))).
    assert (has_sep (String c (a ++ String "/" n)) = true) as ->; [|reflexivity].
    change (String c (a ++ String "/" n)) with (String c a ++ String "/" n).
    rewrite has_sep_app. simpl. now rewrite !orb_true_r.
Qed.

Lemma rstrip_sep_app (a : string) : rstrip_sep (a ++ "/") = rstrip_sep a.
Proof. induction a as [|c a IH]; [reflexivity|]. simpl. now rewrite IH. Qed.

Lemma rstrip_sep_id (a : string) : endswith_sep a = false -> rstrip_sep a = a.
Proof.
  induction a as [|c a IH]; [reflexivity|]. simpl. destruct a as [|c' a].
  - intros ->. reflexivity.
  - intros H. rewrite (IH H). reflexivity.
Qed.

Lemma dirname_path_of (d : bool) (xs : list string) (n : string) :
  forallb clean_name xs = true -> clean_name n = true ->
  dirname (path_of d (xs ++ [n])) = path_of d xs.
Proof.
  intros Hxs Hn. apply clean_name_spec in Hn. destruct Hn as (_ & Hs & _).
  unfold dirname. destruct xs as [|x xs].
  - destruct d.
    + change (path_of true ([] ++ [n])) with ("/" ++ "/" ++ n).
      rewrite head_of_app by assumption. reflexivity.
    + change (path_of false ([] ++ [n])) with ("" ++ "/" ++ n).
      rewrite head_of_app by assumption. reflexivity.
  - rewrite path_of_snoc by discriminate. rewrite head_of_app by assumption.
    destruct (concat_first (x :: xs) ltac:(discriminate) Hxs) as (c & r & E & Hc).
    assert (all_sep (path_of d (x :: xs) ++ "/") = false) as ->.
    { unfold path_of. rewrite E. destruct d; simpl; now rewrite Hc. }
    assert ((path_of d (x :: xs) ++ "/" =? "")%string = false) as -> by now destruct d.
    simpl negb. cbn [andb]. rewrite rstrip_sep_app. apply rstrip_sep_id.
    apply path_of_nonempty_endswith; [discriminate | assumption].
Qed.

(** ** [normpath], [abspath] and [relpath] on normalised absolute paths *)

Lemma normpath_fold_clean (i : nat) (xs acc : list string) :
  forallb clean_name xs = true ->
  fold_left (normpath_step i) xs acc = (acc ++ xs)%list.
Proof.
  revert acc. induction xs as [|x xs IH]; intros acc H; simpl.
  - now rewrite List.app_nil_r.
  - simpl in H. apply andb_true_iff in H. destruct H as [Hx Hxs].
    apply clean_name_spec in Hx. destruct Hx as (H1 & _ & H2 & H3).
    unfold normpath_step at 2.
    apply String.eqb_neq in H1, H2, H3. rewrite H1, H2, H3. simpl.
    rewrite IH by assumption. now rewrite <- List.app_assoc.
Qed.

Lemma split_path_of (d : bool) (xs : list string) :
  forallb clean_name xs = true ->
  split_sep (path_of d xs) =
    ((if d then [""; ""] else [""]) ++ (match xs with [] => [""] | _ => xs end))%list.
Proof.
  intros H.
  assert (split_sep (String.concat "/" xs) = match xs with [] => [""] | _ => xs end) as E.
  { destruct xs as [|x xs]; [reflexivity|].
    apply split_concat; [discriminate | now apply clean_forall]. }
  unfold path_of. destruct d.
  - change ("//" ++ String.concat "/" xs) with ("" ++ "/" ++ "" ++ "/" ++ String.concat "/" xs).
    rewrite !split_sep_app by reflexivity. now rewrite E.
  - change ("/" ++ String.concat "/" xs) with ("" ++ "/" ++ String.concat "/" xs).
    rewrite split_sep_app by reflexivity. now rewrite E.
Qed.

Lemma filter_nonempty_clean (xs : list string) :
  forallb clean_name xs = true -> filter nonempty xs = xs.
Proof.
  intros H. apply forallb_filter_id. rewrite forallb_forall in *. intros y Hy.
  apply H, clean_name_spec in Hy. unfold nonempty. apply negb_true_iff, String.eqb_neq. tauto.
Qed.

Lemma components_path_of (d : bool) (xs : list string) :
  forallb clean_name xs = true ->
  filter nonempty (split_sep (path_of d xs)) = xs.
Proof.
  intros H. rewrite split_path_of by assumption. rewrite filter_app.
  assert (filter nonempty (if d then [""; ""] else [""]) = []) as -> by now destruct d.
  destruct xs as [|x xs]; [reflexivity|]. now apply filter_nonempty_clean.
Qed.

Lemma normpath_path_of (d : bool) (xs : list string) :
  forallb clean_name xs = true -> normpath (path_of d xs) = path_of d xs.
Proof.
  intros H. unfold normpath.
  assert ((path_of d xs =? "")%string = false) as -> by now destruct d.
  assert (startswith_sep (path_of d xs) = true) as -> by now destruct d.
  assert (match path_of d xs with
          | String _ (String c2 r2) =>
              if is_sep c2 && negb (startswith_sep r2) then 2%nat else 1%nat
          | _ => 1%nat
          end = if d then 2%nat else 1%nat) as ->.
  { destruct xs as [|x xs]; [now destruct d|].
    destruct (concat_first (x :: xs) ltac:(discriminate) H) as (c & r & E & Hc).
    unfold path_of. rewrite E. destruct d; simpl; now rewrite Hc. }
  rewrite split_path_of by assumption.
  assert (forall i, fold_left (normpath_step i)
            ((if d then [""; ""] else [""]) ++ match xs with [] => [""] | _ => xs end) []
          = xs) as ->.
  { intros i. rewrite fold_left_app.
    assert (fold_left (normpath_step i) (if d then [""; ""] else [""]) [] = []) as ->
      by now destruct d.
    destruct xs as [|x xs]; [reflexivity|]. now rewrite normpath_fold_clean. }
  now destruct d.
Qed.

Lemma abspath_path_of (cwd : string) (d : bool) (xs : list string) :
  forallb clean_name xs = true -> abspath cwd (path_of d xs) = path_of d xs.
Proof.
  intros H. unfold abspath.
  assert (isabs (path_of d xs) = true) as -> by now destruct d.
  now apply normpath_path_of.
Qed.

Lemma common_prefix_len_app (rs cs : list string) :
  common_prefix_len rs (rs ++ cs) = length rs.
Proof.
  induction rs as [|r rs IH]; simpl; [now destruct cs|].
  now rewrite String.eqb_refl, IH.
Qed.

Lemma join_all_clean (p : list string) (a : string) :
  a <> "" -> endswith_sep a = false -> forallb clean_name p = true ->
  join_all a p = String.concat "/" (a :: p).
Proof.
  unfold join_all. revert a. induction p as [|n p IH]; intros a Ha He H; [reflexivity|].
  simpl in H. apply andb_true_iff in H. destruct H as [Hn Hp].
  pose proof Hn as Hn'. apply clean_name_spec in Hn'. destruct Hn' as (Hne & Hs & _).
  cbn [fold_left]. unfold join at 2.
  rewrite (startswith_sep_free n Hs), He.
  apply String.eqb_neq in Ha. rewrite Ha. cbn [orb].
  rewrite IH; [| | |assumption].
  - rewrite (concat_cons a (n :: p)) by discriminate.
    destruct p as [|m p]; [reflexivity|].
    rewrite (concat_cons (a ++ "/" ++ n)), (concat_cons n) by discriminate.
    now rewrite !StrFacts.app_assoc.
  - destruct a; [discriminate | discriminate].
  - rewrite <- StrFacts.app_assoc. rewrite endswith_sep_app; [now apply endswith_sep_free|assumption].
Qed.

(** The path of a directory below [rs], relative to [rs]. *)
Lemma relpath_path_of (cwd : string) (d : bool) (rs cs : list string) :
  forallb clean_name rs = true -> forallb clean_name cs = true ->
  relpath cwd (path_of d (rs ++ cs)) (path_of d rs) =
    Ok (match cs with [] => "." | _ => String.concat "/" cs end).
Proof.
  intros Hr Hc.
  assert (forallb clean_name (rs ++ cs) = true) as Hrc by now apply clean_app.
  unfold relpath.
  assert ((path_of d (rs ++ cs) =? "")%string = false) as -> by now destruct d.
  rewrite !abspath_path_of, !components_path_of by assumption.
  rewrite common_prefix_len_app, Nat.sub_diag, skipn_app, skipn_all, Nat.sub_diag.
  simpl. destruct cs as [|c cs]; [reflexivity|].
  simpl in Hc. apply andb_true_iff in Hc. destruct Hc as [Hc Hcs].
  apply clean_name_spec in Hc. destruct Hc as (Hne & Hs & _).
  rewrite join_all_clean; [reflexivity | assumption | now apply endswith_sep_free | assumption].
Qed.

(** ** Injectivity and nesting *)

Lemma path_of_inj (d : bool) (xs ys : list string) :
  forallb clean_name xs = true -> forallb clean_name ys = true ->
  path_of d xs = path_of d ys -> xs = ys.
Proof.
  intros Hx Hy E. rewrite <- (components_path_of d xs Hx), <- (components_path_of d ys Hy).
  now rewrite E.
Qed.

Lemma concat_inj (xs ys : list string) :
  xs <> [] -> ys <> [] -> forallb clean_name xs = true -> forallb clean_name ys = true ->
  String.concat "/" xs = String.concat "/" ys -> xs = ys.
Proof.
  intros Hx Hy Cx Cy E.
  rewrite <- (split_concat xs Hx), <- (split_concat ys Hy) by now apply clean_forall.
  now rewrite E.
Qed.

Lemma split_concat_app (xs : list string) (rest : string) :
  xs <> [] -> Forall sep_free xs ->
  split_sep (String.concat "/" xs ++ "/" ++ rest) = (xs ++ split_sep rest)%list.
Proof.
  induction xs as [|x xs IH]; [contradiction|]. intros _ H.
  inversion H as [|? ? Hx Hxs]; subst.
  destruct xs as [|y ys]; [now apply split_sep_app|].
  rewrite concat_cons by discriminate. rewrite !StrFacts.app_assoc.
  rewrite split_sep_app by assumption.
  rewrite IH by (assumption || discriminate). reflexivity.
Qed.

(** A clean path inside another one extends its components. *)
Lemma inside_path_of (d : bool) (xs ys : list string) :
  xs <> [] -> forallb clean_name xs = true -> forallb clean_name ys = true ->
  inside (path_of d ys) (path_of d xs) -> exists zs, ys = (xs ++ zs)%list.
Proof.
  intros Hne Hx Hy [rest E].
  exists (filter nonempty (split_sep rest)).
  rewrite <- (components_path_of d ys Hy), E.
  unfold path_of. rewrite StrFacts.app_assoc.
  assert (forall s, filter nonempty (split_sep ((if d then "//" else "/") ++ s))
                    = filter nonempty (split_sep s)) as ->.
  { intros s. destruct d.
    - change ("//" ++ s) with ("" ++ "/" ++ "" ++ "/" ++ s).
      now rewrite !split_sep_app by reflexivity.
    - change ("/" ++ s) with ("" ++ "/" ++ s). now rewrite split_sep_app by reflexivity. }
  rewrite split_concat_app by (assumption || now apply clean_forall).
  rewrite filter_app. now rewrite filter_nonempty_clean.
Qed.

(** ** The root that [main] passes: [abspath] gives a normalised absolute path *)

Lemma split_sep_sep_free (s : string) : Forall sep_free (split_sep s).
Proof.
  induction s as [|c r IH]; [repeat constructor|]. simpl.
  destruct (is_sep c) eqn:Hc; [constructor; [reflexivity | exact IH]|].
  destruct (split_sep r) as [|x xs]; [repeat constructor; unfold sep_free; simpl; now rewrite Hc|].
  inversion IH as [|? ? Hx Hxs]; subst. constructor; [|exact Hxs].
  unfold sep_free in *. simpl. now rewrite Hc, Hx.
Qed.

Lemma clean_removelast (xs : list string) :
  forallb clean_name xs = true -> forallb clean_name (removelast xs) = true.
Proof.
  induction xs as [|x xs IH]; [reflexivity|]. intros H. simpl in H.
  apply andb_true_iff in H. destruct H as [Hx Hxs].
  destruct xs as [|y ys]; [reflexivity|].
  change (removelast (x :: y :: ys)) with (x :: removelast (y :: ys)).
  cbn [forallb]. rewrite Hx. now apply IH.
Qed.

Lemma clean_last (xs : list string) :
  xs <> [] -> forallb clean_name xs = true -> (last xs "" =? "..")%string = false.
Proof.
  intros Hne H. apply String.eqb_neq.
  destruct (exists_last Hne) as (l & a & ->). rewrite last_last.
  apply clean_app in H. destruct H as [_ H]. simpl in H. rewrite andb_true_r in H.
  apply clean_name_spec in H. tauto.
Qed.

Lemma normpath_fold_absolute (i : nat) (comps acc : list string) :
  i <> 0%nat -> Forall sep_free comps -> forallb clean_name acc = true ->
  forallb clean_name (fold_left (normpath_step i) comps acc) = true.
Proof.
  intros Hi. revert acc. induction comps as [|c comps IH]; intros acc Hs Ha; [exact Ha|].
  inversion Hs as [|? ? Hc Hcs]; subst. cbn [fold_left]. apply IH; [exact Hcs|].
  unfold normpath_step.
  destruct (String.eqb_spec c ""); [exact Ha|]. destruct (String.eqb_spec c "."); [exact Ha|].
  cbn [orb]. destruct (String.eqb_spec c "..") as [->|Hdd].
  - cbn [negb orb]. assert (Nat.eqb i 0 = false) as -> by now apply Nat.eqb_neq.
    cbn [andb orb]. destruct acc as [|a acc]; [reflexivity|].
    rewrite clean_last by (assumption || discriminate). now apply clean_removelast.
  - cbn [negb orb]. apply clean_app. split; [exact Ha|]. simpl. rewrite andb_true_r.
    apply clean_name_spec. tauto.
Qed.

Lemma normpath_absolute (p : string) :
  startswith_sep p = true ->
  exists d rs, forallb clean_name rs = true /\ normpath p = path_of d rs.
Proof.
  intros Hp. unfold normpath. destruct p as [|c1 r1]; [discriminate Hp|].
  cbn [String.eqb]. rewrite Hp.
  set (i := match String c1 r1 with
            | String _ (String c2 r2) =>
                if is_sep c2 && negb (startswith_sep r2) then 2%nat else 1%nat
            | _ => 1%nat
            end).
  assert (i = 1%nat \/ i = 2%nat) as Hi.
  { subst i. destruct r1 as [|c2 r2]; [now left|].
    destruct (is_sep c2 && negb (startswith_sep r2)); [now right | now left]. }
  set (rs := fold_left (normpath_step i) (split_sep (String c1 r1)) []).
  assert (forallb clean_name rs = true) as Hrs.
  { apply normpath_fold_absolute; [lia | apply split_sep_sep_free | reflexivity]. }
  destruct Hi as [-> | ->].
  - exists false, rs. split; [exact Hrs | reflexivity].
  - exists true, rs. split; [exact Hrs | reflexivity].
Qed.

(** [os.path.abspath(arg)], in a process whose working directory is an
    absolute path, is [/r1/.../rn] (or [//r1/.../rn]) with clean [ri]. *)
Lemma abspath_normalised (cwd arg : string) :
  isabs cwd = true ->
  exists d rs, forallb clean_name rs = true /\ abspath cwd arg = path_of d rs.
Proof.
  intros Hc. unfold abspath. apply normpath_absolute.
  destruct (isabs arg) eqn:Ha; [exact Ha|].
  unfold join. unfold isabs in Ha. rewrite Ha.
  destruct cwd as [|c r]; [discriminate Hc|].
  destruct ((String c r =? "")%string || endswith_sep (String c r)); exact Hc.
Qed.

End PathFacts.

(* ------------------------------------------------------------------ *)
(** * The walk *)
(* ------------------------------------------------------------------ *)

Module WalkFacts.
Import PathFacts.

Lemma dtree_induction (P : dtree -> Prop) :
  P Unlisted ->
  (forall subdirs, Forall (fun p => P (snd p)) subdirs -> P (Dir subdirs)) ->
  forall t, P t.
Proof.
  intros HU HD. fix IH 1. intros [subdirs|]; [|exact HU].
  apply HD. induction subdirs as [|[n t] l IHl]; constructor; [apply IH | exact IHl].
Qed.

Lemma existsb_eqb_In (x : string) (l : list string) :
  existsb (String.eqb x) l = true <-> In x l.
Proof.
  rewrite existsb_exists. split.
  - intros (y & Hy & E). apply String.eqb_eq in E. now subst.
  - intros H. exists x. split; [assumption | apply String.eqb_refl].
Qed.

Lemma nodup_names_NoDup (l : list string) : nodup_names l = true -> NoDup l.
Proof.
  induction l as [|x l IH]; simpl; [constructor|].
  intros [H1 H2]%andb_true_iff. constructor; [|now apply IH].
  rewrite <- existsb_eqb_In. now apply negb_true_iff in H1 as ->.
Qed.

(** [dirnames.remove] leaves the other entries: on names that are pairwise
    different, the entries with another name. *)
Lemma remove_first_spec (name : string) (l : list (string * dtree)) :
  NoDup (map fst l) ->
  forall p, In p (remove_first name l) <-> In p l /\ fst p <> name.
Proof.
  induction l as [|[n t] l IH]; simpl; intros ND p; [tauto|].
  inversion ND as [|? ? Hn ND']; subst.
  destruct (String.eqb_spec n name) as [->|Hne].
  - split.
    + intros Hp. split; [now right|]. intros E. apply Hn. rewrite <- E. now apply in_map.
    + intros [[<- | Hp] Hf]; [now simpl in Hf | assumption].
  - simpl. rewrite (IH ND'). split.
    + intros [<- | [Hp Hf]]; [split; [now left | assumption] | split; [now right | assumption]].
    + intros [[<- | Hp] Hf]; [now left | right; tauto].
Qed.

Lemma remove_first_incl (name : string) (l : list (string * dtree)) :
  forall p, In p (remove_first name l) -> In p l.
Proof.
  induction l as [|[n t] l IH]; simpl; intros p; [tauto|].
  destruct (n =? name)%string; [now right|]. simpl. intros [<- | Hp]; [now left | right; auto].
Qed.

Lemma remove_first_NoDup (name : string) (l : list (string * dtree)) :
  NoDup (map fst l) -> NoDup (map fst (remove_first name l)).
Proof.
  induction l as [|[n t] l IH]; simpl; intros ND; [constructor|].
  inversion ND as [|? ? Hn ND']; subst.
  destruct (n =? name)%string; [assumption|]. simpl. constructor; [|now apply IH].
  intros Hin. apply Hn. apply in_map_iff in Hin. destruct Hin as (p & <- & Hp).
  apply in_map. now apply remove_first_incl in Hp.
Qed.

(** The visit as a [flat_map] over the entries left. *)
Lemma visit_children_flat_map {A : Type} (f : string -> dtree -> list A)
    (l : list (string * dtree)) :
  visit_children f l true = flat_map (fun p => f (fst p) (snd p)) l /\
  visit_children f l false =
    flat_map (fun p => f (fst p) (snd p)) (remove_first "node_modules" l).
Proof.
  induction l as [|[n t] l [IH1 IH2]]; [now split|]. split.
  - simpl. now rewrite IH1.
  - cbn [visit_children remove_first negb andb].
    destruct (n =? "node_modules")%string; [assumption|].
    simpl. now rewrite IH2.
Qed.

Lemma wf_tree_Dir (subdirs : list (string * dtree)) :
  wf_tree (Dir subdirs) = true ->
  forallb clean_name (map fst subdirs) = true /\ NoDup (map fst subdirs) /\
  Forall (fun p => wf_tree (snd p) = true) subdirs.
Proof.
  cbn [wf_tree]. intros [[H1 H2]%andb_true_iff H3]%andb_true_iff.
  split; [assumption|]. split; [now apply nodup_names_NoDup|].
  clear H1 H2. induction subdirs as [|[n t] l IH]; [constructor|].
  apply andb_true_iff in H3. destruct H3 as [Ht Hl]. constructor; [exact Ht | now apply IH].
Qed.

Lemma children_left (subdirs : list (string * dtree)) :
  wf_tree (Dir subdirs) = true ->
  NoDup (map fst (remove_first "node_modules" subdirs)) /\
  forall p, In p (remove_first "node_modules" subdirs) ->
    clean_name (fst p) = true /\ fst p <> "node_modules" /\ wf_tree (snd p) = true
    /\ In p subdirs.
Proof.
  intros W. destruct (wf_tree_Dir _ W) as (Hc & ND & Hw).
  split; [now apply remove_first_NoDup|].
  intros p Hp. apply remove_first_spec in Hp; [|assumption]. destruct Hp as [Hp Hne].
  rewrite forallb_forall in Hc. rewrite Forall_forall in Hw.
  repeat split; auto. apply Hc. now apply in_map.
Qed.

(** The directories found: clean components, none called [node_modules],
    no directory twice. *)
Lemma target_dirs_spec (t : dtree) :
  wf_tree t = true ->
  (forall cs, In cs (target_dirs t) ->
     forallb clean_name cs = true /\ ~ In "node_modules" cs) /\
  NoDup (target_dirs t).
Proof.
  induction t as [|subdirs IH] using dtree_induction; [intros _; split; [intros ? [] | constructor]|].
  intros W. destruct (children_left subdirs W) as [ND Hleft].
  cbn [target_dirs]. rewrite (proj2 (visit_children_flat_map _ subdirs)).
  set (l := remove_first "node_modules" subdirs) in *.
  assert (forall p, In p l -> (forall cs, In cs (target_dirs (snd p)) ->
             forallb clean_name cs = true /\ ~ In "node_modules" cs) /\
             NoDup (target_dirs (snd p))) as IH'.
  { intros p Hp. destruct (Hleft p Hp) as (_ & _ & Hw & Hin).
    rewrite Forall_forall in IH. now apply IH. }
  clear IH W. split.
  - intros cs Hcs. apply in_app_or in Hcs. destruct Hcs as [Hcs | Hcs].
    + destruct (existsb _ _); [|contradiction]. destruct Hcs as [<- | []]. now split.
    + apply in_flat_map in Hcs. destruct Hcs as (p & Hp & Hcs).
      apply in_map_iff in Hcs. destruct Hcs as (cs' & <- & Hcs').
      destruct (Hleft p Hp) as (Hc & Hne & _). destruct (proj1 (IH' p Hp) cs' Hcs') as [H1 H2].
      split; [simpl; now rewrite Hc, H1|]. intros [E | E]; [now apply Hne | now apply H2].
  - assert (NoDup (flat_map (fun p => map (cons (fst p)) (target_dirs (snd p))) l)) as NDf.
    { clear Hleft. induction l as [|p l IHl]; [constructor|]. simpl.
      inversion ND as [|? ? Hn ND']; subst.
      apply NoDup_app.
      - apply NoDup_map_NoDup_ForallPairs; [|apply IH'; now left].
        intros a b _ _ E. now injection E.
      - apply IHl; [assumption|]. intros q Hq. apply IH'. now right.
      - intros x Hx Hin. apply in_map_iff in Hx. destruct Hx as (cs1 & <- & _).
        apply in_flat_map in Hin. destruct Hin as (q & Hq & Hin).
        apply in_map_iff in Hin. destruct Hin as (cs2 & E & _). injection E as E _.
        apply Hn. rewrite <- E. now apply in_map. }
    destruct (existsb _ _); [|exact NDf]. simpl. constructor; [|exact NDf].
    intros Hin. apply in_flat_map in Hin. destruct Hin as (p & _ & Hin).
    apply in_map_iff in Hin. destruct Hin as (? & E & _). discriminate E.
Qed.

(** The paths that the walk builds are those of the directories found. *)
Lemma walk_paths_target_dirs (d : bool) (t : dtree) :
  forall xs, forallb clean_name xs = true -> wf_tree t = true ->
  walk_paths (path_of d xs) t =
    map (fun cs => path_of d (xs ++ cs ++ ["node_modules"])) (target_dirs t).
Proof.
  induction t as [|subdirs IH] using dtree_induction; [reflexivity|].
  intros xs Hxs W. destruct (children_left subdirs W) as [_ Hleft].
  cbn [walk_paths target_dirs]. rewrite map_app. f_equal.
  - destruct (existsb _ _); [|reflexivity]. simpl. now rewrite join_path_of.
  - rewrite (proj2 (visit_children_flat_map _ subdirs)).
    rewrite (proj2 (visit_children_flat_map _ subdirs)).
    set (l := remove_first "node_modules" subdirs) in *.
    rewrite Forall_forall in IH.
    induction l as [|p l IHl]; [reflexivity|].
    simpl. rewrite map_app. f_equal.
    + destruct (Hleft p (or_introl eq_refl)) as (Hc & _ & Hw & Hin).
      rewrite join_path_of by assumption.
      rewrite (IH p Hin) by (try assumption; apply clean_app; simpl; now rewrite Hc).
      rewrite map_map. apply map_ext. intros cs. now rewrite <- List.app_assoc.
    + apply IHl. intros q Hq. apply Hleft. now right.
Qed.

End WalkFacts.

(* ------------------------------------------------------------------ *)
(** * The scanner *)
(* ------------------------------------------------------------------ *)

Section Scanner.
Import PathFacts WalkFacts.

Variables (cwd : string) (du : string -> option Z).

Lemma new_entry_ok (a r : string) (k : Z) (e : NodeModulesEntry) :
  new_entry a r k = Ok e ->
  e = mkEntry a r k (size_human e) "Active" false false /\
  format_size k = Ok (size_human e).
Proof.
  unfold new_entry, post_init. cbn [size_human size_kb String.eqb].
  destruct (format_size k) as [label|]; [|discriminate]. simpl.
  intros E. injection E as <-. now split.
Qed.

Lemma measure_and_enqueue_ok (root p : string) (e : NodeModulesEntry) :
  measure_and_enqueue cwd root du p = Ok e ->
  abs_path e = p /\
  PosixPath.relpath cwd (PosixPath.dirname p) root = Ok (rel_path e).
Proof.
  unfold measure_and_enqueue.
  destruct (PosixPath.relpath cwd (PosixPath.dirname p) root) as [rel|]; [|discriminate].
  simpl. intros E. apply new_entry_ok in E. destruct E as [-> _]. now split.
Qed.

Lemma in_put_entries (rs : list (result NodeModulesEntry)) (e : NodeModulesEntry) :
  In e (put_entries rs) <-> In (Ok e) rs.
Proof.
  unfold put_entries. rewrite in_flat_map. split.
  - intros ([e'|] & Hr & He); [|contradiction]. destruct He as [<- | []]. assumption.
  - intros H. exists (Ok e). split; [assumption | now left].
Qed.

Lemma in_find_node_modules (root : string) (tree : dtree) (e : NodeModulesEntry) :
  In e (find_node_modules cwd root tree du) <->
  exists p, In p (walk_paths root tree) /\ measure_and_enqueue cwd root du p = Ok e.
Proof.
  unfold find_node_modules. rewrite in_put_entries, in_map_iff. split.
  - intros (p & E & Hp). eauto.
  - intros (p & Hp & E). eauto.
Qed.

Lemma abs_paths_sublist (root : string) (paths : list string) :
  NoDup paths ->
  NoDup (map abs_path (put_entries (map (measure_and_enqueue cwd root du) paths))) /\
  forall a, In a (map abs_path (put_entries (map (measure_and_enqueue cwd root du) paths))) ->
            In a paths.
Proof.
  induction paths as [|p ps IH]; intros ND; [split; [constructor | intros ? []]|].
  inversion ND as [|? ? Hp ND']; subst. destruct (IH ND') as [IH1 IH2].
  cbn [map put_entries flat_map].
  destruct (measure_and_enqueue cwd root du p) as [e|] eqn:E.
  - apply measure_and_enqueue_ok in E. destruct E as [E _].
    change (map abs_path ([e] ++ ?l)) with (abs_path e :: map abs_path l). rewrite E.
    split.
    + constructor; [|exact IH1]. intros Hin. apply Hp. now apply IH2.
    + intros a [<- | Ha]; [now left | right; now apply IH2].
  - split; [exact IH1 | intros a Ha; right; now apply IH2].
Qed.

End Scanner.

Lemma not_inside_self (p : string) : ~ inside p p.
Proof.
  intros [rest E]. apply (f_equal String.length) in E.
  rewrite !StrFacts.length_app in E. simpl in E. lia.
Qed.

(** The record of a target below the normalised absolute root [path_of d rs]. *)
Lemma scanner_shows_parent_at (cwd : string) (du : string -> option Z) (d : bool)
    (rs : list string) (tree : dtree) (e : NodeModulesEntry) :
  forallb clean_name rs = true ->
  wf_tree tree = true ->
  In e (find_node_modules cwd (path_of d rs) tree du) ->
  exists cs,
    forallb clean_name cs = true /\
    abs_path e = path_of d (rs ++ cs ++ ["node_modules"]) /\
    PosixPath.dirname (abs_path e) = path_of d (rs ++ cs) /\
    PosixPath.relpath cwd (PosixPath.dirname (abs_path e)) (path_of d rs) = Ok (rel_path e) /\
    rel_path e = match cs with [] => "." | _ => String.concat "/" cs end /\
    rel_path e <> abs_path e /\
    PosixPath.relpath cwd (abs_path e) (path_of d rs) <> Ok (rel_path e).
Proof.
  intros Hrs W Hin. apply in_find_node_modules in Hin. destruct Hin as (p & Hp & E).
  rewrite WalkFacts.walk_paths_target_dirs in Hp by assumption.
  apply in_map_iff in Hp. destruct Hp as (cs & <- & Hcs).
  destruct (proj1 (WalkFacts.target_dirs_spec tree W) cs Hcs) as [Hc _].
  apply measure_and_enqueue_ok in E. destruct E as [Ea Er].
  assert (forallb clean_name (rs ++ cs) = true) as Hrc by now apply PathFacts.clean_app.
  assert (PosixPath.dirname (abs_path e) = path_of d (rs ++ cs)) as Hd.
  { rewrite Ea, List.app_assoc. now apply PathFacts.dirname_path_of. }
  assert (rel_path e = match cs with [] => "." | _ => String.concat "/" cs end) as Hrel.
  { rewrite List.app_assoc, PathFacts.dirname_path_of in Er by (assumption || reflexivity).
    rewrite PathFacts.relpath_path_of in Er by assumption. now injection Er. }
  exists cs. repeat split; try assumption.
  - now rewrite Ea.
  - rewrite Ea, Hrel. destruct cs as [|c cs]; [now destruct d|].
    destruct (PathFacts.concat_first (c :: cs) ltac:(discriminate) Hc) as (x & r & -> & Hx).
    intros F. destruct d; injection F as -> _; discriminate Hx.
  - rewrite Ea. rewrite PathFacts.relpath_path_of;
      [|assumption | apply PathFacts.clean_app; now split].
    rewrite Hrel. intros F. injection F as F.
    destruct cs as [|c cs]; [discriminate F|].
    cbn [List.app] in F.
    apply PathFacts.concat_inj in F; try assumption; try discriminate.
    + apply (f_equal (@length string)) in F. simpl in F. rewrite length_app in F.
      simpl in F. lia.
    + change (forallb clean_name ((c :: cs) ++ ["node_modules"]) = true).
      apply PathFacts.clean_app; now split.
Qed.

(** C8.  Every record that the scanner emits shows the parent directory of
    its target, relative to the scan root.  For the root that [main] passes,
    [abspath] of its argument (a normalised absolute path [/r1/.../rn]), the
    target is [root/c1/.../ck/node_modules], its [dirname] is
    [root/c1/.../ck], and [rel_path] is [relpath] of that directory from the
    root, which is [c1/.../ck] (and [.] for the root itself).  It is neither
    the target path nor the target path relative to the root. *)
Theorem scanner_shows_parent (cwd arg : string) (du : string -> option Z)
    (tree : dtree) (e : NodeModulesEntry) :
  PosixPath.isabs cwd = true ->
  wf_tree tree = true ->
  let root := PosixPath.abspath cwd arg in
  In e (find_node_modules cwd root tree du) ->
  exists d rs cs,
    root = path_of d rs /\
    abs_path e = path_of d (rs ++ cs ++ ["node_modules"]) /\
    PosixPath.dirname (abs_path e) = path_of d (rs ++ cs) /\
    PosixPath.relpath cwd (PosixPath.dirname (abs_path e)) root = Ok (rel_path e) /\
    rel_path e = match cs with [] => "." | _ => String.concat "/" cs end /\
    rel_path e <> abs_path e /\
    PosixPath.relpath cwd (abs_path e) root <> Ok (rel_path e).
Proof.
  intros Hcwd W root Hin.
  destruct (PathFacts.abspath_normalised cwd arg Hcwd) as (d & rs & Hrs & E).
  subst root. rewrite E in *.
  destruct (scanner_shows_parent_at cwd du d rs tree e Hrs W Hin)
    as (cs & _ & H1 & H2 & H3 & H4 & H5 & H6).
  exists d, rs, cs. repeat split; assumption.
Qed.

Lemma scanner_shows_parent_witness :
  PosixPath.isabs "/home" = true /\ wf_tree example_tree = true /\
  exists d rs cs,
    abs_path (mkEntry "/home/r/a/node_modules" "a" 2048 "2.0 MB" "Active" false false)
      = path_of d (rs ++ cs ++ ["node_modules"]) /\
    rel_path (mkEntry "/home/r/a/node_modules" "a" 2048 "2.0 MB" "Active" false false)
      = match cs with [] => "." | _ => String.concat "/" cs end.
Proof.
  split; [reflexivity|]. split; [reflexivity|].
  destruct (scanner_shows_parent "/home" "r" (fun _ => Some 2048) example_tree
              (mkEntry "/home/r/a/node_modules" "a" 2048 "2.0 MB" "Active" false false)
              eq_refl eq_refl (or_introl eq_refl)) as (d & rs & cs & _ & H1 & _ & _ & H2 & _).
  exists d, rs, cs. split; assumption.
Defined.

Lemma exists_last_or_nil {A : Type} (l : list A) :
  l = [] \/ exists l' a, l = (l' ++ [a])%list.
Proof.
  destruct l as [|x l]; [now left | right].
  destruct (exists_last (l := x :: l) ltac:(discriminate)) as (l' & a & E). eauto.
Qed.

(** The scan from the normalised absolute root [path_of d rs]. *)
Lemma scan_targets_at (cwd : string) (du : string -> option Z) (d : bool)
    (rs : list string) (tree : dtree) :
  forallb clean_name rs = true ->
  wf_tree tree = true ->
  let paths := walk_paths (path_of d rs) tree in
  let records := find_node_modules cwd (path_of d rs) tree du in
  (forall p, In p paths ->
     exists cs, ~ In "node_modules" cs /\ p = path_of d (rs ++ cs ++ ["node_modules"])) /\
  NoDup paths /\
  (forall p q, In p paths -> In q paths -> ~ inside q p) /\
  NoDup (map abs_path records) /\
  (forall e1 e2, In e1 records -> In e2 records -> ~ inside (abs_path e2) (abs_path e1)).
Proof.
  intros Hrs W paths records.
  destruct (WalkFacts.target_dirs_spec tree W) as [Hspec ND].
  assert (paths = map (fun cs => path_of d (rs ++ cs ++ ["node_modules"])) (target_dirs tree))
    as Epaths by now apply WalkFacts.walk_paths_target_dirs.
  assert (forall cs, In cs (target_dirs tree) ->
            forallb clean_name (rs ++ cs ++ ["node_modules"]) = true) as Hclean.
  { intros cs Hcs. destruct (Hspec cs Hcs) as [Hc _].
    apply PathFacts.clean_app. split; [assumption|]. apply PathFacts.clean_app. now split. }
  assert (NoDup paths) as NDp.
  { rewrite Epaths. apply NoDup_map_NoDup_ForallPairs; [|assumption].
    intros x y Hx Hy E. apply PathFacts.path_of_inj in E; auto.
    apply List.app_inv_head in E. now apply List.app_inv_tail in E. }
  assert (forall p q, In p paths -> In q paths -> ~ inside q p) as Hnest.
  { intros p q Hp Hq Hins. rewrite Epaths in Hp, Hq.
    apply in_map_iff in Hp, Hq. destruct Hp as (cs & <- & Hcs), Hq as (ds & <- & Hds).
    assert (rs ++ cs ++ ["node_modules"] <> [])%list as Hne.
    { intros E. apply app_eq_nil in E. destruct E as [_ E].
      apply app_eq_nil in E. destruct E as [_ E]. discriminate E. }
    destruct (PathFacts.inside_path_of d _ _ Hne (Hclean cs Hcs) (Hclean ds Hds) Hins)
      as [zs E].
    rewrite <- !List.app_assoc in E. apply List.app_inv_head in E.
    destruct (exists_last_or_nil zs) as [-> | (zs' & z & ->)].
    - rewrite List.app_nil_r in E. apply List.app_inv_tail in E. subst ds.
      now apply not_inside_self in Hins.
    - rewrite !List.app_assoc in E. apply List.app_inj_tail in E. destruct E as [E _].
      destruct (Hspec ds Hds) as [_ Hnm]. apply Hnm. rewrite E.
      rewrite <- List.app_assoc. apply in_or_app. right. now left. }
  destruct (abs_paths_sublist cwd du (path_of d rs) paths NDp) as [NDr Hsub].
  split; [|split; [|split; [|split]]]; try assumption.
  - intros p Hp. rewrite Epaths in Hp. apply in_map_iff in Hp.
    destruct Hp as (cs & <- & Hcs). exists cs. split; [now apply Hspec | reflexivity].
  - intros e1 e2 H1 H2. apply Hnest; apply Hsub; now apply in_map.
Qed.

(** C9.  In one scan from the root that [main] passes ([abspath] of its
    argument, [/r1/.../rn]) over a tree whose directory listings hold clean,
    pairwise different names: every path the walk builds is
    [root/c1/.../ck/node_modules] with no [ci] called [node_modules] (the
    walk does not descend into a match), no path is built twice and none
    lies inside another; so the [abs_path] of the records emitted are
    pairwise different and no record's target lies inside the target of
    another. *)
Theorem scan_targets_unique_not_nested (cwd arg : string) (du : string -> option Z)
    (tree : dtree) :
  PosixPath.isabs cwd = true ->
  wf_tree tree = true ->
  let root := PosixPath.abspath cwd arg in
  let paths := walk_paths root tree in
  let records := find_node_modules cwd root tree du in
  (exists d rs, root = path_of d rs /\
     forall p, In p paths ->
       exists cs, ~ In "node_modules" cs /\ p = path_of d (rs ++ cs ++ ["node_modules"])) /\
  NoDup paths /\
  (forall p q, In p paths -> In q paths -> ~ inside q p) /\
  NoDup (map abs_path records) /\
  (forall e1 e2, In e1 records -> In e2 records -> ~ inside (abs_path e2) (abs_path e1)).
Proof.
  intros Hcwd W root.
  destruct (PathFacts.abspath_normalised cwd arg Hcwd) as (d & rs & Hrs & E).
  subst root. rewrite E.
  destruct (scan_targets_at cwd du d rs tree Hrs W) as (H1 & H2 & H3 & H4 & H5).
  split; [exists d, rs; split; [reflexivity | exact H1]|].
  repeat split; assumption.
Qed.

Lemma scan_targets_unique_not_nested_witness :
  PosixPath.isabs "/home" = true /\ wf_tree example_tree = true /\
  NoDup (walk_paths (PosixPath.abspath "/home" "r") example_tree) /\
  NoDup (map abs_path
           (find_node_modules "/home" (PosixPath.abspath "/home" "r") example_tree
              (fun _ => Some 2048))).
Proof.
  split; [reflexivity|]. split; [reflexivity|].
  pose proof (scan_targets_unique_not_nested "/home" "r" (fun _ => Some 2048)
                example_tree eq_refl eq_refl) as (_ & H1 & _ & H2 & _).
  split; [exact H1 | exact H2].
Defined.

(* ------------------------------------------------------------------ *)
(** * [handle_input] *)
(* ------------------------------------------------------------------ *)

Ltac key_cases :=
  unfold key_in, existsb, KEY_UP, KEY_DOWN, KEY_PPAGE, KEY_NPAGE;
  repeat match goal with
         | |- context [Z.eqb ?a ?b] => destruct (Z.eqb_spec a b)
         end.

Lemma unrecognized_keys (key : Z) :
  unrecognized key ->
  key_in key [KEY_UP; ord "k"] = false /\ key_in key [KEY_DOWN; ord "j"] = false /\
  (key =? KEY_PPAGE) = false /\ (key =? KEY_NPAGE) = false /\
  (key =? ord "g") = false /\ (key =? ord "G") = false /\
  key_in key [ord "Q"; ord "q"; 27] = false /\
  (key =? ord "D") = false /\ (key =? ord " ") = false.
Proof.
  unfold unrecognized. intros H.
  repeat split; key_cases; try reflexivity; exfalso; apply H; subst key; simpl; tauto.
Qed.

Lemma handle_input_scroll (key selected scroll : Z) (entries : list NodeModulesEntry)
    (height : Z) :
  let '(sel, scr, _, _, _) := handle_input key selected scroll entries height in
  scr = scrolled sel scroll height.
Proof.
  unfold handle_input, scrolled.
  repeat match goal with
         | |- context [if ?c then (_, _, _, _) else _] => destruct c
         end; reflexivity.
Qed.

Lemma handle_input_unrecognized (key selected scroll : Z) (entries : list NodeModulesEntry)
    (height : Z) :
  unrecognized key ->
  handle_input key selected scroll entries height
    = (selected, scrolled selected scroll height, false, false, false).
Proof.
  intros H. apply unrecognized_keys in H.
  destruct H as (H1 & H2 & H3 & H4 & H5 & H6 & H7 & H8 & H9).
  unfold handle_input. rewrite H1, H2, H3, H4, H5, H6, H7, H8, H9. reflexivity.
Qed.

Lemma handle_input_delete_key (selected scroll : Z) (entries : list NodeModulesEntry)
    (height : Z) :
  handle_input (ord "D") selected scroll entries height
    = (selected, scrolled selected scroll height, false, true, false).
Proof. reflexivity. Qed.

Lemma handle_input_mark_key (selected scroll : Z) (entries : list NodeModulesEntry)
    (height : Z) :
  handle_input (ord " ") selected scroll entries height
    = (selected, scrolled selected scroll height, false, false, true).
Proof. reflexivity. Qed.

Lemma scrolled_fixed (selected scroll height : Z) :
  0 <= scroll ->
  Z.min SCROLLOFF ((height - 5) / 2) <= selected - scroll ->
  selected < scroll + (height - 5) - Z.min SCROLLOFF ((height - 5) / 2) ->
  scrolled selected scroll height = scroll.
Proof.
  intros H0 H1 H2. unfold scrolled.
  set (table_rows := height - 5) in *. set (so := Z.min SCROLLOFF (table_rows / 2)) in *.
  destruct (Z.ltb_spec (selected - scroll) so); [lia|].
  destruct (Z.leb_spec (scroll + table_rows - so) selected); lia.
Qed.

(** C3 (amended).  For every input state: an unrecognised key
    gives the selection unchanged and the three intents false, the delete
    key and the mark key give their intent alone with the selection
    unchanged; in all three cases the scroll offset returned is the one of
    the scroll-off rule for that selection ([scrolled]), which is the
    offset given whenever that one is not negative and keeps the selection
    at least [so] rows from both ends of the window. *)
Theorem handle_input_intents (key selected scroll : Z) (entries : list NodeModulesEntry)
    (height : Z) :
  let table_rows := height - 5 in
  let so := Z.min SCROLLOFF (table_rows / 2) in
  let new_scroll := scrolled selected scroll height in
  (unrecognized key ->
     handle_input key selected scroll entries height
       = (selected, new_scroll, false, false, false)) /\
  (key = ord "D" ->
     handle_input key selected scroll entries height
       = (selected, new_scroll, false, true, false)) /\
  (key = ord " " ->
     handle_input key selected scroll entries height
       = (selected, new_scroll, false, false, true)) /\
  (0 <= scroll -> so <= selected - scroll -> selected < scroll + table_rows - so ->
     new_scroll = scroll).
Proof.
  intros table_rows so new_scroll. repeat split.
  - apply handle_input_unrecognized.
  - intros ->. apply handle_input_delete_key.
  - intros ->. apply handle_input_mark_key.
  - apply scrolled_fixed.
Qed.

Lemma handle_input_changes_scroll :
  unrecognized (ord "x") /\
  handle_input (ord "x") 99 80
    (repeat (mkEntry "/r/a/node_modules" "a" 100 "100.0 KB" "Active" false false) 100) 25
  = (99, 83, false, false, false).
Proof.
  split; [|reflexivity].
  unfold unrecognized. simpl. intros H.
  repeat (destruct H as [H | H]; [discriminate H|]). exact H.
Qed.

(* ------------------------------------------------------------------ *)
(** * Lists updated in place *)
(* ------------------------------------------------------------------ *)

Section UpdateAt.
Context {A : Type}.

Lemma length_update_at (i : nat) (f : A -> A) (l : list A) :
  length (update_at i f l) = length l.
Proof. revert i. induction l as [|x l IH]; intros [|i]; simpl; auto. Qed.

Lemma nth_error_update_at_same (i : nat) (f : A -> A) (l : list A) :
  nth_error (update_at i f l) i = option_map f (nth_error l i).
Proof. revert i. induction l as [|x l IH]; intros [|i]; simpl; auto. Qed.

Lemma nth_error_update_at_other (i j : nat) (f : A -> A) (l : list A) :
  i <> j -> nth_error (update_at i f l) j = nth_error l j.
Proof.
  revert i j. induction l as [|x l IH]; intros [|i] [|j] H; simpl; auto; try contradiction.
Qed.

Lemma py_index_in_range (l : list A) (i : Z) :
  0 <= i < len l -> py_index l i = Ok (Z.to_nat i).
Proof.
  unfold py_index. intros H.
  destruct (Z.leb_spec 0 i), (Z.ltb_spec i (len l)); try lia. reflexivity.
Qed.

End UpdateAt.

(* ------------------------------------------------------------------ *)
(** * The delete workflow *)
(* ------------------------------------------------------------------ *)

Section DeleteFacts.
Context {World : Type} `{FileSystem World}.

Lemma marked_from_spec (es : list NodeModulesEntry) (base i : nat) :
  In i (marked_from base es) <->
  (base <= i)%nat /\
  exists e, nth_error es (i - base) = Some e /\ marked e = true /\ deleted e = false.
Proof.
  revert base. induction es as [|x es IH]; intros base; simpl.
  - split; [intros [] | intros (_ & e & E & _)]. now destruct (i - base)%nat.
  - assert (In i (marked_from (S base) es) <->
            (base < i)%nat /\ exists e, nth_error (x :: es) (i - base) = Some e /\
                                        marked e = true /\ deleted e = false) as Hrest.
    { rewrite IH. split.
      - intros (Hle & e & E & Hm). split; [lia|]. exists e. split; [|assumption].
        replace (i - base)%nat with (S (i - S base)) by lia. exact E.
      - intros (Hlt & e & E & Hm). split; [lia|]. exists e. split; [|assumption].
        replace (i - base)%nat with (S (i - S base)) in E by lia. exact E. }
    destruct (marked x && negb (deleted x)) eqn:Hx.
    + simpl. rewrite Hrest. split.
      * intros [<- | (Hlt & He)]; [|split; [lia | assumption]].
        split; [lia|]. exists x. rewrite Nat.sub_diag.
        apply andb_true_iff in Hx. destruct Hx as [-> ->%negb_true_iff]. auto.
      * intros (Hle & He). destruct (Nat.eq_dec base i) as [->|]; [now left | right].
        split; [lia | assumption].
    + rewrite Hrest. split; [intros (Hlt & He); split; [lia | assumption]|].
      intros (Hle & e & E & Hm & Hd). split; [|eauto].
      destruct (Nat.eq_dec base i) as [->|]; [|lia]. exfalso.
      rewrite Nat.sub_diag in E. injection E as ->. rewrite Hm, Hd in Hx. discriminate Hx.
Qed.

Lemma marked_from_lt (es : list NodeModulesEntry) (base : nat) :
  forall i, In i (marked_from base es) -> (base <= i)%nat.
Proof. intros i Hi. now apply marked_from_spec in Hi. Qed.

Lemma marked_from_NoDup (es : list NodeModulesEntry) (base : nat) :
  NoDup (marked_from base es).
Proof.
  revert base. induction es as [|x es IH]; intros base; simpl; [constructor|].
  destruct (marked x && negb (deleted x)); [|apply IH].
  constructor; [|apply IH]. intros Hin. apply marked_from_lt in Hin. lia.
Qed.

(** The targets of a delete: positions of entries that are not deleted,
    each once. *)
Lemma select_targets_spec (es : list NodeModulesEntry) (sel : Z) (targets : list nat) :
  select_targets es sel = Ok targets ->
  NoDup targets /\
  forall t, In t targets -> exists e, nth_error es t = Some e /\ deleted e = false.
Proof.
  unfold select_targets. destruct (marked_from 0 es) as [|t0 ts] eqn:Em.
  - destruct (py_index es sel) as [cur|] eqn:Ei; [|discriminate]. simpl.
    destruct (nth_error es cur) as [e|] eqn:Ee; [|discriminate].
    destruct (deleted e) eqn:Ed; simpl; intros E; injection E as <-.
    + split; [constructor | intros ? []].
    + split; [repeat constructor; intros []|]. intros t [<- | []]. eauto.
  - intros E. injection E as <-. rewrite <- Em. split; [apply marked_from_NoDup|].
    intros t Ht. apply marked_from_spec in Ht. destruct Ht as (_ & e & E & _ & Hd).
    rewrite Nat.sub_0_r in E. eauto.
Qed.

Lemma length_begin_all (targets : list nat) (es : list NodeModulesEntry) :
  length (begin_all targets es) = length es.
Proof.
  unfold begin_all. revert es. induction targets as [|t ts IH]; intros es; simpl; [reflexivity|].
  now rewrite IH, length_update_at.
Qed.

Lemma nth_error_begin_all (targets : list nat) (es : list NodeModulesEntry) (i : nat) :
  nth_error (begin_all targets es) i =
    if in_dec Nat.eq_dec i targets then option_map begin_delete (nth_error es i)
    else nth_error es i.
Proof.
  unfold begin_all. revert es. induction targets as [|t ts IH]; intros es; [reflexivity|].
  cbn [fold_left]. rewrite IH.
  destruct (Nat.eq_dec t i) as [->|Hne].
  - rewrite nth_error_update_at_same.
    destruct (in_dec Nat.eq_dec i ts), (in_dec Nat.eq_dec i (i :: ts)) as [|Hn];
      try reflexivity; try (exfalso; apply Hn; now left).
    destruct (nth_error es i); reflexivity.
  - rewrite nth_error_update_at_other by assumption.
    destruct (in_dec Nat.eq_dec i ts) as [Hi|Hi], (in_dec Nat.eq_dec i (t :: ts)) as [Hj|Hj];
      try reflexivity.
    + exfalso. apply Hj. now right.
    + exfalso. destruct Hj as [Hj|Hj]; [now apply Hne | now apply Hi].
Qed.

Lemma length_delete_loop (targets : list nat) (w : World) (es : list NodeModulesEntry) :
  length (snd (delete_loop w es targets)) = length es.
Proof.
  revert w es. induction targets as [|t ts IH]; intros w es; [reflexivity|].
  cbn [delete_loop]. destruct (nth_error es t) as [e|]; [|apply IH].
  destruct (delete_entry w e) as [w' error]. now rewrite IH, length_update_at.
Qed.

(** A record that is not a target is left as it is. *)
Lemma delete_loop_other (targets : list nat) (w : World) (es : list NodeModulesEntry)
    (i : nat) :
  ~ In i targets -> nth_error (snd (delete_loop w es targets)) i = nth_error es i.
Proof.
  revert w es. induction targets as [|t ts IH]; intros w es Hi; [reflexivity|].
  cbn [delete_loop]. assert (t <> i /\ ~ In i ts) as [Hne Hts] by (simpl in Hi; tauto).
  destruct (nth_error es t) as [e|]; [|now apply IH].
  destruct (delete_entry w e) as [w' error]. rewrite IH by assumption.
  now apply nth_error_update_at_other.
Qed.

(** The record of the [k]-th target after the batch: what [delete_entry]
    returned for it, in the file system that the first [k] deletions left,
    decides its fields. *)
Lemma delete_loop_target (targets : list nat) (w : World) (es : list NodeModulesEntry)
    (k i : nat) (e : NodeModulesEntry) :
  NoDup targets ->
  nth_error targets k = Some i ->
  nth_error es i = Some e ->
  nth_error (snd (delete_loop w es targets)) i =
    Some (finish_delete (snd (delete_entry (fst (delete_loop w es (firstn k targets))) e)) e).
Proof.
  revert w es k. induction targets as [|t ts IH]; intros w es k ND Hk He.
  - now destruct k.
  - inversion ND as [|? ? Ht ND']; subst. destruct k as [|k].
    + injection Hk as ->. cbn [delete_loop firstn fst]. rewrite He.
      destruct (delete_entry w e) as [w' error]. cbn [snd].
      rewrite delete_loop_other by assumption.
      now rewrite nth_error_update_at_same, He.
    + cbn [nth_error] in Hk. assert (t <> i) as Hne.
      { intros ->. apply Ht. eapply nth_error_In. exact Hk. }
      cbn [delete_loop firstn]. destruct (nth_error es t) as [et|]; [|now apply IH].
      destruct (delete_entry w et) as [w' error].
      apply IH; try assumption. now rewrite nth_error_update_at_other.
Qed.

End DeleteFacts.

(* ------------------------------------------------------------------ *)
(** * What every record of a session satisfies *)
(* ------------------------------------------------------------------ *)

Section Preservation.
Context {World : Type} `{FileSystem World}.

(** A property of records that marking and a deletion (both of its steps)
    keep. *)
Variable P : NodeModulesEntry -> Prop.
Hypothesis P_toggle : forall e, P e -> P (toggle_mark e).
Hypothesis P_begin : forall e, P e -> P (begin_delete e).
Hypothesis P_finish : forall e error, P e -> P (finish_delete error (begin_delete e)).

Lemma Forall_update_at (i : nat) (f : NodeModulesEntry -> NodeModulesEntry)
    (l : list NodeModulesEntry) :
  (forall x, P x -> P (f x)) -> Forall P l -> Forall P (update_at i f l).
Proof.
  intros Hf. revert i. induction l as [|x l IH]; intros i Hl; [destruct i; constructor|].
  inversion Hl; subst. destruct i; simpl; constructor; auto.
Qed.

Lemma Forall_by_position (l : list NodeModulesEntry) :
  (forall i x, nth_error l i = Some x -> P x) -> Forall P l.
Proof.
  intros Hl. apply Forall_forall. intros x Hx.
  apply In_nth_error in Hx. destruct Hx as [i Hi]. eauto.
Qed.

Lemma batch_preserves (targets : list nat) (w : World) (es : list NodeModulesEntry) :
  NoDup targets -> Forall P es ->
  Forall P (snd (delete_loop w (begin_all targets es) targets)).
Proof.
  intros ND Hes. apply Forall_by_position. intros i R HR.
  assert (i < length es)%nat as Hi.
  { rewrite <- (length_begin_all targets es), <- (length_delete_loop targets w).
    apply nth_error_Some. congruence. }
  destruct (nth_error es i) as [e|] eqn:Ee; [|apply nth_error_None in Ee; lia].
  assert (P e) as He by (rewrite Forall_forall in Hes; eapply Hes, nth_error_In; eauto).
  pose proof (nth_error_begin_all targets es i) as Eb. rewrite Ee in Eb.
  destruct (in_dec Nat.eq_dec i targets) as [Hin|Hout].
  - apply In_nth_error in Hin. destruct Hin as [k Hk].
    rewrite (delete_loop_target targets w _ k i (begin_delete e) ND Hk Eb) in HR.
    injection HR as <-. apply P_finish. exact He.
  - rewrite delete_loop_other, Eb in HR by assumption. injection HR as <-. exact He.
Qed.

Lemma delete_step_preserves (confirm : Z) (s s' : State World) :
  delete_step confirm s = Ok s' -> Forall P (entries s) -> Forall P (entries s').
Proof.
  unfold delete_step. intros E Hs.
  destruct (select_targets (entries s) (selected s)) as [targets|] eqn:Et; [|discriminate E].
  apply select_targets_spec in Et. destruct Et as [ND _]. cbn [bind] in E.
  destruct targets as [|t ts]; [injection E as <-; exact Hs|].
  destruct (key_in confirm [ord "Y"; ord "y"]); [|injection E as <-; exact Hs].
  pose proof (batch_preserves (t :: ts) (world s) (entries s) ND Hs) as Hb.
  destruct (delete_loop (world s) (begin_all (t :: ts) (entries s)) (t :: ts)) as [w es].
  injection E as <-. exact Hb.
Qed.

Lemma mark_step_preserves (h : Z) (es es' : list NodeModulesEntry) (sel scr sel' scr' : Z) :
  mark_step h es sel scr = Ok (es', sel', scr') -> Forall P es -> Forall P es'.
Proof.
  unfold mark_step. destruct (py_index es sel) as [i|]; [|discriminate]. simpl.
  intros E Hes. assert (es' = update_at i toggle_mark es) as ->.
  { destruct (sel <? len (update_at i toggle_mark es) - 1); now injection E. }
  now apply Forall_update_at.
Qed.

Lemma process_key_preserves (f : Frame) (s : State World) :
  Forall P (entries s) -> Forall P (entries (outcome_state (process_key f s))).
Proof.
  intros Hs. unfold process_key.
  destruct (key f =? -1); [exact Hs|].
  destruct (handle_input (key f) (selected s) (scroll s) (entries s) (height f))
    as [[[[sel scr] q] d] m].
  destruct q; [exact Hs|]. cbn [entries world].
  destruct (m && nonempty_list (entries s)).
  - destruct (mark_step (height f) (entries s) sel scr) as [[[es' sel'] scr']|] eqn:Em;
      [|exact Hs].
    apply mark_step_preserves in Em; [|exact Hs]. cbn [bind entries].
    destruct (d && nonempty_list es'); [|exact Em].
    destruct (delete_step (confirm_key f) (mkState es' sel' scr' (world s))) as [s'|] eqn:Ed;
      [|exact Em].
    apply delete_step_preserves in Ed; assumption.
  - cbn [entries]. destruct (d && nonempty_list (entries s)); [|exact Hs].
    destruct (delete_step (confirm_key f) (mkState (entries s) sel scr (world s)))
      as [s'|] eqn:Ed; [|exact Hs].
    apply delete_step_preserves in Ed; assumption.
Qed.

Lemma drain_preserves (f : Frame) (s : State World) :
  Forall P (arrived f) -> Forall P (entries s) -> Forall P (entries (drain_and_clamp f s)).
Proof.
  intros Hf Hs. unfold drain_and_clamp.
  assert (Forall P (entries s ++ arrived f)) as Ha by (apply Forall_app; now split).
  destruct (entries s ++ arrived f)%list; exact Ha.
Qed.

Lemma begin_all_preserves (targets : list nat) (es : list NodeModulesEntry) :
  Forall P es -> Forall P (begin_all targets es).
Proof.
  unfold begin_all. revert es. induction targets as [|t ts IH]; intros es Hes; [exact Hes|].
  cbn [fold_left]. apply IH. now apply Forall_update_at.
Qed.

Lemma redrawn_preserves (f : Frame) (s shown : State World) :
  Forall P (arrived f) -> Forall P (entries s) -> redrawn f s = Some shown ->
  Forall P (entries shown).
Proof.
  intros Hf Hs. unfold redrawn. pose proof (drain_preserves f s Hf Hs) as Hd.
  destruct (key f =? -1); [discriminate|].
  destruct (handle_input (key f) (selected (drain_and_clamp f s))
              (scroll (drain_and_clamp f s)) (entries (drain_and_clamp f s)) (height f))
    as [[[[sel scr] q] d] m].
  destruct (q || m || negb d || negb (nonempty_list (entries (drain_and_clamp f s))));
    [discriminate|].
  destruct (select_targets (entries (drain_and_clamp f s)) sel) as [[|t ts]|];
    try discriminate.
  destruct (key_in (confirm_key f) [ord "Y"; ord "y"]); [|discriminate].
  intros E. apply (f_equal (fun o => match o with Some x => entries x | None => [] end)) in E.
  cbn beta iota in E. rewrite <- E. cbn [entries]. now apply begin_all_preserves.
Qed.

Lemma main_loop_preserves (frames : list Frame) (s : State World) :
  Forall (fun f => Forall P (arrived f)) frames ->
  Forall P (entries s) -> Forall P (entries (outcome_state (main_loop frames s))).
Proof.
  revert s. induction frames as [|f frames IH]; intros s Hf Hs; [exact Hs|].
  inversion Hf as [|? ? Hf1 Hf2]; subst. cbn [main_loop].
  pose proof (process_key_preserves f _ (drain_preserves f s Hf1 Hs)) as Hi.
  fold (main_loop_iteration f s) in Hi.
  destruct (main_loop_iteration f s) as [s'|s'|e s']; [now apply IH | exact Hi | exact Hi].
Qed.

End Preservation.

(** ** [record_ok] is kept *)

Lemma record_ok_scanner (e : NodeModulesEntry) : scanner_entry e -> record_ok e.
Proof.
  intros (a & r & k & E). unfold new_entry, post_init in E.
  cbn [size_human size_kb String.eqb] in E.
  destruct (format_size k) as [label|] eqn:F; [|discriminate E].
  injection E as <-. split; [intros _; exact F | discriminate].
Qed.

Lemma record_ok_toggle (e : NodeModulesEntry) : record_ok e -> record_ok (toggle_mark e).
Proof.
  unfold toggle_mark. destruct (deleted e) eqn:D; [trivial|]. simpl.
  intros [H1 _]. split; [exact H1 | simpl; congruence].
Qed.

Lemma record_ok_begin (e : NodeModulesEntry) : record_ok e -> record_ok (begin_delete e).
Proof.
  intros [H1 H2]. split; [exact H1|]. simpl. intros D. destruct (H2 D) as (? & ? & _). auto.
Qed.

Lemma record_ok_finish (e : NodeModulesEntry) (error : option string) :
  record_ok e -> record_ok (finish_delete error (begin_delete e)).
Proof.
  intros He. pose proof (record_ok_begin e He) as [H1 H2].
  assert (record_ok (set_size_human "—" (set_size_kb 0 (set_status "Deleted"
            (set_deleted true (begin_delete e)))))) as Hdel.
  { split; [discriminate | intros _; now repeat split]. }
  unfold finish_delete. destruct (truthy error); [|exact Hdel].
  destruct error as [msg|]; split; assumption.
Qed.

Lemma session_records_ok {World : Type} `{FileSystem World} (frames : list Frame)
    (w0 : World) :
  scanner_frames frames ->
  Forall record_ok (entries (outcome_state (main_loop frames (initial_state w0)))).
Proof.
  intros Hf. apply main_loop_preserves.
  - exact record_ok_toggle.
  - exact record_ok_finish.
  - eapply Forall_impl; [|exact Hf]. intros f Ha.
    eapply Forall_impl; [|exact Ha]. exact record_ok_scanner.
  - constructor.
Qed.

Lemma session_redrawn_ok {World : Type} `{FileSystem World} (frames : list Frame)
    (w0 : World) (f : Frame) (s shown : State World) :
  scanner_frames frames -> Forall scanner_entry (arrived f) ->
  main_loop frames (initial_state w0) = Continue s ->
  redrawn f s = Some shown ->
  Forall record_ok (entries shown).
Proof.
  intros Hf Ha E Hr. pose proof (session_records_ok frames w0 Hf) as Hs.
  rewrite E in Hs. cbn [outcome_state] in Hs.
  apply (redrawn_preserves record_ok record_ok_begin f s shown); try assumption.
  eapply Forall_impl; [|exact Ha]. exact record_ok_scanner.
Qed.

Lemma record_ok_zero_label (e : NodeModulesEntry) : record_ok e -> zero_label_ok e.
Proof.
  intros [H1 H2]. split.
  - intros D Z0. specialize (H1 D). rewrite Z0 in H1. now injection H1.
  - intros D. destruct (H2 D) as (? & ? & _). now split.
Qed.

(* ------------------------------------------------------------------ *)
(** * The cursor *)
(* ------------------------------------------------------------------ *)

Section Cursor.
Context {World : Type} `{FileSystem World}.

Lemma handle_input_cursor (key sel scr : Z) (es : list NodeModulesEntry) (h : Z) :
  5 <= h -> 0 <= sel <= Z.max 0 (len es - 1) ->
  let '(sel', scr', _, _, _) := handle_input key sel scr es h in
  0 <= sel' <= Z.max 0 (len es - 1) /\ 0 <= scr'.
Proof.
  intros Hh Hs. unfold handle_input.
  repeat match goal with
         | |- context [if ?c then (_, _, _, _) else _] => destruct c
         end; split; lia.
Qed.

Lemma len_nonempty {A : Type} (l : list A) : nonempty_list l = true -> 1 <= len l.
Proof. destruct l; [discriminate|]. unfold len. simpl length. lia. Qed.

Lemma mark_step_cursor (h : Z) (es : list NodeModulesEntry) (sel scr : Z) :
  1 <= len es -> 0 <= sel <= Z.max 0 (len es - 1) ->
  exists es' sel' scr',
    mark_step h es sel scr = Ok (es', sel', scr') /\ length es' = length es /\
    0 <= sel' <= Z.max 0 (len es - 1) /\ (0 <= scr -> 0 <= scr').
Proof.
  intros Hn Hs. unfold mark_step.
  rewrite py_index_in_range by lia. cbn [bind].
  assert (len (update_at (Z.to_nat sel) toggle_mark es) = len es) as El
    by (unfold len; now rewrite length_update_at).
  rewrite El. destruct (Z.ltb_spec sel (len es - 1)).
  - eexists _, _, _. split; [reflexivity|]. split; [apply length_update_at|]. split; lia.
  - eexists _, _, _. split; [reflexivity|]. split; [apply length_update_at|]. split; lia.
Qed.

Lemma select_targets_in_range (es : list NodeModulesEntry) (sel : Z) :
  0 <= sel < len es -> exists targets, select_targets es sel = Ok targets.
Proof.
  intros Hs. unfold select_targets. destruct (marked_from 0 es); [|eauto].
  rewrite py_index_in_range by assumption. cbn [bind].
  destruct (nth_error es (Z.to_nat sel)) as [e|] eqn:E.
  - destruct (deleted e); simpl; eauto.
  - apply nth_error_None in E. unfold len in Hs. lia.
Qed.

Lemma delete_step_cursor (confirm : Z) (s : State World) :
  1 <= len (entries s) -> 0 <= selected s <= Z.max 0 (len (entries s) - 1) ->
  exists s', delete_step confirm s = Ok s' /\ length (entries s') = length (entries s) /\
             selected s' = selected s /\ scroll s' = scroll s.
Proof.
  intros Hn Hs. unfold delete_step.
  destruct (select_targets_in_range (entries s) (selected s) ltac:(lia)) as [targets ->].
  cbn [bind]. destruct targets as [|t ts]; [eauto|].
  destruct (key_in confirm [ord "Y"; ord "y"]); [|eauto].
  pose proof (length_delete_loop (t :: ts) (world s) (begin_all (t :: ts) (entries s))) as L.
  rewrite length_begin_all in L.
  destruct (delete_loop (world s) (begin_all (t :: ts) (entries s)) (t :: ts)) as [w es].
  eexists. split; [reflexivity|]. auto.
Qed.

Lemma drain_cursor (f : Frame) (s : State World) :
  cursor_ok s ->
  cursor_ok (drain_and_clamp f s) /\
  (entries (drain_and_clamp f s) <> [] ->
   scroll (drain_and_clamp f s)
     <= Z.max 0 (len (entries (drain_and_clamp f s)) - (height f - 5))).
Proof.
  unfold cursor_ok, drain_and_clamp. intros [Hs Hc].
  assert (len (entries s) <= len (entries s ++ arrived f)) as Hle
    by (unfold len; rewrite length_app; lia).
  destruct (entries s ++ arrived f)%list as [|x l] eqn:E; cbn [entries selected scroll].
  - split; [|intros F; now contradiction F].
    split; [|assumption]. destruct (entries s); [exact Hs | discriminate E].
  - split; [split; lia | intros _; lia].
Qed.

Lemma process_key_cursor (f : Frame) (s : State World) :
  5 <= height f -> cursor_ok s ->
  (forall e s', process_key f s <> Crash e s') /\ cursor_ok (outcome_state (process_key f s)).
Proof.
  unfold cursor_ok. intros Hh [Hs Hc]. unfold process_key.
  destruct (key f =? -1); [split; [discriminate | split; assumption]|].
  pose proof (handle_input_cursor (key f) (selected s) (scroll s) (entries s) (height f)
                Hh Hs) as Hi.
  destruct (handle_input (key f) (selected s) (scroll s) (entries s) (height f))
    as [[[[sel scr] q] d] m]. destruct Hi as [Hsel Hscr].
  destruct q; [split; [discriminate | split; assumption]|]. cbn [entries world].
  destruct (m && nonempty_list (entries s)) eqn:Em.
  - apply andb_true_iff in Em. destruct Em as [_ Em]. apply len_nonempty in Em.
    destruct (mark_step_cursor (height f) (entries s) sel scr Em Hsel)
      as (es' & sel' & scr' & -> & Hl & Hsel' & Hscr').
    cbn [bind entries].
    assert (len es' = len (entries s)) as Hl' by (unfold len; now rewrite Hl).
    destruct (d && nonempty_list es') eqn:Ed.
    + destruct (delete_step_cursor (confirm_key f) (mkState es' sel' scr' (world s)))
        as (s' & -> & L & S1 & S2); cbn [entries selected]; try lia.
      split; [discriminate|]. cbn [outcome_state]. cbn [selected scroll entries] in *.
      unfold len. rewrite L. fold (len es'). split; lia.
    + split; [discriminate|]. cbn [outcome_state selected scroll entries]. split; lia.
  - cbn [entries]. destruct (d && nonempty_list (entries s)) eqn:Ed.
    + apply andb_true_iff in Ed. destruct Ed as [_ Ed]. apply len_nonempty in Ed.
      destruct (delete_step_cursor (confirm_key f) (mkState (entries s) sel scr (world s)))
        as (s' & -> & L & S1 & S2); cbn [entries selected]; try lia.
      split; [discriminate|]. cbn [outcome_state]. cbn [selected scroll entries] in *.
      unfold len. rewrite L. fold (len (entries s)). split; lia.
    + split; [discriminate|]. cbn [outcome_state selected scroll entries]. split; lia.
Qed.

Lemma main_loop_cursor (frames : list Frame) (s : State World) :
  tall_frames frames -> cursor_ok s ->
  (forall e s', main_loop frames s <> Crash e s') /\
  cursor_ok (outcome_state (main_loop frames s)).
Proof.
  revert s. induction frames as [|f frames IH]; intros s Hf Hs;
    [split; [discriminate | exact Hs]|].
  inversion Hf as [|? ? Hf1 Hf2]; subst. cbn [main_loop].
  destruct (process_key_cursor f _ Hf1 (proj1 (drain_cursor f s Hs))) as [Hno Hc].
  fold (main_loop_iteration f s) in Hno, Hc.
  destruct (main_loop_iteration f s) as [s'|s'|e s'].
  - now apply IH.
  - split; [discriminate | exact Hc].
  - now contradiction (Hno e s').
Qed.

End Cursor.

Lemma redrawn_cursor {World : Type} `{FileSystem World} (f : Frame) (s shown : State World) :
  5 <= height f -> cursor_ok s -> redrawn f s = Some shown -> cursor_ok shown.
Proof.
  intros Hh Hs. unfold redrawn.
  destruct (drain_cursor f s Hs) as [[Hsel Hscr] _].
  set (s1 := drain_and_clamp f s) in *.
  destruct (key f =? -1); [discriminate|].
  pose proof (handle_input_cursor (key f) (selected s1) (scroll s1) (entries s1) (height f)
                Hh Hsel) as Hi.
  destruct (handle_input (key f) (selected s1) (scroll s1) (entries s1) (height f))
    as [[[[sel scr] q] d] m].
  destruct (q || m || negb d || negb (nonempty_list (entries s1))); [discriminate|].
  destruct (select_targets (entries s1) sel) as [[|t ts]|]; try discriminate.
  destruct (key_in (confirm_key f) [ord "Y"; ord "y"]); [|discriminate].
  intros E. injection E as E. rewrite <- E.
  unfold cursor_ok, len in *. cbn [entries selected scroll].
  rewrite length_begin_all, length_update_at. exact Hi.
Qed.

(** C4.  Two sessions in which the selection or the window leaves the
    range.

    - In a terminal of 25 rows with 100 records, [G] leaves the scroll
      offset 83.  The frame of the main loop is drawn after the clamp of the
      offset to [max(0, count - table_rows)], at 80; the redraw of a
      confirmed deletion ([D], then [Y]) calls [draw_table] with the offset
      that [handle_input] returned, 83, without that clamp: its window of 20
      rows ends at the row index 102, past [count - 1 = 99].
    - In a terminal of four rows [table_rows] is negative, and Page Down on
      two records moves the selection to -1, outside [0, count - 1]; the
      delete key then takes the record at [entries[-1]], the last one. *)
Theorem cursor_leaves_range :
  (let s := outcome_state (main_loop [mkFrame (example_entries 100) 25 (ord "G") 0]
                             (initial_state example_world)) in
   let f := mkFrame [] 25 (ord "D") (ord "Y") in
   len (entries s) = 100 /\ selected s = 99 /\ scroll s = 83 /\
   scroll (drain_and_clamp f s) = 80 /\
   scroll (drain_and_clamp f s) + (25 - 5) - 1 = len (entries (drain_and_clamp f s)) - 1 /\
   exists shown,
     redrawn f s = Some shown /\
     len (entries shown) = 100 /\ scroll shown = 83 /\
     scroll shown + (25 - 5) - 1 = 102 /\
     ~ scroll shown + (25 - 5) - 1 <= len (entries shown) - 1 /\
     ~ scroll shown <= Z.max 0 (len (entries shown) - (25 - 5))) /\
  (let w0 : toy_world := [("/r/a/node_modules", None); ("/r/b/node_modules", None)] in
   let s := outcome_state (main_loop [mkFrame [example_a; example_b] 4 KEY_NPAGE 0]
                             (initial_state w0)) in
   let s' := outcome_state (main_loop [mkFrame [example_a; example_b] 4 KEY_NPAGE 0;
                                       mkFrame [] 4 (ord "D") (ord "Y")]
                              (initial_state w0)) in
   len (entries s) = 2 /\ selected s = -1 /\
   ~ 0 <= selected s <= Z.max 0 (len (entries s) - 1) /\
   selected s' = -1 /\
   map deleted (entries s') = [false; true] /\
   world s' = [("/r/a/node_modules", None)]).
Proof.
  split.
  - cbv zeta. do 5 (split; [vm_compute; reflexivity|]).
    eexists. split; [vm_compute; reflexivity|].
    do 3 (split; [vm_compute; reflexivity|]).
    split; vm_compute; intros Hle; now apply Hle.
  - cbv zeta. do 2 (split; [vm_compute; reflexivity|]).
    split; [vm_compute; intros [Hle _]; now apply Hle|].
    repeat split; vm_compute; reflexivity.
Qed.

(** C2 (amended).  At every point of a session (after the frames
    [frames], whatever they are: arrivals from the scanner, marks,
    deletions; and in the redraw of a confirmed deletion), a record of size
    0 that is not deleted has the label ["0 B"], and a deleted record, whose
    size is 0, has the label ["—"]. *)
Theorem zero_size_label {World : Type} `{FileSystem World}
    (frames : list Frame) (w0 : World) :
  scanner_frames frames ->
  let o := main_loop frames (initial_state w0) in
  (forall e, In e (entries (outcome_state o)) -> zero_label_ok e) /\
  (forall f s shown e,
     Forall scanner_entry (arrived f) -> o = Continue s -> redrawn f s = Some shown ->
     In e (entries shown) -> zero_label_ok e).
Proof.
  intros Hf o. split.
  - intros e He. pose proof (session_records_ok frames w0 Hf) as Hok.
    rewrite Forall_forall in Hok. apply record_ok_zero_label. now apply Hok.
  - intros f s shown e Ha E Hr He.
    pose proof (session_redrawn_ok frames w0 f s shown Hf Ha E Hr) as Hok.
    rewrite Forall_forall in Hok. apply record_ok_zero_label. now apply Hok.
Qed.

Lemma example_a_scanner : scanner_entry example_a.
Proof. exists "/r/a/node_modules", "a", 100. reflexivity. Defined.

Lemma zero_size_label_witness :
  scanner_frames [mkFrame [example_a] 24 (ord "D") (ord "Y")] /\
  size_human (mkEntry "/r/a/node_modules" "a" 0 "—" "Deleted" true false) = "—".
Proof.
  assert (scanner_frames [mkFrame [example_a] 24 (ord "D") (ord "Y")]) as Hf
    by (repeat constructor; exact example_a_scanner).
  split; [exact Hf|].
  apply (proj1 (zero_size_label [mkFrame [example_a] 24 (ord "D") (ord "Y")] example_world
                  Hf) (mkEntry "/r/a/node_modules" "a" 0 "—" "Deleted" true false)).
  - left. reflexivity.
  - reflexivity.
Defined.

(** After a confirmed deletion the record has size 0 and the label ["—"],
    not ["0 B"]. *)
Lemma deleted_record_label :
  scanner_frames [mkFrame [example_a] 24 (ord "D") (ord "Y")] /\
  exists e,
    In e (entries (outcome_state (main_loop [mkFrame [example_a] 24 (ord "D") (ord "Y")]
                                    (initial_state example_world)))) /\
    size_kb e = 0 /\ size_human e = "—" /\ size_human e <> "0 B".
Proof.
  split; [repeat constructor; exact example_a_scanner|].
  exists (mkEntry "/r/a/node_modules" "a" 0 "—" "Deleted" true false).
  split; [left; reflexivity|]. repeat split. discriminate.
Qed.

(* ------------------------------------------------------------------ *)
(** * Deleting *)
(* ------------------------------------------------------------------ *)

Section Deleting.
Context {World : Type} `{FileSystem World}.

Lemma confirmed_delete_step (confirm : Z) (s : State World) (targets : list nat) :
  key_in confirm [ord "Y"; ord "y"] = true ->
  select_targets (entries s) (selected s) = Ok targets ->
  exists s',
    delete_step confirm s = Ok s' /\ selected s' = selected s /\ scroll s' = scroll s /\
    (targets <> [] ->
     (world s', entries s') = delete_loop (world s) (begin_all targets (entries s)) targets).
Proof.
  intros Hc Et. unfold delete_step. rewrite Et. cbn [bind].
  destruct targets as [|t ts]; [exists s; repeat split; now intros []|].
  rewrite Hc.
  destruct (delete_loop (world s) (begin_all (t :: ts) (entries s)) (t :: ts)) as [w es].
  eexists. repeat split.
Qed.

(** The record of a target after a confirmed deletion. *)
Lemma confirmed_delete_record (confirm : Z) (s s' : State World) (targets : list nat)
    (k t : nat) :
  key_in confirm [ord "Y"; ord "y"] = true ->
  select_targets (entries s) (selected s) = Ok targets ->
  delete_step confirm s = Ok s' ->
  nth_error targets k = Some t ->
  exists e,
    nth_error (entries s) t = Some e /\ deleted e = false /\
    nth_error (entries s') t =
      Some (finish_delete (snd (delete_entry (world_before s targets k) e)) (begin_delete e)).
Proof.
  intros Hc Et Ed Hk.
  destruct (confirmed_delete_step confirm s targets Hc Et) as (s2 & Ed2 & _ & _ & Hrun).
  rewrite Ed in Ed2. injection Ed2 as <-.
  destruct (select_targets_spec _ _ _ Et) as [ND Hvalid].
  destruct (Hvalid t (nth_error_In _ _ Hk)) as (e & Ee & Hd).
  exists e. split; [exact Ee|]. split; [exact Hd|].
  assert (targets <> []) as Hne by (intros ->; now destruct k).
  specialize (Hrun Hne).
  assert (entries s' = snd (delete_loop (world s) (begin_all targets (entries s)) targets))
    as -> by now rewrite <- Hrun.
  assert (nth_error (begin_all targets (entries s)) t = Some (begin_delete e)) as Eb.
  { rewrite nth_error_begin_all, Ee.
    destruct (in_dec Nat.eq_dec t targets) as [|Hn]; [reflexivity|].
    exfalso. apply Hn. eapply nth_error_In. exact Hk. }
  rewrite (delete_loop_target targets (world s) _ k t (begin_delete e) ND Hk Eb).
  reflexivity.
Qed.

End Deleting.

(** The records of a batch, from what [delete_entry] returned for each (the
    [k]-th target, [error] being the value returned for it): without an
    error text the record is deleted, of size 0 and not marked; with one
    the record is not deleted and its status is ["Err: "] followed by the
    first 8 characters of the text.  And at every point of a session (after
    any frames, and in the redraw of a confirmed deletion) no deleted record
    is marked. *)
Lemma confirmed_deletion_records {World : Type} `{FileSystem World} :
  (forall (confirm : Z) (s s' : State World) (targets : list nat) (k t : nat),
     key_in confirm [ord "Y"; ord "y"] = true ->
     select_targets (entries s) (selected s) = Ok targets ->
     delete_step confirm s = Ok s' ->
     nth_error targets k = Some t ->
     exists e R,
       nth_error (entries s) t = Some e /\ nth_error (entries s') t = Some R /\
       let error := snd (delete_entry (world_before s targets k) e) in
       (truthy error = false ->
          deleted R = true /\ size_kb R = 0 /\ marked R = false /\ status R = "Deleted") /\
       (forall msg, error = Some msg -> msg <> "" ->
          deleted R = false /\ marked R = false /\
          status R = "Err: " ++ substring 0 8 msg /\
          (exists rest, msg = substring 0 8 msg ++ rest) /\
          (String.length (status R) <= 13)%nat)) /\
  (forall (frames : list Frame) (w0 : World) (e : NodeModulesEntry),
     scanner_frames frames ->
     In e (entries (outcome_state (main_loop frames (initial_state w0)))) ->
     deleted e = true -> marked e = false) /\
  (forall (frames : list Frame) (w0 : World) (f : Frame) (s shown : State World)
          (e : NodeModulesEntry),
     scanner_frames frames -> Forall scanner_entry (arrived f) ->
     main_loop frames (initial_state w0) = Continue s -> redrawn f s = Some shown ->
     In e (entries shown) -> deleted e = true -> marked e = false).
Proof.
  split; [|split].
  - intros confirm s s' targets k t Hc Et Ed Hk.
    destruct (confirmed_delete_record confirm s s' targets k t Hc Et Ed Hk)
      as (e & Ee & Hd & ER).
    exists e. eexists. split; [exact Ee|]. split; [exact ER|].
    cbv zeta. destruct (snd (delete_entry (world_before s targets k) e)) as [msg0|]; split.
    + unfold finish_delete. intros ->. now repeat split.
    + intros msg E Hmsg. injection E as ->. unfold finish_delete, truthy.
      apply String.eqb_neq in Hmsg. rewrite Hmsg. cbn [negb].
      repeat split; try assumption.
      * apply StrFacts.substring_prefix.
      * cbn [status set_status]. rewrite StrFacts.length_app.
        pose proof (StrFacts.length_substring_le 8 msg). simpl String.length. lia.
    + intros _. now repeat split.
    + intros msg E. discriminate E.
  - intros frames w0 e Hf He D. pose proof (session_records_ok frames w0 Hf) as Hok.
    rewrite Forall_forall in Hok. destruct (Hok e He) as [_ H2]. now apply H2.
  - intros frames w0 f s shown e Hf Ha E Hr He D.
    pose proof (session_redrawn_ok frames w0 f s shown Hf Ha E Hr) as Hok.
    rewrite Forall_forall in Hok. destruct (Hok e He) as [_ H2]. now apply H2.
Qed.

(** With the handler [_on_rm_error], [delete_entry] has no error text for a
    removal: it returns ["Already gone"] for a path that is not there and
    [None] for every other one. *)
Lemma delete_entry_on_disk (w : disk) (entry : NodeModulesEntry) :
  snd (delete_entry w entry) =
    if path_exists w (abs_path entry) then None else Some "Already gone".
Proof.
  unfold delete_entry. cbn [path_exists rmtree disk_fs].
  destruct (disk_lookup w (abs_path entry)); reflexivity.
Qed.

(** C5.  A removal that fails is recorded as a deletion.  On a disk where
    the target of a record holds a file that cannot be removed, the
    confirmed deletion of the record ([D], then [Y]) leaves the directory on
    the disk with that file in it, [delete_entry] returns [None], and the
    record becomes deleted, with the status ["Deleted"] and the size 0,
    where a failed deletion is to leave [deleted] false and a status with
    an excerpt of the reason.  It is so for every record whose path exists
    on such a disk, because every [OSError] of the removal ends in
    [_on_rm_error]. *)
Theorem failed_removal_marked_deleted :
  let frames := [mkFrame [example_a] 24 (ord "D") (ord "Y")] in
  let s := outcome_state (main_loop frames (initial_state example_disk)) in
  path_exists example_disk (abs_path example_a) = true /\
  delete_entry example_disk example_a =
    ([("/r/a/node_modules", Folder [("pkg", Folder [("index.js", File Stuck)])])], None) /\
  world s = [("/r/a/node_modules", Folder [("pkg", Folder [("index.js", File Stuck)])])] /\
  path_exists (world s) (abs_path example_a) = true /\
  entries s = [mkEntry "/r/a/node_modules" "a" 0 "—" "Deleted" true false] /\
  (forall (w : disk) (entry : NodeModulesEntry),
     path_exists w (abs_path entry) = true ->
     snd (delete_entry w entry) = None /\
     finish_delete (snd (delete_entry w entry)) (begin_delete entry) =
       mkEntry (abs_path entry) (rel_path entry) 0 "—" "Deleted" true false).
Proof.
  cbv zeta. do 5 (split; [vm_compute; reflexivity|]).
  intros w entry Hp. rewrite delete_entry_on_disk, Hp.
  split; [reflexivity | now destruct entry].
Qed.

(** C1 (amended).  For a target whose path no longer exists
    when it is deleted, [delete_entry] returns the text ["Already gone"] and
    leaves the file system as it is; the workflow takes the text as an
    error: the record is not deleted, keeps its size and label, and its
    status is ["Err: Already "] (the first 8 characters of the text). *)
Theorem vanished_target_reported {World : Type} `{FileSystem World} :
  (forall (w : World) (entry : NodeModulesEntry),
     path_exists w (abs_path entry) = false ->
     delete_entry w entry = (w, Some "Already gone")) /\
  (forall (confirm : Z) (s s' : State World) (targets : list nat) (k t : nat),
     key_in confirm [ord "Y"; ord "y"] = true ->
     select_targets (entries s) (selected s) = Ok targets ->
     delete_step confirm s = Ok s' ->
     nth_error targets k = Some t ->
     exists e,
       nth_error (entries s) t = Some e /\
       (path_exists (world_before s targets k) (abs_path e) = false ->
        nth_error (entries s') t =
          Some (mkEntry (abs_path e) (rel_path e) (size_kb e) (size_human e)
                  "Err: Already " false false))).
Proof.
  assert (forall (w : World) (entry : NodeModulesEntry),
            path_exists w (abs_path entry) = false ->
            delete_entry w entry = (w, Some "Already gone")) as Hgone.
  { intros w entry E. unfold delete_entry. now rewrite E. }
  split; [exact Hgone|].
  intros confirm s s' targets k t Hc Et Ed Hk.
  destruct (confirmed_delete_record confirm s s' targets k t Hc Et Ed Hk)
    as (e & Ee & Hd & ER).
  exists e. split; [exact Ee|]. intros Hp.
  rewrite ER, (Hgone _ _ Hp). cbn [snd]. unfold finish_delete.
  change (truthy (Some "Already gone")) with true. cbv iota.
  unfold set_status, begin_delete, set_marked, set_status; cbn. now rewrite Hd.
Qed.

(** With nothing at the path of a target, a confirmed deletion gives its
    record an error status and does not mark it deleted. *)
Lemma vanished_target_gets_error_status :
  path_exists (World := toy_world) [] (abs_path example_a) = false /\
  entries (outcome_state (main_loop [mkFrame [example_a] 24 (ord "D") (ord "Y")]
                            (initial_state ([] : toy_world))))
  = [mkEntry "/r/a/node_modules" "a" 100 "100.0 KB" "Err: Already " false false].
Proof. split; reflexivity. Qed.

(** C7.  On the delete key, with records in the list: the targets are the
    records that are marked and not deleted; when none is marked, the
    record under the cursor if it is not deleted; with no target the
    iteration changes no record and nothing on disk; with targets, the
    deletion runs when the confirmation key is [Y] or [y], on the targets
    alone, and any other key leaves every record and the disk as they
    are. *)
Theorem delete_intent_workflow {World : Type} `{FileSystem World}
    (f : Frame) (s : State World) :
  key f = ord "D" ->
  entries s <> [] ->
  let es := entries s in
  let marked_targets := marked_from 0 es in
  (forall i, In i marked_targets <->
     exists e, nth_error es i = Some e /\ marked e = true /\ deleted e = false) /\
  (marked_targets <> [] -> select_targets es (selected s) = Ok marked_targets) /\
  (marked_targets = [] ->
   forall cur, 0 <= selected s -> nth_error es (Z.to_nat (selected s)) = Some cur ->
     select_targets es (selected s)
       = Ok (if deleted cur then [] else [Z.to_nat (selected s)])) /\
  (forall confirm, key_in confirm [ord "Y"; ord "y"] = true <->
                   confirm = ord "Y" \/ confirm = ord "y") /\
  (forall targets, select_targets es (selected s) = Ok targets ->
     exists s',
       process_key f s = Continue s' /\
       (targets = [] -> entries s' = es /\ world s' = world s) /\
       (key_in (confirm_key f) [ord "Y"; ord "y"] = false ->
          entries s' = es /\ world s' = world s) /\
       (targets <> [] -> key_in (confirm_key f) [ord "Y"; ord "y"] = true ->
          (world s', entries s') = delete_loop (world s) (begin_all targets es) targets /\
          forall i, ~ In i targets -> nth_error (entries s') i = nth_error es i)).
Proof.
  intros Hkey Hne es marked_targets. split; [|split; [|split; [|split]]].
  - intros i. subst marked_targets. rewrite marked_from_spec, Nat.sub_0_r.
    split; [now intros [_ E] | intros E; split; [lia | exact E]].
  - intros Hm. unfold select_targets. fold es marked_targets.
    destruct marked_targets; [now contradiction Hm | reflexivity].
  - intros Hm cur Hsel Hcur. unfold select_targets. fold es marked_targets. rewrite Hm.
    assert (selected s < len es) as Hlt.
    { assert (nth_error es (Z.to_nat (selected s)) <> None) as Hn by congruence.
      apply nth_error_Some in Hn. unfold len. lia. }
    rewrite py_index_in_range by lia. cbn [bind]. rewrite Hcur.
    now destruct (deleted cur).
  - intros confirm. unfold key_in. cbn [existsb]. rewrite !orb_true_iff, !Z.eqb_eq.
    intuition discriminate.
  - intros targets Et. unfold process_key. rewrite Hkey.
    change (ord "D" =? -1) with false. cbv iota.
    rewrite handle_input_delete_key. cbn [andb entries world].
    assert (nonempty_list (entries s) = true) as -> by (destruct (entries s); [now contradiction Hne | reflexivity]).
    unfold delete_step. cbn [entries selected world scroll]. fold es. rewrite Et. cbn [bind].
    destruct targets as [|t ts].
    + eexists. split; [reflexivity|]. repeat split; try reflexivity; intros; now contradiction.
    + destruct (key_in (confirm_key f) [ord "Y"; ord "y"]) eqn:Hc.
      * destruct (delete_loop (world s) (begin_all (t :: ts) es) (t :: ts)) as [w es'] eqn:El.
        eexists. split; [reflexivity|]. cbn [entries world].
        split; [discriminate|]. split; [discriminate|]. intros _ _. split; [reflexivity|].
        intros i Hi. change es' with (snd (w, es')). rewrite <- El.
        rewrite delete_loop_other by assumption. rewrite nth_error_begin_all.
        destruct (in_dec Nat.eq_dec i (t :: ts)); [contradiction | reflexivity].
      * eexists. split; [reflexivity|]. cbn [entries world].
        repeat split; try reflexivity; intros; try discriminate.
Qed.

Lemma delete_intent_workflow_witness :
  key (mkFrame [] 24 (ord "D") (ord "n")) = ord "D" /\
  entries (mkState [example_a] 0 0 example_world) <> [] /\
  exists s',
    process_key (mkFrame [] 24 (ord "D") (ord "n")) (mkState [example_a] 0 0 example_world)
      = Continue s' /\
    entries s' = [example_a] /\ world s' = example_world.
Proof.
  assert (entries (mkState [example_a] 0 0 example_world) <> []) as Hne by discriminate.
  split; [reflexivity|]. split; [exact Hne|].
  destruct (delete_intent_workflow (mkFrame [] 24 (ord "D") (ord "n"))
              (mkState [example_a] 0 0 example_world) eq_refl Hne)
    as (_ & _ & _ & _ & Hrun).
  destruct (Hrun [0%nat] eq_refl) as (s' & E & _ & Hcancel & _).
  exists s'. split; [exact E|]. exact (Hcancel eq_refl).
Defined.

(* ------------------------------------------------------------------ *)
(** * Characters and slices *)
(* ------------------------------------------------------------------ *)

Module PyStrFacts.
Import PyStr.


Lemma concat_empty_cons (x : string) (xs : list string) :
  String.concat "" (x :: xs) = x ++ String.concat "" xs.
Proof.
  destruct xs as [|y ys]; [|reflexivity].
  cbn [String.concat]. now rewrite StrFacts.app_nil_r.
Qed.

Lemma concat_app (l1 l2 : list string) :
  String.concat "" (l1 ++ l2) = String.concat "" l1 ++ String.concat "" l2.
Proof.
  induction l1 as [|x l1 IH]; [reflexivity|].
  rewrite <- List.app_comm_cons, !concat_empty_cons, IH. now rewrite StrFacts.app_assoc.
Qed.

(** The characters of a text, put together again, are the text. *)
Lemma concat_chars (s : string) : String.concat "" (chars s) = s.
Proof.
  induction s as [|c r IH]; [reflexivity|].
  cbn [chars]. destruct (chars r) as [|x xs] eqn:E.
  - cbn in IH. now subst r.
  - rewrite concat_empty_cons in IH.
    destruct (starts_cont r); rewrite !concat_empty_cons; cbn [append]; rewrite ?concat_empty_cons;
      now rewrite IH.
Qed.

Lemma chars_lead (c : ascii) (r : string) :
  starts_cont r = false -> chars (String c r) = String c "" :: chars r.
Proof.
  intros H. cbn [chars]. destruct (chars r) as [|x xs]; [reflexivity|]. now rewrite H.
Qed.

(** A byte and the continuation bytes after it are one character. *)
Lemma chars_absorb (c : ascii) (t rest : string) :
  all_cont t = true -> starts_cont rest = false ->
  chars (String c (t ++ rest)) = String c t :: chars rest.
Proof.
  revert c. induction t as [|d t IH]; intros c Ht Hr.
  - now apply chars_lead.
  - cbn [all_cont] in Ht. apply andb_prop in Ht as [Hd Ht].
    cbn [append]. specialize (IH d Ht Hr).
    change (chars (String c (String d (t ++ rest))))
      with (match chars (String d (t ++ rest)) with
            | x :: xs => if starts_cont (String d (t ++ rest)) then String c x :: xs
                         else String c "" :: x :: xs
            | [] => [String c ""]
            end).
    rewrite IH. cbn [starts_cont]. now rewrite Hd.
Qed.

Lemma chars_shape (s : string) :
  Forall chunk (chars s) /\ Forall lead (tl (chars s)) /\
  (starts_cont s = false -> Forall lead (chars s)).
Proof.
  induction s as [|c r (IH1 & IH2 & IH3)]; [repeat split; constructor|].
  cbn [chars]. destruct (chars r) as [|x xs] eqn:E.
  - repeat split.
    + constructor; [|constructor]. now exists c, "".
    + constructor.
    + intros H. constructor; [exact H | constructor].
  - apply Forall_cons_iff in IH1 as [(d & t & -> & Ht) IH1]. cbn [tl] in IH2.
    assert (starts_cont r = is_cont d) as Hd.
    { rewrite <- (concat_chars r), E, concat_empty_cons. reflexivity. }
    destruct (starts_cont r) eqn:Er.
    + repeat split.
      * constructor; [|exact IH1]. exists c, (String d t). split; [reflexivity|].
        cbn [all_cont]. now rewrite <- Hd, Ht.
      * exact IH2.
      * intros H. constructor; [exact H | exact IH2].
    + repeat split.
      * constructor; [now exists c, ""|]. constructor; [now exists d, t | exact IH1].
      * cbn [tl]. apply IH3. reflexivity.
      * intros H. constructor; [exact H|]. apply IH3. reflexivity.
Qed.

Lemma concat_lead (l : list string) :
  Forall chunk l -> Forall lead l -> starts_cont (String.concat "" l) = false.
Proof.
  intros Hc Hl. destruct l as [|x xs]; [reflexivity|].
  apply Forall_cons_iff in Hc as [(c & t & -> & _) _].
  apply Forall_cons_iff in Hl as [Hx _]. rewrite concat_empty_cons. exact Hx.
Qed.

(** Characters put together are read back as they were. *)
Lemma chars_concat (l : list string) :
  Forall chunk l -> Forall lead (tl l) -> chars (String.concat "" l) = l.
Proof.
  induction l as [|x xs IH]; intros Hc Hl; [reflexivity|].
  apply Forall_cons_iff in Hc as [(c & t & -> & Ht) Hc]. cbn [tl] in Hl.
  rewrite concat_empty_cons. cbn [append].
  rewrite chars_absorb; [| exact Ht | now apply concat_lead].
  f_equal. apply IH; [exact Hc|].
  destruct xs as [|y ys]; [constructor|]. now apply Forall_cons_iff in Hl as [_ Hl].
Qed.

Lemma Forall_skipn {A : Type} (P : A -> Prop) (k : nat) (l : list A) :
  Forall P l -> Forall P (skipn k l).
Proof.
  intros H. revert k. induction H as [|x l Hx H IH]; intros [|k]; cbn [skipn]; auto.
Qed.

Lemma Forall_firstn {A : Type} (P : A -> Prop) (k : nat) (l : list A) :
  Forall P l -> Forall P (firstn k l).
Proof.
  intros H. revert k. induction H as [|x l Hx H IH]; intros [|k]; cbn [firstn]; auto.
Qed.

Lemma tl_skipn {A : Type} (k : nat) (l : list A) : tl (skipn k l) = skipn k (tl l).
Proof.
  revert l. induction k as [|k IH]; intros l; [reflexivity|].
  destruct l as [|x l]; [reflexivity|]. cbn [skipn tl].
  rewrite IH. destruct l; [now destruct k | reflexivity].
Qed.

(** The characters of a text from its character [k] on. *)
Lemma chars_skipn (k : nat) (s : string) :
  chars (String.concat "" (skipn k (chars s))) = skipn k (chars s).
Proof.
  destruct (chars_shape s) as (Hc & Hl & _).
  apply chars_concat; [now apply Forall_skipn|].
  rewrite tl_skipn. now apply Forall_skipn.
Qed.

(** The characters of the first [k] characters of a text. *)
Lemma chars_firstn (k : nat) (s : string) :
  chars (String.concat "" (firstn k (chars s))) = firstn k (chars s).
Proof.
  destruct (chars_shape s) as (Hc & Hl & _).
  apply chars_concat; [now apply Forall_firstn|].
  destruct k as [|k]; [constructor|].
  destruct (chars s) as [|x xs]; [constructor|]. cbn [firstn tl] in *.
  now apply Forall_firstn.
Qed.

(** The text from a character other than the first one on does not start
    with a continuation byte. *)
Lemma skipn_lead (k : nat) (s : string) :
  (0 < k)%nat -> starts_cont (String.concat "" (skipn k (chars s))) = false.
Proof.
  intros Hk. destruct (chars_shape s) as (Hc & Hl & _).
  apply concat_lead; [now apply Forall_skipn|].
  destruct k as [|k]; [lia|]. destruct (chars s) as [|x xs]; [constructor|].
  cbn [skipn tl] in *. now apply Forall_skipn.
Qed.

(** A text is its first [k] characters and the rest. *)
Lemma split_at (k : nat) (s : string) :
  s = String.concat "" (firstn k (chars s)) ++ String.concat "" (skipn k (chars s)).
Proof. now rewrite <- concat_app, firstn_skipn, concat_chars. Qed.

Lemma index_of_range (c : string) (l : list string) :
  index_of c l = -1 \/ 0 <= index_of c l < Z.of_nat (List.length l).
Proof.
  induction l as [|x l IH]; [now left|].
  cbn [index_of List.length]. destruct (x =? c)%string; [right; lia|].
  destruct (Z.eqb_spec (index_of c l) (-1)); [now left | right; lia].
Qed.

(** The position that [index_of] returns holds the character, and no
    position before it does. *)
Lemma index_of_found (c : string) (l : list string) :
  0 <= index_of c l ->
  exists b, l = (firstn (Z.to_nat (index_of c l)) l ++ c :: b)%list /\
            skipn (Z.to_nat (index_of c l)) l = c :: b /\
            ~ In c (firstn (Z.to_nat (index_of c l)) l).
Proof.
  induction l as [|x l IH]; [cbn [index_of]; lia|].
  cbn [index_of]. destruct (String.eqb_spec x c) as [->|Hne].
  - intros _. exists l. cbn. auto.
  - destruct (Z.eqb_spec (index_of c l) (-1)) as [|Hk]; [lia|]. intros _.
    destruct (index_of_range c l) as [|Hr]; [contradiction|].
    destruct (IH ltac:(lia)) as (b & E1 & E2 & Hn). exists b.
    replace (Z.to_nat (index_of c l + 1)) with (S (Z.to_nat (index_of c l))) by lia.
    cbn [firstn skipn]. split; [|split].
    + rewrite <- List.app_comm_cons. now rewrite <- E1.
    + exact E2.
    + intros [H|H]; [now apply Hne | now apply Hn].
Qed.

Lemma index_of_absent (c : string) (l : list string) :
  index_of c l = -1 -> ~ In c l.
Proof.
  induction l as [|x l IH]; [intros _ []|].
  cbn [index_of]. destruct (String.eqb_spec x c) as [->|Hne]; [lia|].
  destruct (Z.eqb_spec (index_of c l) (-1)) as [Hk|Hk].
  - intros _ [H|H]; [now apply Hne | now apply IH].
  - destruct (index_of_range c l); lia.
Qed.

Lemma index_of_late (c : string) (l : list string) (n : nat) :
  Z.of_nat n <= index_of c l -> ~ In c (firstn n l).
Proof.
  intros Hn. destruct (index_of_found c l ltac:(lia)) as (b & _ & _ & H).
  intros Hin. apply H.
  rewrite <- (firstn_skipn n (firstn (Z.to_nat (index_of c l)) l)).
  apply in_or_app. left. rewrite firstn_firstn.
  now replace (Nat.min n (Z.to_nat (index_of c l))) with n by lia.
Qed.

End PyStrFacts.

(* ------------------------------------------------------------------ *)
(** * [truncate_path] *)
(* ------------------------------------------------------------------ *)

Section TruncatePath.
Import PyStr PyStrFacts.

Lemma chars_dots (t : string) :
  chars ("..." ++ t) = "." :: "." :: chars (String "." t).
Proof.
  change ("..." ++ t) with (String "." (String "." (String "." t))).
  now rewrite !chars_lead by reflexivity.
Qed.


Lemma length_dots (t : string) :
  starts_cont t = false -> length ("..." ++ t) = 3 + length t.
Proof.
  intros H. unfold length. rewrite chars_dots, chars_lead by exact H.
  cbn [List.length]. lia.
Qed.

(** [s[-k:]] for [0 < k <= len(s)]: the last [k] characters. *)
Lemma slice_from_end (s : string) (k : Z) :
  0 < k <= length s ->
  slice_from s (- k) = String.concat "" (skipn (Z.to_nat (length s - k)) (chars s)).
Proof.
  intros Hk. unfold slice_from, bound.
  destruct (Z.ltb_spec (- k) 0); [|lia]. rewrite Z.max_r by lia. reflexivity.
Qed.

(** [s[i:]] for a position [i] of [s]. *)
Lemma slice_from_position (s : string) (i : Z) :
  0 <= i <= length s ->
  slice_from s i = String.concat "" (skipn (Z.to_nat i) (chars s)).
Proof.
  intros Hi. unfold slice_from, bound.
  destruct (Z.ltb_spec i 0); [lia|]. rewrite Z.min_l by lia. reflexivity.
Qed.

(** The alignment of the tail to a separator. *)
Lemma align_to_sep (tail : string) :
  let sep_idx := find tail "/" in
  let tail' :=
    if negb (sep_idx =? -1) && (sep_idx <? 8) then slice_from tail sep_idx else tail in
  (exists a b, chars tail = (a ++ "/" :: b)%list /\ (List.length a < 8)%nat /\ ~ In "/" a /\
               a = firstn (List.length a) (chars tail) /\
               chars (String.concat "" ("/" :: b)) = "/" :: b /\
               tail' = String.concat "" ("/" :: b)) \/
  (~ In "/" (firstn 8 (chars tail)) /\ tail' = tail).
Proof.
  intros sep_idx tail'. subst tail' sep_idx. unfold find.
  pose proof (index_of_range "/" (chars tail)) as Hr.
  destruct (Z.eqb_spec (index_of "/" (chars tail)) (-1)) as [Hk|Hk]; cbn [negb andb].
  { right. split; [|reflexivity]. intros Hin. apply (index_of_absent _ _ Hk).
    rewrite <- (firstn_skipn 8 (chars tail)). apply in_or_app. now left. }
  destruct Hr as [|Hr]; [contradiction|].
  destruct (Z.ltb_spec (index_of "/" (chars tail)) 8) as [H8|H8].
  - left. destruct (index_of_found "/" (chars tail) ltac:(lia)) as (b & E1 & E2 & Hn).
    set (j := Z.to_nat (index_of "/" (chars tail))) in *.
    assert (List.length (firstn j (chars tail)) = j) as Lj
      by (rewrite length_firstn; lia).
    exists (firstn j (chars tail)), b. rewrite Lj.
    split; [exact E1|]. split; [lia|]. split; [exact Hn|]. split; [reflexivity|].
    rewrite <- E2. split; [apply chars_skipn|].
    apply slice_from_position. unfold length. lia.
  - right. split; [|reflexivity]. apply index_of_late. lia.
Qed.

(** What [truncate_path] returns for a path longer than a width of at
    least four. *)
Lemma truncate_path_long (rel_path : string) (max_width : Z) :
  4 <= max_width -> max_width < length rel_path ->
  exists pre tail,
    rel_path = pre ++ tail /\
    chars rel_path = (chars pre ++ chars tail)%list /\
    length tail = max_width - 3 /\
    starts_cont tail = false /\
    ((exists a b,
        chars tail = (a ++ "/" :: b)%list /\ (List.length a < 8)%nat /\ ~ In "/" a /\
        chars (String.concat "" ("/" :: b)) = "/" :: b /\
        truncate_path rel_path max_width = "..." ++ String.concat "" ("/" :: b)) \/
     (~ In "/" (firstn 8 (chars tail)) /\
      truncate_path rel_path max_width = "..." ++ tail)).
Proof.
  intros Hw Hl. unfold truncate_path.
  destruct (Z.leb_spec (length rel_path) max_width); [lia|].
  rewrite (slice_from_end rel_path (max_width - 3)) by lia.
  set (k := Z.to_nat (length rel_path - (max_width - 3))).
  set (tail := String.concat "" (skipn k (chars rel_path))).
  exists (String.concat "" (firstn k (chars rel_path))), tail.
  split; [apply split_at|].
  split; [subst tail; now rewrite chars_firstn, chars_skipn, firstn_skipn|].
  split; [subst tail; unfold length in *; rewrite chars_skipn, length_skipn; lia|].
  split; [apply skipn_lead; unfold length in *; lia|].
  destruct (align_to_sep tail) as [(a & b & E & La & Hn & _ & Hb & ->) | (Hn & ->)].
  - left. exists a, b. auto.
  - right. auto.
Qed.

Lemma truncate_path_length (rel_path : string) (max_width : Z) :
  4 <= max_width -> length (truncate_path rel_path max_width) <= max_width.
Proof.
  intros Hw. destruct (Z.le_gt_cases (length rel_path) max_width) as [Hl|Hl].
  - unfold truncate_path. destruct (Z.leb_spec (length rel_path) max_width); [exact Hl | lia].
  - destruct (truncate_path_long rel_path max_width Hw ltac:(lia))
      as (pre & tail & _ & _ & Lt & Hs & [(a & b & E & _ & _ & Hb & ->) | (_ & ->)]).
    + rewrite length_dots by (now rewrite concat_empty_cons).
      unfold length in *. rewrite Hb. rewrite E, length_app in Lt.
      cbn [List.length] in *. lia.
    + rewrite length_dots by exact Hs. lia.
Qed.

(** Characters are counted, not bytes: a path of five two-byte characters
    fits a column of seven. *)
Lemma truncate_path_counts_characters :
  length "ééééé" = 5 /\ truncate_path "ééééé" 7 = "ééééé" /\
  truncate_path "ééééé/ééééé" 7 = "...éééé".
Proof. repeat split; vm_compute; reflexivity. Qed.

End TruncatePath.

(** X1.  [truncate_path] returns a path that fits as it is, and for a width
    of at least four its result always fits the width, both counted in
    characters. *)
Theorem truncate_path_fits (rel_path : string) (max_width : Z) :
  (PyStr.length rel_path <= max_width -> truncate_path rel_path max_width = rel_path) /\
  (4 <= max_width -> PyStr.length (truncate_path rel_path max_width) <= max_width).
Proof.
  split.
  - intros Hl. unfold truncate_path.
    destruct (Z.leb_spec (PyStr.length rel_path) max_width); [reflexivity | lia].
  - apply truncate_path_length.
Qed.

(** X2.  A path longer than the width (of at least four) is shown as
    ["..."] followed by a tail of the path.  The tail is made of the last
    [max_width - 3] characters of the path; when a separator is among the
    first eight of them, what is shown starts at the first separator, and
    otherwise all of them are shown. *)
Theorem truncate_path_keeps_tail (rel_path : string) (max_width : Z) :
  4 <= max_width -> max_width < PyStr.length rel_path ->
  exists pre tail,
    rel_path = pre ++ tail /\
    PyStr.chars rel_path = (PyStr.chars pre ++ PyStr.chars tail)%list /\
    PyStr.length tail = max_width - 3 /\
    ((exists a b,
        PyStr.chars tail = (a ++ "/" :: b)%list /\ (List.length a < 8)%nat /\ ~ In "/" a /\
        truncate_path rel_path max_width = "..." ++ String.concat "" ("/" :: b)) \/
     (~ In "/" (firstn 8 (PyStr.chars tail)) /\
      truncate_path rel_path max_width = "..." ++ tail)).
Proof.
  intros Hw Hl.
  destruct (truncate_path_long rel_path max_width Hw Hl)
    as (pre & tail & E & Ec & Lt & _ & [(a & b & Ea & La & Hn & _ & R) | (Hn & R)]);
    exists pre, tail; repeat (split; [assumption|]).
  - left. exists a, b. auto.
  - right. auto.
Qed.

Lemma truncate_path_keeps_tail_witness :
  4 <= 12 /\ 12 < PyStr.length "packages/wéb/app" /\
  exists pre tail,
    "packages/wéb/app" = pre ++ tail /\ PyStr.length tail = 12 - 3.
Proof.
  assert (4 <= 12) as H1 by lia.
  assert (12 < PyStr.length "packages/wéb/app") as H2 by (vm_compute; reflexivity).
  split; [exact H1|]. split; [exact H2|].
  destruct (truncate_path_keeps_tail "packages/wéb/app" 12 H1 H2) as (pre & t & E1 & _ & E2 & _).
  exists pre, t. split; assumption.
Defined.



(** X4.  The path column of the table is at least 20 characters wide and
    leaves room for the mark, the size and the status in a terminal of 50
    columns or more; the path that [draw_table] shows in it
    ([truncate_path] at [_path_col_width]) always fits the column. *)
Theorem path_column_fits (rel_path : string) (width : Z) :
  20 <= _path_col_width width /\
  (50 <= width ->
   COL_MARK_W + _path_col_width width + COL_SEP + COL_SIZE_W + COL_SEP + COL_STATUS_W
     = width - 2) /\
  PyStr.length (truncate_path rel_path (_path_col_width width)) <= _path_col_width width.
Proof.
  unfold _path_col_width, COL_MARK_W, COL_SIZE_W, COL_STATUS_W, COL_SEP.
  split; [lia|]. split; [lia|]. apply truncate_path_length. lia.
Qed.

(* ------------------------------------------------------------------ *)
(** * [format_size]: whole units, sizes below zero, sizes beyond a float *)
(* ------------------------------------------------------------------ *)

Section FormatSizeEdges.
Import PyNum PyNumFacts.

(** A whole number [q] of units is printed as [q.0]. *)
Lemma format_quotient_whole (q j : Z) (unit : string) :
  0 <= j -> 1 <= q -> q * 2 ^ j < 2 ^ 53 ->
  format_quotient (q * 2 ^ j) (2 ^ j) unit = Ok (str_int q ++ ".0 " ++ unit).
Proof.
  intros Hj Hq Hlt.
  assert (0 < 2 ^ j) as Hp by (apply Z.pow_pos_nonneg; lia).
  rewrite format_quotient_exact by nia.
  replace (10 * (q * 2 ^ j)) with (10 * q * 2 ^ j) by ring.
  rewrite round_half_even_exact by assumption.
  replace (10 * q / 10) with q by (rewrite Z.mul_comm, Z.div_mul; lia).
  replace (10 * q mod 10) with 0 by (rewrite Z.mul_comm, Z.mod_mul; lia).
  reflexivity.
Qed.

(** From [2^(1024 + j)] on, the quotient by [2^j] is no float. *)
Lemma int_true_divide_overflow (a j : Z) :
  0 <= j -> 2 ^ (1024 + j) <= a -> int_true_divide a (2 ^ j) = Raise OverflowError.
Proof.
  intros Hj Ha.
  assert (0 < 2 ^ j) as Hp by (apply Z.pow_pos_nonneg; lia).
  assert (2 ^ j <= 2 ^ (1024 + j)) as Hm by (apply Z.pow_le_mono_r; lia).
  assert (1024 + j <= Z.log2 a) as Hl by (apply Z.log2_le_pow2; lia).
  unfold int_true_divide.
  destruct (Z.eqb_spec (2 ^ j) 0); [lia|]. destruct (Z.eqb_spec a 0); [lia|].
  rewrite (Z.abs_eq a), (Z.abs_eq (2 ^ j)) by lia.
  rewrite quotient_exponent_pow2 by lia.
  rewrite Z.max_l by lia.
  destruct (scale2 1 (52 - (Z.log2 a - j))) as [sn sd].
  destruct (Z.leb_spec 1024 (Z.log2 a - j)); [reflexivity | lia].
Qed.

End FormatSizeEdges.

(** X5.  [format_size] gives the raw-bytes text [<size_kb * 1024> B]
    exactly for the sizes that are zero or negative: a negative size meets
    none of the thresholds and reads, for example, [-1024 B]. *)
Theorem format_size_bytes_branch (size_kb : Z) :
  format_size size_kb = Ok (PyNum.str_int (size_kb * 1024) ++ " B") <-> size_kb <= 0.
Proof.
  split.
  - intros E. destruct (Z.le_gt_cases size_kb 0) as [|Hk]; [assumption | exfalso].
    destruct (format_size_branch size_kb ltac:(lia)) as (Hg & Hm & Hkb & _).
    destruct (Z.le_gt_cases (2 ^ 30) (size_kb * 1024)) as [L|L].
    { rewrite (Hg L) in E. revert E. apply format_quotient_not_bytes. simpl. tauto. }
    destruct (Z.le_gt_cases (2 ^ 20) (size_kb * 1024)) as [L1|L1].
    { rewrite (Hm (conj L1 L)) in E. revert E. apply format_quotient_not_bytes. simpl. tauto. }
    rewrite (Hkb ltac:(lia)) in E. revert E. apply format_quotient_not_bytes. simpl. tauto.
  - intros Hk. destruct (Z.eq_dec size_kb 0) as [->|Hne]; [reflexivity|].
    destruct (format_size_branch size_kb Hne) as (_ & _ & _ & Hb). apply Hb. lia.
Qed.

(** X6.  A whole number of units is shown with [.0]: every size from 1
    to 1023 KB reads [<n>.0 KB], [n] MB (below 1024) read [<n>.0 MB], and
    [n] GB (below [2^23], where the quotient is exact) read [<n>.0 GB]. *)
Theorem format_size_whole_units (n : Z) :
  (1 <= n < 1024 -> format_size n = Ok (PyNum.str_int n ++ ".0 KB")) /\
  (1 <= n < 1024 -> format_size (n * 1024) = Ok (PyNum.str_int n ++ ".0 MB")) /\
  (1 <= n < 2 ^ 23 -> format_size (n * 1024 * 1024) = Ok (PyNum.str_int n ++ ".0 GB")).
Proof.
  repeat split; intros Hn.
  - destruct (format_size_branch n ltac:(lia)) as (_ & _ & Hkb & _).
    rewrite Hkb by lia. replace (n * 1024) with (n * 2 ^ 10) by lia.
    apply format_quotient_whole; lia.
  - destruct (format_size_branch (n * 1024) ltac:(lia)) as (_ & Hm & _ & _).
    rewrite Hm by lia. replace (n * 1024 * 1024) with (n * 2 ^ 20) by lia.
    apply format_quotient_whole; lia.
  - destruct (format_size_branch (n * 1024 * 1024) ltac:(lia)) as (Hg & _ & _ & _).
    rewrite Hg by lia. replace (n * 1024 * 1024 * 1024) with (n * 2 ^ 30) by lia.
    apply format_quotient_whole; lia.
Qed.

(** X7.  From [2^1044] KB on, [format_size] raises [OverflowError]: the
    byte value divided by [2^30] is too large for a float. *)
Theorem format_size_overflow (size_kb : Z) :
  2 ^ 1044 <= size_kb -> format_size size_kb = Raise OverflowError.
Proof.
  intros Hk.
  assert (0 < 2 ^ 1044) as Hp by (apply Z.pow_pos_nonneg; lia).
  assert (2 ^ 1054 <= size_kb * 1024) as Hb.
  { assert (2 ^ 1054 = 2 ^ 1044 * 2 ^ 10) as ->
      by (change 1054 with (1044 + 10); apply Z.pow_add_r; lia).
    change (2 ^ 10) with 1024. lia. }
  assert (2 ^ 30 <= 2 ^ 1054) as Hm by (apply Z.pow_le_mono_r; lia).
  destruct (format_size_branch size_kb ltac:(lia)) as (Hg & _).
  rewrite Hg by lia. unfold format_quotient.
  rewrite int_true_divide_overflow; [reflexivity | lia | exact Hb].
Qed.

Lemma format_size_overflow_witness :
  2 ^ 1044 <= 2 ^ 1044 /\ format_size (2 ^ 1044) = Raise OverflowError.
Proof.
  assert (2 ^ 1044 <= 2 ^ 1044) as H by lia.
  split; [exact H | exact (format_size_overflow (2 ^ 1044) H)].
Defined.

(* ------------------------------------------------------------------ *)
(** * [handle_input]: the keys and the window *)
(* ------------------------------------------------------------------ *)

(** The key codes as numbers. *)
Ltac key_codes :=
  change (ord "k") with 107 in *; change (ord "j") with 106 in *;
  change (ord "g") with 103 in *; change (ord "G") with 71 in *;
  change (ord "Q") with 81 in *; change (ord "q") with 113 in *;
  change (ord "D") with 68 in *; change (ord " ") with 32 in *;
  unfold KEY_UP, KEY_DOWN, KEY_PPAGE, KEY_NPAGE in *.

(** The selection that [handle_input] returns does not go below zero. *)
Lemma handle_input_selected_nonneg (key selected scroll : Z)
    (entries : list NodeModulesEntry) (height : Z) :
  5 <= height -> 0 <= selected ->
  let '(sel, _, _, _, _) := handle_input key selected scroll entries height in 0 <= sel.
Proof.
  intros Hh Hs. unfold handle_input.
  repeat match goal with
         | |- context [if ?c then (_, _, _, _) else _] => destruct c
         end; lia.
Qed.

(** The scroll-off rule keeps the selected row in the window. *)
Lemma scrolled_window (selected scroll height : Z) :
  6 <= height -> 0 <= selected ->
  0 <= scrolled selected scroll height <= selected /\
  selected < scrolled selected scroll height + (height - 5).
Proof.
  intros Hh Hs. unfold scrolled, SCROLLOFF.
  set (table_rows := height - 5) in *.
  assert (0 <= table_rows / 2 /\ 2 * (table_rows / 2) <= table_rows) as [Hd1 Hd2].
  { pose proof (Z.div_mod table_rows 2 ltac:(lia)).
    pose proof (Z.mod_pos_bound table_rows 2 ltac:(lia)). lia. }
  set (so := Z.min 3 (table_rows / 2)) in *.
  assert (0 <= so /\ 2 * so <= table_rows) as [Hso1 Hso2] by (subst so; lia).
  clearbody so.
  destruct (Z.ltb_spec (selected - scroll) so);
    match goal with
    | |- context [if ?a <=? ?b then _ else _] => destruct (Z.leb_spec a b)
    end; lia.
Qed.

(** With seven table rows or more the scroll-off rule leaves three rows
    of context on both sides of the selected row (above: unless the window
    is at the top). *)
Lemma scrolled_context (selected scroll height : Z) :
  12 <= height -> 0 <= selected ->
  let scr := scrolled selected scroll height in
  (scr = 0 \/ 3 <= selected - scr) /\ selected + 3 < scr + (height - 5).
Proof.
  intros Hh Hs. unfold scrolled, SCROLLOFF.
  set (table_rows := height - 5) in *.
  assert (3 <= table_rows / 2) as Hd.
  { apply Z.div_le_lower_bound; lia. }
  rewrite Z.min_l by lia.
  destruct (Z.ltb_spec (selected - scroll) 3);
    match goal with
    | |- context [if ?a <=? ?b then _ else _] => destruct (Z.leb_spec a b)
    end; lia.
Qed.

(** The intents and the keys that raise them. *)
Lemma handle_input_flags (key selected scroll : Z)
    (entries : list NodeModulesEntry) (height : Z) :
  let '(_, _, quit_flag, delete_flag, mark_flag) :=
    handle_input key selected scroll entries height in
  (quit_flag = true <-> key = ord "Q" \/ key = ord "q" \/ key = 27) /\
  (delete_flag = true <-> key = ord "D") /\
  (mark_flag = true <-> key = ord " ").
Proof.
  unfold handle_input, key_in, existsb. key_codes.
  repeat match goal with
         | |- context [Z.eqb ?a ?b] => destruct (Z.eqb_spec a b)
         end; cbn [orb];
    repeat split; try reflexivity; try discriminate; intros; try lia;
    try (exfalso; lia).
Qed.

(** X8.  [handle_input] raises the quit intent exactly for the keys [Q],
    [q] and Esc, the delete intent exactly for [D] (not for [d]), and the
    mark intent exactly for the space bar; at most one intent is raised. *)
Theorem handle_input_intent_keys (key selected scroll : Z)
    (entries : list NodeModulesEntry) (height : Z) :
  let '(_, _, quit_flag, delete_flag, mark_flag) :=
    handle_input key selected scroll entries height in
  (quit_flag = true <-> key = ord "Q" \/ key = ord "q" \/ key = 27) /\
  (delete_flag = true <-> key = ord "D") /\
  (mark_flag = true <-> key = ord " ") /\
  (delete_flag = true -> key <> ord "d") /\
  (quit_flag && delete_flag = false) /\ (quit_flag && mark_flag = false) /\
  (delete_flag && mark_flag = false).
Proof.
  pose proof (handle_input_flags key selected scroll entries height) as Hf.
  destruct (handle_input key selected scroll entries height) as [[[[sel scr] q] d] m].
  destruct Hf as (Hq & Hd & Hm). split; [exact Hq|]. split; [exact Hd|]. split; [exact Hm|].
  change (ord "d") with 100. key_codes.
  split; [intros E; apply Hd in E; lia|].
  destruct q, d, m; cbn [andb]; repeat split; try reflexivity; exfalso;
    repeat match goal with
           | Hx : true = true <-> _ |- _ => pose proof (proj1 Hx eq_refl); clear Hx
           end; lia.
Qed.

(** X9.  In a terminal of six rows or more (at least one table row),
    whatever the key and the scroll offset given: the scroll offset that
    [handle_input] returns is not negative and the row it selects lies in
    the window, [scroll <= selected < scroll + table_rows]. *)
Theorem handle_input_cursor_in_window (key selected scroll : Z)
    (entries : list NodeModulesEntry) (height : Z) :
  6 <= height -> 0 <= selected ->
  let '(sel, scr, _, _, _) := handle_input key selected scroll entries height in
  0 <= scr <= sel /\ sel < scr + (height - 5).
Proof.
  intros Hh Hs.
  pose proof (handle_input_scroll key selected scroll entries height) as E.
  pose proof (handle_input_selected_nonneg key selected scroll entries height
                ltac:(lia) Hs) as Hn.
  destruct (handle_input key selected scroll entries height) as [[[[sel scr] q] d] m].
  subst scr. now apply scrolled_window.
Qed.

Lemma handle_input_cursor_in_window_witness :
  6 <= 25 /\ 0 <= 99 /\
  let '(sel, scr, _, _, _) := handle_input (ord "x") 99 80 (example_entries 100) 25 in
  0 <= scr <= sel /\ sel < scr + (25 - 5).
Proof.
  assert (6 <= 25) as H1 by lia. assert (0 <= 99) as H2 by lia.
  split; [exact H1|]. split; [exact H2|].
  exact (handle_input_cursor_in_window (ord "x") 99 80 (example_entries 100) 25 H1 H2).
Defined.

(** X10.  In a terminal of twelve rows or more (seven table rows), after
    every key the window keeps three rows of context around the selected
    row: three rows below it always (the window may run past the last
    record for that), and three rows above it unless the window is at the
    top of the list. *)
Theorem handle_input_scrolloff (key selected scroll : Z)
    (entries : list NodeModulesEntry) (height : Z) :
  12 <= height -> 0 <= selected ->
  let '(sel, scr, _, _, _) := handle_input key selected scroll entries height in
  (scr = 0 \/ SCROLLOFF <= sel - scr) /\ sel + SCROLLOFF < scr + (height - 5).
Proof.
  intros Hh Hs.
  pose proof (handle_input_scroll key selected scroll entries height) as E.
  pose proof (handle_input_selected_nonneg key selected scroll entries height
                ltac:(lia) Hs) as Hn.
  destruct (handle_input key selected scroll entries height) as [[[[sel scr] q] d] m].
  subst scr. now apply scrolled_context.
Qed.

Lemma handle_input_scrolloff_witness :
  12 <= 25 /\ 0 <= 50 /\
  let '(sel, scr, _, _, _) := handle_input KEY_DOWN 50 40 (example_entries 100) 25 in
  (scr = 0 \/ SCROLLOFF <= sel - scr) /\ sel + SCROLLOFF < scr + (25 - 5).
Proof.
  assert (12 <= 25) as H1 by lia. assert (0 <= 50) as H2 by lia.
  split; [exact H1|]. split; [exact H2|].
  exact (handle_input_scrolloff KEY_DOWN 50 40 (example_entries 100) 25 H1 H2).
Defined.

(* ------------------------------------------------------------------ *)
(** * How the records of a session change *)
(* ------------------------------------------------------------------ *)

Lemma main_loop_app {World : Type} `{FileSystem World} (fs1 fs2 : list Frame)
    (s : State World) :
  main_loop (fs1 ++ fs2) s =
    match main_loop fs1 s with
    | Continue s1 => main_loop fs2 s1
    | o => o
    end.
Proof.
  revert s. induction fs1 as [|f fs1 IH]; intros s; [reflexivity|].
  cbn [List.app main_loop]. destruct (main_loop_iteration f s); [apply IH | reflexivity..].
Qed.

Lemma entries_drain {World : Type} (f : Frame) (s : State World) :
  entries (drain_and_clamp f s) = (entries s ++ arrived f)%list /\
  world (drain_and_clamp f s) = world s.
Proof. unfold drain_and_clamp. destruct (entries s ++ arrived f)%list; now split. Qed.

Section Evolution.
Context {World : Type} `{FileSystem World}.

(** A relation between a record and what it is later, which marking and a
    deletion (of a record that is not deleted) keep. *)
Variable R : NodeModulesEntry -> NodeModulesEntry -> Prop.
Hypothesis R_refl : forall e, R e e.
Hypothesis R_trans : forall a b c, R a b -> R b c -> R a c.
Hypothesis R_toggle : forall e, R e (toggle_mark e).
Hypothesis R_delete :
  forall e error, deleted e = false -> R e (finish_delete error (begin_delete e)).

Lemma Forall2_same (l : list NodeModulesEntry) : Forall2 R l l.
Proof. induction l; constructor; auto. Qed.

Lemma Forall2_chain (l1 l2 l3 : list NodeModulesEntry) :
  Forall2 R l1 l2 -> Forall2 R l2 l3 -> Forall2 R l1 l3.
Proof.
  intros H12. revert l3. induction H12 as [|a b l1 l2 Hab _ IH]; intros l3 H23;
    inversion H23; subst; constructor; eauto.
Qed.

Lemma Forall2_by_position (l l' : list NodeModulesEntry) :
  length l = length l' ->
  (forall i x y, nth_error l i = Some x -> nth_error l' i = Some y -> R x y) ->
  Forall2 R l l'.
Proof.
  revert l'. induction l as [|x l IH]; intros [|y l'] L Hp; try discriminate L; constructor.
  - exact (Hp 0%nat x y eq_refl eq_refl).
  - apply IH; [now injection L|]. intros i a b Ha Hb. exact (Hp (S i) a b Ha Hb).
Qed.

Lemma Forall2_update_at (i : nat) (l : list NodeModulesEntry) :
  Forall2 R l (update_at i toggle_mark l).
Proof.
  revert i. induction l as [|x l IH]; intros [|i]; simpl; constructor; auto using Forall2_same.
Qed.

Lemma batch_evolves (targets : list nat) (w : World) (es : list NodeModulesEntry) :
  NoDup targets ->
  (forall t, In t targets -> exists e, nth_error es t = Some e /\ deleted e = false) ->
  Forall2 R es (snd (delete_loop w (begin_all targets es) targets)).
Proof.
  intros ND Ht. apply Forall2_by_position.
  - now rewrite length_delete_loop, length_begin_all.
  - intros i e y He Hy.
    pose proof (nth_error_begin_all targets es i) as Eb. rewrite He in Eb.
    destruct (in_dec Nat.eq_dec i targets) as [Hin|Hout].
    + destruct (Ht i Hin) as (e' & He' & Hd). rewrite He in He'. injection He' as <-.
      apply In_nth_error in Hin. destruct Hin as [k Hk].
      rewrite (delete_loop_target targets w _ k i (begin_delete e) ND Hk Eb) in Hy.
      injection Hy as <-. now apply R_delete.
    + rewrite delete_loop_other, Eb in Hy by assumption. injection Hy as <-. apply R_refl.
Qed.

Lemma delete_step_evolves (confirm : Z) (s s' : State World) :
  delete_step confirm s = Ok s' -> Forall2 R (entries s) (entries s').
Proof.
  unfold delete_step. intros E.
  destruct (select_targets (entries s) (selected s)) as [targets|] eqn:Et; [|discriminate E].
  apply select_targets_spec in Et. destruct Et as [ND Hd]. cbn [bind] in E.
  destruct targets as [|t ts]; [injection E as <-; apply Forall2_same|].
  destruct (key_in confirm [ord "Y"; ord "y"]); [|injection E as <-; apply Forall2_same].
  pose proof (batch_evolves (t :: ts) (world s) (entries s) ND Hd) as Hb.
  destruct (delete_loop (world s) (begin_all (t :: ts) (entries s)) (t :: ts)) as [w es].
  injection E as <-. exact Hb.
Qed.

Lemma mark_step_evolves (h : Z) (es es' : list NodeModulesEntry) (sel scr sel' scr' : Z) :
  mark_step h es sel scr = Ok (es', sel', scr') -> Forall2 R es es'.
Proof.
  unfold mark_step. destruct (py_index es sel) as [i|]; [|discriminate]. simpl.
  intros E. assert (es' = update_at i toggle_mark es) as ->.
  { destruct (sel <? len (update_at i toggle_mark es) - 1); now injection E. }
  apply Forall2_update_at.
Qed.

Lemma process_key_evolves (f : Frame) (s : State World) :
  Forall2 R (entries s) (entries (outcome_state (process_key f s))).
Proof.
  unfold process_key.
  destruct (key f =? -1); [apply Forall2_same|].
  destruct (handle_input (key f) (selected s) (scroll s) (entries s) (height f))
    as [[[[sel scr] q] d] m].
  destruct q; [apply Forall2_same|]. cbn [entries world].
  destruct (m && nonempty_list (entries s)).
  - destruct (mark_step (height f) (entries s) sel scr) as [[[es' sel'] scr']|] eqn:Em;
      [|apply Forall2_same].
    apply mark_step_evolves in Em. cbn [bind entries].
    destruct (d && nonempty_list es'); [|exact Em].
    destruct (delete_step (confirm_key f) (mkState es' sel' scr' (world s))) as [s'|] eqn:Ed;
      [|exact Em].
    apply delete_step_evolves in Ed. exact (Forall2_chain _ _ _ Em Ed).
  - cbn [entries]. destruct (d && nonempty_list (entries s)); [|apply Forall2_same].
    destruct (delete_step (confirm_key f) (mkState (entries s) sel scr (world s)))
      as [s'|] eqn:Ed; [|apply Forall2_same].
    now apply delete_step_evolves in Ed.
Qed.

Lemma iteration_evolves (f : Frame) (s : State World) :
  Forall2 R (entries s ++ arrived f) (entries (outcome_state (main_loop_iteration f s))).
Proof.
  unfold main_loop_iteration. rewrite <- (proj1 (entries_drain f s)).
  apply process_key_evolves.
Qed.

(** The list after the frames: the list before and the items that
    arrived, in that order, each as it is later; all the items when the loop
    goes on. *)
Lemma main_loop_evolves (frames : list Frame) (s : State World) :
  exists n,
    Forall2 R (entries s ++ firstn n (flat_map arrived frames))
      (entries (outcome_state (main_loop frames s))) /\
    (forall s', main_loop frames s = Continue s' ->
       firstn n (flat_map arrived frames) = flat_map arrived frames).
Proof.
  revert s. induction frames as [|f frames IH]; intros s.
  - exists 0%nat. cbn. rewrite List.app_nil_r. split; [apply Forall2_same | reflexivity].
  - pose proof (iteration_evolves f s) as Hi. cbn [main_loop flat_map].
    destruct (main_loop_iteration f s) as [s1|s1|e s1]; cbn [outcome_state] in Hi.
    + destruct (IH s1) as (n & Hn & Hall).
      exists (length (arrived f) + n)%nat.
      rewrite firstn_app_2. split.
      * rewrite List.app_assoc. eapply Forall2_chain; [|exact Hn].
        apply Forall2_app; [exact Hi | apply Forall2_same].
      * intros s' E. now rewrite (Hall s' E).
    + exists (length (arrived f)). rewrite <- (Nat.add_0_r (length (arrived f))).
      rewrite firstn_app_2. cbn [firstn]. rewrite List.app_nil_r.
      split; [exact Hi | discriminate].
    + exists (length (arrived f)). rewrite <- (Nat.add_0_r (length (arrived f))).
      rewrite firstn_app_2. cbn [firstn]. rewrite List.app_nil_r.
      split; [exact Hi | discriminate].
Qed.

End Evolution.

Lemma in_firstn {A : Type} (x : A) (n : nat) (l : list A) : In x (firstn n l) -> In x l.
Proof.
  revert l. induction n as [|n IH]; intros [|a l]; simpl; try tauto.
  intros [-> | Hx]; [now left | right; now apply IH].
Qed.

Section Keeping.
Context {World : Type} `{FileSystem World}.

(** A property of records that marking and a deletion (of a record that is
    not deleted) keep. *)
Variable P : NodeModulesEntry -> Prop.
Hypothesis P_toggle : forall e, P e -> P (toggle_mark e).
Hypothesis P_delete :
  forall e error, P e -> deleted e = false -> P (finish_delete error (begin_delete e)).

Lemma Forall2_keeps (l l' : list NodeModulesEntry) :
  Forall2 (fun e e' => P e -> P e') l l' -> Forall P l -> Forall P l'.
Proof.
  induction 1 as [|a b l l' Hab _ IH]; intros Hl; [constructor|].
  inversion Hl; subst. constructor; auto.
Qed.

Lemma main_loop_keeps (frames : list Frame) (s : State World) :
  Forall (fun f => Forall P (arrived f)) frames ->
  Forall P (entries s) -> Forall P (entries (outcome_state (main_loop frames s))).
Proof.
  intros Hf Hs.
  destruct (main_loop_evolves (fun e e' => P e -> P e')
              (fun e He => He) (fun a b c Hab Hbc Ha => Hbc (Hab Ha)) P_toggle
              (fun e error Hd He => P_delete e error He Hd) frames s) as (n & Hn & _).
  apply (Forall2_keeps _ _ Hn). apply Forall_app. split; [exact Hs|].
  apply Forall_forall. intros e He. apply in_firstn in He.
  apply in_flat_map in He. destruct He as (f & Hin & He).
  rewrite Forall_forall in Hf. specialize (Hf f Hin). rewrite Forall_forall in Hf. auto.
Qed.

End Keeping.

(** ** The paths of a record *)

Lemma kept_refl (e : NodeModulesEntry) : kept e e.
Proof. now repeat split. Qed.

Lemma kept_trans (a b c : NodeModulesEntry) : kept a b -> kept b c -> kept a c.
Proof.
  intros (A1 & A2 & A3) (B1 & B2 & B3). repeat split; try congruence.
  intros D. specialize (A3 D). subst b. auto.
Qed.

Lemma kept_toggle (e : NodeModulesEntry) : kept e (toggle_mark e).
Proof.
  unfold toggle_mark. destruct (deleted e) eqn:D; cbn [negb]; [apply kept_refl|].
  repeat split. congruence.
Qed.

Lemma kept_delete (e : NodeModulesEntry) (error : option string) :
  deleted e = false -> kept e (finish_delete error (begin_delete e)).
Proof.
  intros D. unfold finish_delete. destruct (truthy error); [destruct error|];
    repeat split; congruence.
Qed.

(** X11.  Over any frames, from any state: the list of records only grows
    at its end, by the items read from the queue in their order; a record
    stays at its position with its [abs_path] and [rel_path], and a record
    that is deleted is never changed again. *)
Theorem records_in_arrival_order {World : Type} `{FileSystem World}
    (frames : list Frame) (s : State World) :
  let o := main_loop frames s in
  (exists n, Forall2 kept (entries s ++ firstn n (flat_map arrived frames))
               (entries (outcome_state o))) /\
  (forall s', o = Continue s' ->
     Forall2 kept (entries s ++ flat_map arrived frames) (entries s')).
Proof.
  intros o.
  destruct (main_loop_evolves kept kept_refl kept_trans kept_toggle kept_delete frames s)
    as (n & Hn & Hall).
  split; [now exists n|]. intros s' E. fold o in Hn, Hall.
  rewrite <- (Hall s' E). rewrite E in Hn. exact Hn.
Qed.

(** ** The file system *)

Lemma process_key_world {World : Type} `{FileSystem World} (f : Frame) (s : State World) :
  key f <> ord "D" \/ key_in (confirm_key f) [ord "Y"; ord "y"] = false ->
  world (outcome_state (process_key f s)) = world s.
Proof.
  intros Hk. unfold process_key.
  destruct (key f =? -1); [reflexivity|].
  pose proof (handle_input_flags (key f) (selected s) (scroll s) (entries s) (height f)) as Hf.
  destruct (handle_input (key f) (selected s) (scroll s) (entries s) (height f))
    as [[[[sel scr] q] d] m].
  destruct Hf as (_ & Hd & _).
  destruct q; [reflexivity|]. cbn [entries world].
  assert (forall s1 : State World, world s1 = world s ->
            world (outcome_state
                     (if d && nonempty_list (entries s1)
                      then match delete_step (confirm_key f) s1 with
                           | Raise e => Crash e s1
                           | Ok s2 => Continue s2
                           end
                      else Continue s1)) = world s) as Hdel.
  { intros s1 Hw. destruct d; cbn [andb]; [|exact Hw].
    destruct (nonempty_list (entries s1)); [|exact Hw].
    destruct Hk as [Hk | Hc]; [now contradiction Hk; apply Hd|].
    unfold delete_step. destruct (select_targets (entries s1) (selected s1)) as [[|t ts]|];
      cbn [bind]; try exact Hw. rewrite Hc. exact Hw. }
  destruct (m && nonempty_list (entries s)).
  - destruct (mark_step (height f) (entries s) sel scr) as [[[es' sel'] scr']|];
      cbn [bind]; [|reflexivity].
    apply (Hdel (mkState es' sel' scr' (world s))). reflexivity.
  - apply (Hdel (mkState (entries s) sel scr (world s))). reflexivity.
Qed.

(** X12.  The file system is what it was as long as no frame has both the
    key [D] and the confirmation [Y] or [y]: moving, marking, quitting, a
    delete that is not confirmed and the arrival of records leave it
    alone. *)
Theorem filesystem_untouched {World : Type} `{FileSystem World}
    (frames : list Frame) (s : State World) :
  Forall (fun f => key f <> ord "D" \/ key_in (confirm_key f) [ord "Y"; ord "y"] = false)
    frames ->
  world (outcome_state (main_loop frames s)) = world s.
Proof.
  revert s. induction frames as [|f frames IH]; intros s Hf; [reflexivity|].
  inversion Hf as [|? ? Hf1 Hf2]; subst. cbn [main_loop].
  pose proof (process_key_world f (drain_and_clamp f s) Hf1) as Hw.
  rewrite (proj2 (entries_drain f s)) in Hw. fold (main_loop_iteration f s) in Hw.
  destruct (main_loop_iteration f s) as [s1|s1|e s1]; cbn [outcome_state] in Hw |- *;
    [|exact Hw..].
  rewrite IH by assumption. exact Hw.
Qed.

Lemma filesystem_untouched_witness :
  Forall (fun f => key f <> ord "D" \/ key_in (confirm_key f) [ord "Y"; ord "y"] = false)
    [mkFrame [example_a] 24 (ord " ") 0; mkFrame [] 24 (ord "D") (ord "n")] /\
  world (outcome_state
           (main_loop [mkFrame [example_a] 24 (ord " ") 0; mkFrame [] 24 (ord "D") (ord "n")]
              (initial_state example_world))) = example_world.
Proof.
  assert (Forall (fun f => key f <> ord "D" \/
                           key_in (confirm_key f) [ord "Y"; ord "y"] = false)
            [mkFrame [example_a] 24 (ord " ") 0; mkFrame [] 24 (ord "D") (ord "n")]) as Hf.
  { constructor; [left; discriminate|]. constructor; [right; reflexivity | constructor]. }
  split; [exact Hf|].
  exact (filesystem_untouched _ (initial_state example_world) Hf).
Defined.

(** ** The status *)

Lemma status_ok_scanner (e : NodeModulesEntry) : scanner_entry e -> status_ok e.
Proof.
  intros (a & r & k & E). apply new_entry_ok in E. destruct E as [-> _].
  unfold status_ok. cbn. now left.
Qed.

Lemma status_ok_toggle (e : NodeModulesEntry) : status_ok e -> status_ok (toggle_mark e).
Proof.
  unfold toggle_mark, status_ok. destruct (deleted e) eqn:D; cbn [negb]; [now rewrite D|].
  cbn. now rewrite D.
Qed.

Lemma status_ok_delete (e : NodeModulesEntry) (error : option string) :
  status_ok e -> deleted e = false -> status_ok (finish_delete error (begin_delete e)).
Proof.
  intros _ D. unfold finish_delete, status_ok.
  destruct error as [msg|]; cbn [truthy]; [|reflexivity].
  destruct (String.eqb_spec msg ""); cbn [negb]; [reflexivity|].
  cbn. rewrite D. right. now exists msg.
Qed.

Lemma status_ok_reading (e : NodeModulesEntry) :
  status_ok e ->
  (status e = "Deleted" <-> deleted e = true) /\
  status e <> "Deleting..." /\
  (String.length (status e) <= 13)%nat.
Proof.
  unfold status_ok. destruct (deleted e).
  - intros ->. repeat split; try discriminate. cbn. lia.
  - intros [-> | (msg & _ & ->)].
    + repeat split; try discriminate. cbn. lia.
    + pose proof (StrFacts.length_substring_le 8 msg) as L.
      repeat split; try discriminate.
      rewrite StrFacts.length_app. cbn [String.length]. lia.
Qed.

(** X13.  Between iterations the status of a record tells whether it is
    deleted: it reads ["Deleted"] exactly when the record is deleted, and
    else ["Active"] or ["Err: "] and at most eight characters of the error;
    it never stays at ["Deleting..."] and is at most 13 characters long. *)
Theorem status_tells_deleted {World : Type} `{FileSystem World}
    (frames : list Frame) (w0 : World) (e : NodeModulesEntry) :
  scanner_frames frames ->
  In e (entries (outcome_state (main_loop frames (initial_state w0)))) ->
  status_ok e /\
  (status e = "Deleted" <-> deleted e = true) /\
  status e <> "Deleting..." /\
  (String.length (status e) <= 13)%nat.
Proof.
  intros Hf He.
  assert (Forall status_ok (entries (outcome_state (main_loop frames (initial_state w0)))))
    as Hall.
  { apply main_loop_keeps.
    - exact status_ok_toggle.
    - exact status_ok_delete.
    - eapply Forall_impl; [|exact Hf]. intros f Ha.
      eapply Forall_impl; [|exact Ha]. exact status_ok_scanner.
    - constructor. }
  rewrite Forall_forall in Hall. specialize (Hall e He).
  split; [exact Hall | now apply status_ok_reading].
Qed.

Lemma status_tells_deleted_witness :
  scanner_frames [mkFrame [example_a] 24 (ord "D") (ord "Y")] /\
  In (mkEntry "/r/a/node_modules" "a" 0 "—" "Deleted" true false)
     (entries (outcome_state (main_loop [mkFrame [example_a] 24 (ord "D") (ord "Y")]
                                (initial_state example_world)))) /\
  (status (mkEntry "/r/a/node_modules" "a" 0 "—" "Deleted" true false) = "Deleted" <->
   deleted (mkEntry "/r/a/node_modules" "a" 0 "—" "Deleted" true false) = true).
Proof.
  assert (scanner_frames [mkFrame [example_a] 24 (ord "D") (ord "Y")]) as Hf.
  { constructor; [|constructor]. constructor; [exact example_a_scanner | constructor]. }
  assert (In (mkEntry "/r/a/node_modules" "a" 0 "—" "Deleted" true false)
            (entries (outcome_state (main_loop [mkFrame [example_a] 24 (ord "D") (ord "Y")]
                                       (initial_state example_world))))) as Hin
    by (left; reflexivity).
  split; [exact Hf|]. split; [exact Hin|].
  exact (proj1 (proj2 (status_tells_deleted _ example_world _ Hf Hin))).
Defined.

(* ------------------------------------------------------------------ *)
(** * Marks after a deletion *)
(* ------------------------------------------------------------------ *)

Section Marks.
Context {World : Type} `{FileSystem World}.

(** A record that is not a target of the delete is not marked (deleted
    records are not marked). *)
Lemma unmarked_outside_targets (es : list NodeModulesEntry) (sel : Z) (targets : list nat) :
  Forall record_ok es ->
  select_targets es sel = Ok targets ->
  forall i e, nth_error es i = Some e -> ~ In i targets -> marked e = false.
Proof.
  intros Hok Et i e He Hout.
  assert (record_ok e) as [_ Hd].
  { rewrite Forall_forall in Hok. eapply Hok, nth_error_In. exact He. }
  destruct (marked e) eqn:M; [exfalso | reflexivity].
  destruct (deleted e) eqn:D; [destruct (Hd eq_refl) as (_ & _ & F); discriminate F|].
  assert (In i (marked_from 0 es)) as Hin.
  { apply marked_from_spec. split; [lia|]. exists e. rewrite Nat.sub_0_r. auto. }
  unfold select_targets in Et. destruct (marked_from 0 es) as [|t ts]; [contradiction|].
  injection Et as <-. contradiction.
Qed.

Lemma marked_finish_delete (error : option string) (e : NodeModulesEntry) :
  marked (finish_delete error (begin_delete e)) = false.
Proof. unfold finish_delete. destruct (truthy error); [destruct error|]; reflexivity. Qed.

Lemma confirmed_delete_unmarks (confirm : Z) (s s' : State World) :
  Forall record_ok (entries s) ->
  key_in confirm [ord "Y"; ord "y"] = true ->
  delete_step confirm s = Ok s' ->
  Forall (fun e => marked e = false) (entries s').
Proof.
  intros Hok Hc E. unfold delete_step in E.
  destruct (select_targets (entries s) (selected s)) as [targets|] eqn:Et;
    [|discriminate E]. cbn [bind] in E.
  pose proof (unmarked_outside_targets _ _ _ Hok Et) as Hout.
  destruct (select_targets_spec _ _ _ Et) as [ND _].
  destruct targets as [|t ts].
  - injection E as <-. apply Forall_forall. intros e He.
    apply In_nth_error in He. destruct He as [i Hi]. exact (Hout i e Hi (fun F => F)).
  - rewrite Hc in E.
    destruct (delete_loop (world s) (begin_all (t :: ts) (entries s)) (t :: ts))
      as [w es] eqn:El.
    injection E as <-. cbn [entries].
    assert (es = snd (delete_loop (world s) (begin_all (t :: ts) (entries s)) (t :: ts)))
      as -> by now rewrite El.
    apply Forall_forall. intros y Hy. apply In_nth_error in Hy. destruct Hy as [i Hy].
    assert (i < length (entries s))%nat as Hi.
    { rewrite <- (length_begin_all (t :: ts) (entries s)),
        <- (length_delete_loop (t :: ts) (world s)).
      apply nth_error_Some. congruence. }
    destruct (nth_error (entries s) i) as [e|] eqn:Ee; [|apply nth_error_None in Ee; lia].
    pose proof (nth_error_begin_all (t :: ts) (entries s) i) as Eb. rewrite Ee in Eb.
    destruct (in_dec Nat.eq_dec i (t :: ts)) as [Hin|Hni].
    + apply In_nth_error in Hin. destruct Hin as [k Hk].
      rewrite (delete_loop_target (t :: ts) (world s) _ k i (begin_delete e) ND Hk Eb) in Hy.
      injection Hy as <-. apply marked_finish_delete.
    + rewrite delete_loop_other, Eb in Hy by assumption. injection Hy as <-.
      exact (Hout i e Ee Hni).
Qed.

End Marks.

(** X14.  A confirmed deletion leaves no record marked: after a frame with
    the key [D] and the confirmation [Y] or [y], in a session fed by the
    scanner, every record is unmarked, whether its deletion succeeded or
    not. *)
Theorem confirmed_deletion_clears_marks {World : Type} `{FileSystem World}
    (frames : list Frame) (f : Frame) (w0 : World) (s' : State World) :
  scanner_frames (frames ++ [f]) ->
  key f = ord "D" ->
  key_in (confirm_key f) [ord "Y"; ord "y"] = true ->
  main_loop (frames ++ [f]) (initial_state w0) = Continue s' ->
  Forall (fun e => marked e = false) (entries s').
Proof.
  intros Hf Hk Hc E. unfold scanner_frames in Hf. apply Forall_app in Hf.
  destruct Hf as [Hf Hlast]. inversion Hlast as [|? ? Ha _]; subst.
  rewrite main_loop_app in E.
  pose proof (session_records_ok frames w0 Hf) as Hok.
  destruct (main_loop frames (initial_state w0)) as [s1| |]; try discriminate E.
  cbn [outcome_state] in Hok. cbn [main_loop] in E.
  destruct (main_loop_iteration f s1) as [s2| |] eqn:Ei; try discriminate E.
  injection E as <-. unfold main_loop_iteration in Ei.
  assert (Forall record_ok (entries (drain_and_clamp f s1))) as Hd.
  { apply drain_preserves; [|exact Hok]. eapply Forall_impl; [|exact Ha].
    exact record_ok_scanner. }
  set (s := drain_and_clamp f s1) in *. clearbody s.
  unfold process_key in Ei. rewrite Hk in Ei. change (ord "D" =? -1) with false in Ei.
  rewrite handle_input_delete_key in Ei. cbn [andb entries world bind] in Ei.
  destruct (nonempty_list (entries s)) eqn:En.
  - destruct (delete_step (confirm_key f)
                (mkState (entries s) (selected s) (scrolled (selected s) (scroll s) (height f))
                   (world s))) as [s3|] eqn:Ed; [|discriminate Ei].
    injection Ei as <-. eapply confirmed_delete_unmarks; [|exact Hc | exact Ed]. exact Hd.
  - injection Ei as <-. cbn [entries]. destruct (entries s); [constructor | discriminate En].
Qed.

Lemma confirmed_deletion_clears_marks_witness :
  scanner_frames ([mkFrame [example_a; example_b] 24 (ord " ") 0]
                  ++ [mkFrame [] 24 (ord "D") (ord "y")]) /\
  Forall (fun e => marked e = false)
    (entries (outcome_state
                (main_loop ([mkFrame [example_a; example_b] 24 (ord " ") 0]
                            ++ [mkFrame [] 24 (ord "D") (ord "y")])
                   (initial_state example_world)))).
Proof.
  assert (scanner_frames ([mkFrame [example_a; example_b] 24 (ord " ") 0]
                          ++ [mkFrame [] 24 (ord "D") (ord "y")])) as Hf.
  { repeat constructor; [exact example_a_scanner|].
    exists "/r/b/node_modules", "b", 2048. reflexivity. }
  split; [exact Hf|].
  exact (confirmed_deletion_clears_marks [mkFrame [example_a; example_b] 24 (ord " ") 0]
           (mkFrame [] 24 (ord "D") (ord "y")) example_world _ Hf eq_refl eq_refl eq_refl).
Defined.

(* ------------------------------------------------------------------ *)
(** * The selected row on the screen *)
(* ------------------------------------------------------------------ *)

Section Window.
Context {World : Type} `{FileSystem World}.
Variable h : Z.
Hypothesis tall : 6 <= h.

Lemma drain_on_screen (f : Frame) (s : State World) :
  height f = h -> cursor_ok s -> on_screen h s -> on_screen h (drain_and_clamp f s).
Proof.
  unfold cursor_ok, on_screen, drain_and_clamp. intros Hh [Hs Hc] [Ho1 Ho2]. rewrite Hh.
  assert (len (entries s) <= len (entries s ++ arrived f)) as Hle
    by (unfold len; rewrite length_app; lia).
  destruct (entries s ++ arrived f)%list as [|x l] eqn:E; cbn [entries selected scroll].
  - split; assumption.
  - split; lia.
Qed.

Lemma mark_step_on_screen (es : list NodeModulesEntry) (sel scr : Z)
    (es' : list NodeModulesEntry) (sel' scr' : Z) :
  0 <= scr <= sel -> sel < scr + (h - 5) ->
  mark_step h es sel scr = Ok (es', sel', scr') ->
  0 <= scr' <= sel' /\ sel' < scr' + (h - 5).
Proof.
  intros H1 H2. unfold mark_step, SCROLLOFF.
  destruct (py_index es sel) as [i|]; [|discriminate]. cbn [bind].
  set (table_rows := h - 5) in *.
  assert (0 <= table_rows / 2 /\ 2 * (table_rows / 2) <= table_rows) as [Hd1 Hd2].
  { pose proof (Z.div_mod table_rows 2 ltac:(lia)).
    pose proof (Z.mod_pos_bound table_rows 2 ltac:(lia)). lia. }
  set (so := Z.min 3 (table_rows / 2)) in *.
  assert (0 <= so /\ 2 * so <= table_rows) as [Hso1 Hso2] by (subst so; lia).
  clearbody so.
  destruct (sel <? len (update_at i toggle_mark es) - 1).
  - destruct (Z.leb_spec (scr + table_rows - so) (sel + 1)); intros E;
      injection E as <- <- <-; lia.
  - intros E. injection E as <- <- <-. lia.
Qed.

Lemma process_key_on_screen (f : Frame) (s : State World) :
  height f = h -> cursor_ok s -> on_screen h s ->
  on_screen h (outcome_state (process_key f s)).
Proof.
  unfold on_screen. intros Hh [Hs Hc] Ho. unfold process_key. rewrite Hh.
  destruct (key f =? -1); [exact Ho|].
  pose proof (handle_input_scroll (key f) (selected s) (scroll s) (entries s) h) as E.
  pose proof (handle_input_selected_nonneg (key f) (selected s) (scroll s) (entries s) h
                ltac:(lia) ltac:(lia)) as Hn.
  pose proof (handle_input_cursor (key f) (selected s) (scroll s) (entries s) h
                ltac:(lia) Hs) as Hi.
  destruct (handle_input (key f) (selected s) (scroll s) (entries s) h)
    as [[[[sel scr] q] d] m]. destruct Hi as [Hsel _].
  pose proof (scrolled_window sel (scroll s) h tall Hn) as Hw. rewrite <- E in Hw.
  destruct q; [exact Hw|]. cbn [entries world].
  destruct (m && nonempty_list (entries s)) eqn:Em.
  - apply andb_true_iff in Em. destruct Em as [_ Em]. apply len_nonempty in Em.
    destruct (mark_step_cursor h (entries s) sel scr Em Hsel)
      as (es' & sel' & scr' & Ems & Hl & Hsel' & _).
    rewrite Ems. cbn [bind entries].
    destruct (mark_step_on_screen _ _ _ _ _ _ (proj1 Hw) (proj2 Hw) Ems) as [M1 M2].
    assert (len es' = len (entries s)) as Hl' by (unfold len; now rewrite Hl).
    destruct (d && nonempty_list es') eqn:Ed.
    + destruct (delete_step_cursor (confirm_key f) (mkState es' sel' scr' (world s)))
        as (s' & -> & _ & S1 & S2); cbn [entries selected]; try lia.
      cbn [outcome_state]. cbn [selected scroll] in S1, S2. rewrite S1, S2. split; assumption.
    + cbn [outcome_state selected scroll]. split; assumption.
  - cbn [entries]. destruct (d && nonempty_list (entries s)) eqn:Ed.
    + apply andb_true_iff in Ed. destruct Ed as [_ Ed]. apply len_nonempty in Ed.
      destruct (delete_step_cursor (confirm_key f) (mkState (entries s) sel scr (world s)))
        as (s' & -> & _ & S1 & S2); cbn [entries selected]; try lia.
      cbn [outcome_state]. cbn [selected scroll] in S1, S2. rewrite S1, S2. exact Hw.
    + cbn [outcome_state selected scroll]. exact Hw.
Qed.

Lemma main_loop_on_screen (frames : list Frame) (s : State World) :
  frames_of_height h frames -> cursor_ok s -> on_screen h s ->
  on_screen h (outcome_state (main_loop frames s)).
Proof.
  revert s. induction frames as [|f frames IH]; intros s Hf Hs Ho; [exact Ho|].
  apply Forall_cons_iff in Hf. destruct Hf as [Hf1 Hf2]. cbn [main_loop].
  pose proof (drain_on_screen f s Hf1 Hs Ho) as Hd.
  destruct (drain_cursor f s Hs) as [Hc _].
  pose proof (process_key_on_screen f _ Hf1 Hc Hd) as Hp.
  destruct (process_key_cursor f _ ltac:(lia) Hc) as [_ Hc'].
  fold (main_loop_iteration f s) in Hp, Hc'.
  destruct (main_loop_iteration f s) as [s'|s'|e s']; [now apply IH | exact Hp | exact Hp].
Qed.

Lemma redrawn_on_screen (f : Frame) (s shown : State World) :
  height f = h -> cursor_ok s -> on_screen h s -> redrawn f s = Some shown ->
  on_screen h shown.
Proof.
  intros Hh Hs Ho. unfold redrawn.
  pose proof (drain_on_screen f s Hh Hs Ho) as Hd.
  destruct (drain_cursor f s Hs) as [[Hsel _] _].
  set (s1 := drain_and_clamp f s) in *. rewrite Hh.
  destruct (key f =? -1); [discriminate|].
  pose proof (handle_input_scroll (key f) (selected s1) (scroll s1) (entries s1) h) as E.
  pose proof (handle_input_selected_nonneg (key f) (selected s1) (scroll s1) (entries s1) h
                ltac:(lia) ltac:(lia)) as Hn.
  destruct (handle_input (key f) (selected s1) (scroll s1) (entries s1) h)
    as [[[[sel scr] q] d] m].
  pose proof (scrolled_window sel (scroll s1) h tall Hn) as Hw. rewrite <- E in Hw.
  destruct (q || m || negb d || negb (nonempty_list (entries s1))); [discriminate|].
  destruct (select_targets (entries s1) sel) as [[|t ts]|]; try discriminate.
  destruct (key_in (confirm_key f) [ord "Y"; ord "y"]); [|discriminate].
  intros Es. injection Es as <-. exact Hw.
Qed.

End Window.

(** X15.  In a terminal that keeps a height of six rows or more, the
    selected row is on the screen in every state shown: after any frames,
    in the frame that the main loop draws next (after its clamp) and in the
    redraw of a confirmed deletion, [scroll <= selected < scroll +
    table_rows]. *)
Theorem selected_row_on_screen {World : Type} `{FileSystem World}
    (h : Z) (frames : list Frame) (w0 : World) :
  6 <= h -> frames_of_height h frames ->
  let o := main_loop frames (initial_state w0) in
  on_screen h (outcome_state o) /\
  (forall f s, o = Continue s -> height f = h ->
     on_screen h (drain_and_clamp f s) /\
     (forall shown, redrawn f s = Some shown -> on_screen h shown)).
Proof.
  intros Hh Hf o.
  assert (cursor_ok (initial_state w0)) as C0 by (unfold cursor_ok; simpl; lia).
  assert (on_screen h (initial_state w0)) as O0 by (unfold on_screen; simpl; lia).
  assert (tall_frames frames) as Ht.
  { eapply Forall_impl; [|exact Hf]. cbn beta. intros f ->. lia. }
  pose proof (main_loop_on_screen h Hh frames _ Hf C0 O0) as Ho.
  destruct (main_loop_cursor frames _ Ht C0) as [_ Hc].
  split; [exact Ho|]. intros f s E Hfh. subst o. rewrite E in Ho, Hc.
  cbn [outcome_state] in Ho, Hc. split.
  - now apply drain_on_screen.
  - intros shown Hr. exact (redrawn_on_screen h Hh f s shown Hfh Hc Ho Hr).
Qed.

Lemma selected_row_on_screen_witness :
  6 <= 25 /\ frames_of_height 25 [mkFrame (example_entries 100) 25 (ord "G") 0] /\
  on_screen 25 (outcome_state (main_loop [mkFrame (example_entries 100) 25 (ord "G") 0]
                                  (initial_state example_world))).
Proof.
  assert (6 <= 25) as H1 by lia.
  assert (frames_of_height 25 [mkFrame (example_entries 100) 25 (ord "G") 0]) as H2
    by (repeat constructor).
  split; [exact H1|]. split; [exact H2|].
  exact (proj1 (selected_row_on_screen 25 _ example_world H1 H2)).
Defined.

(* ------------------------------------------------------------------ *)
(** * What the scan finds *)
(* ------------------------------------------------------------------ *)

Section ScanComplete.
Import PathFacts WalkFacts.

(** In a listing of pairwise different names, [find] by name returns the
    entry of that name. *)
Lemma find_by_name (subdirs : list (string * dtree)) (c : string) (p : string * dtree) :
  NoDup (map fst subdirs) ->
  (find (fun q => (fst q =? c)%string) subdirs = Some p <-> In p subdirs /\ fst p = c).
Proof.
  induction subdirs as [|[n t] l IH]; intros ND; cbn [find fst].
  - split; [discriminate | intros [[] _]].
  - inversion ND as [|? ? Hn ND']; subst.
    destruct (String.eqb_spec n c) as [->|Hne].
    + split.
      * intros E. injection E as <-. split; [now left | reflexivity].
      * intros [[<- | Hp] Hc]; [reflexivity|]. exfalso. apply Hn. rewrite <- Hc.
        now apply in_map.
    + rewrite (IH ND'). split.
      * intros [Hp Hc]. split; [now right | assumption].
      * intros [[<- | Hp] Hc]; [now contradiction Hne | now split].
Qed.

(** The directories in which the walk finds a [node_modules]: those that
    list one and that no [node_modules] lies on the way to. *)
Lemma target_dirs_exact (t : dtree) :
  wf_tree t = true ->
  forall cs,
    In cs (target_dirs t) <->
    ~ In "node_modules" cs /\
    exists sub, subdir_at t cs = Some sub /\ has_node_modules sub = true.
Proof.
  induction t as [|subdirs IH] using dtree_induction; intros W cs.
  - cbn [target_dirs]. split; [intros [] | intros (_ & sub & E & Hs)].
    destruct cs; [injection E as <-; discriminate Hs | discriminate E].
  - destruct (wf_tree_Dir _ W) as (_ & ND & Hw).
    destruct (children_left subdirs W) as [_ Hleft].
    cbn [target_dirs]. rewrite (proj2 (visit_children_flat_map _ subdirs)).
    rewrite in_app_iff, in_flat_map. rewrite Forall_forall in IH, Hw.
    destruct cs as [|c cs].
    + cbn [subdir_at]. split.
      * intros [Hin | (p & _ & Hin)].
        -- destruct (existsb (String.eqb "node_modules") (map fst subdirs)) eqn:Ex;
             [|contradiction].
           split; [intros [] | exists (Dir subdirs); now split].
        -- apply in_map_iff in Hin. destruct Hin as (? & F & _). discriminate F.
      * intros (_ & sub & E & Hs). injection E as <-. cbn [has_node_modules] in Hs.
        left. rewrite Hs. now left.
    + cbn [subdir_at]. split.
      * intros [Hin | (p & Hp & Hin)].
        { destruct (existsb _ _); [destruct Hin as [F | []]; discriminate F | contradiction]. }
        apply in_map_iff in Hin. destruct Hin as (cs' & E & Hcs'). injection E as <- <-.
        destruct (Hleft p Hp) as (_ & Hne & Hwp & Hps).
        apply (IH p Hps Hwp) in Hcs'. destruct Hcs' as (Hnm & sub & Es & Hs).
        split; [intros [F | F]; [now apply Hne | now apply Hnm]|].
        exists sub. split; [|exact Hs].
        assert (find (fun q => (fst q =? fst p)%string) subdirs = Some p) as ->
          by (apply find_by_name; auto).
        now destruct p.
      * intros (Hnm & sub & Es & Hs). right.
        destruct (find (fun q => (fst q =? c)%string) subdirs) as [p|] eqn:Ef;
          [|discriminate Es].
        apply find_by_name in Ef; [|assumption]. destruct Ef as [Hp Hc].
        exists p. split.
        -- apply remove_first_spec; [assumption|]. split; [assumption|].
           rewrite Hc. intros F. apply Hnm. now left.
        -- apply in_map_iff. exists cs. split; [now rewrite Hc|].
           apply (IH p Hp (Hw p Hp)). split; [intros F; apply Hnm; now right|].
           exists sub. split; [now destruct p | exact Hs].
Qed.

(** The components of a directory of the tree are clean names. *)
Lemma subdir_at_clean (t : dtree) :
  wf_tree t = true ->
  forall cs sub, subdir_at t cs = Some sub -> forallb clean_name cs = true.
Proof.
  induction t as [|subdirs IH] using dtree_induction; intros W cs sub E.
  - destruct cs; [reflexivity | discriminate E].
  - destruct cs as [|c cs]; [reflexivity|]. cbn [subdir_at] in E.
    destruct (wf_tree_Dir _ W) as (Hc & ND & Hw).
    destruct (find (fun q => (fst q =? c)%string) subdirs) as [p|] eqn:Ef; [|discriminate E].
    apply find_by_name in Ef; [|assumption]. destruct Ef as [Hp <-].
    rewrite Forall_forall in IH, Hw. rewrite forallb_forall in Hc.
    cbn [forallb]. rewrite (Hc (fst p)) by now apply in_map.
    destruct p as [n t']. exact (IH (n, t') Hp (Hw _ Hp) cs sub E).
Qed.

End ScanComplete.

(** X16.  The scan finds exactly the [node_modules] directories that are
    not below another [node_modules] and that the listings lead to.  From
    the root that [main] passes, [/r1/.../rn]: the walk builds the path
    [root/c1/.../ck/node_modules] for every directory [root/c1/.../ck] of
    the tree that lists a [node_modules] and has no [ci] called
    [node_modules]; and every path it builds is one of these. *)
Theorem scan_finds_the_targets (cwd arg : string) (tree : dtree) :
  PosixPath.isabs cwd = true ->
  wf_tree tree = true ->
  let root := PosixPath.abspath cwd arg in
  exists d rs,
    root = path_of d rs /\
    (forall cs sub,
       subdir_at tree cs = Some sub -> has_node_modules sub = true ->
       ~ In "node_modules" cs ->
       In (path_of d (rs ++ cs ++ ["node_modules"])) (walk_paths root tree)) /\
    (forall p, In p (walk_paths root tree) ->
       exists cs sub,
         p = path_of d (rs ++ cs ++ ["node_modules"]) /\ ~ In "node_modules" cs /\
         subdir_at tree cs = Some sub /\ has_node_modules sub = true).
Proof.
  intros Hcwd W root.
  destruct (PathFacts.abspath_normalised cwd arg Hcwd) as (d & rs & Hrs & E).
  exists d, rs. split; [exact E|]. subst root. rewrite E.
  rewrite WalkFacts.walk_paths_target_dirs by assumption. split.
  - intros cs sub Es Hs Hnm. apply in_map_iff. exists cs. split; [reflexivity|].
    apply target_dirs_exact; [assumption|]. split; [assumption | eauto].
  - intros p Hp. apply in_map_iff in Hp. destruct Hp as (cs & <- & Hcs).
    apply target_dirs_exact in Hcs; [|assumption]. destruct Hcs as (Hnm & sub & Es & Hs).
    exists cs, sub. auto.
Qed.

Lemma scan_finds_the_targets_witness :
  PosixPath.isabs "/home" = true /\ wf_tree example_tree = true /\
  exists d rs,
    PosixPath.abspath "/home" "r" = path_of d rs /\
    In (path_of d (rs ++ ["a"] ++ ["node_modules"]))
       (walk_paths (PosixPath.abspath "/home" "r") example_tree).
Proof.
  split; [reflexivity|]. split; [reflexivity|].
  destruct (scan_finds_the_targets "/home" "r" example_tree eq_refl eq_refl)
    as (d & rs & E & Hall & _).
  exists d, rs. split; [exact E|].
  apply (Hall ["a"] (Dir [("node_modules", Dir [("x", Dir [("node_modules", Dir [])])]);
                          ("src", Dir [])])); [reflexivity | reflexivity |].
  intros [F | []]. discriminate F.
Defined.

(* ------------------------------------------------------------------ *)
(** * The records of the scan *)
(* ------------------------------------------------------------------ *)

Section ScanRecords.
Import PathFacts WalkFacts.

(** Below [2^1023] bytes [format_size] returns a label. *)
Lemma format_size_returns (size_kb : Z) :
  size_kb * 1024 < 2 ^ 1023 -> exists label, format_size size_kb = Ok label.
Proof.
  intros Hlt. destruct (Z.eq_dec size_kb 0) as [->|Hne]; [now exists "0 B"|].
  destruct (format_size_branch size_kb Hne) as (Hg & Hm & Hk & Hb).
  destruct (Z.le_gt_cases (2 ^ 30) (size_kb * 1024)) as [L|L].
  { rewrite (Hg L).
    destruct (format_quotient_shape (size_kb * 1024) (2 ^ 30) "GB") as (q & r & _ & _ & ->);
      try lia; eauto. }
  destruct (Z.le_gt_cases (2 ^ 20) (size_kb * 1024)) as [L1|L1].
  { rewrite (Hm (conj L1 L)).
    destruct (format_quotient_shape (size_kb * 1024) (2 ^ 20) "MB") as (q & r & _ & _ & ->);
      try lia; eauto. }
  destruct (Z.le_gt_cases (2 ^ 10) (size_kb * 1024)) as [L2|L2].
  { rewrite (Hk (conj L2 L1)).
    destruct (format_quotient_shape (size_kb * 1024) (2 ^ 10) "KB") as (q & r & _ & _ & ->);
      try lia; eauto. }
  rewrite (Hb L2). eauto.
Qed.

Variables (cwd : string) (du : string -> option Z).
Hypothesis du_bound : forall p n, du p = Some n -> n * 1024 < 2 ^ 1023.

Lemma measure_size_bound (p : string) : measure_size du p * 1024 < 2 ^ 1023.
Proof.
  unfold measure_size. destruct (du p) as [n|] eqn:E; [now apply (du_bound p)|].
  apply Z.pow_pos_nonneg; lia.
Qed.

(** The worker of a target below the root puts its record. *)
Lemma measure_and_enqueue_puts (d : bool) (rs cs : list string) :
  forallb clean_name rs = true -> forallb clean_name cs = true ->
  exists label,
    format_size (measure_size du (path_of d (rs ++ cs ++ ["node_modules"]))) = Ok label /\
    measure_and_enqueue cwd (path_of d rs) du (path_of d (rs ++ cs ++ ["node_modules"])) =
      Ok (mkEntry (path_of d (rs ++ cs ++ ["node_modules"]))
            (match cs with [] => "." | _ => String.concat "/" cs end)
            (measure_size du (path_of d (rs ++ cs ++ ["node_modules"])))
            label "Active" false false).
Proof.
  intros Hrs Hcs. set (p := path_of d (rs ++ cs ++ ["node_modules"])).
  destruct (format_size_returns (measure_size du p) (measure_size_bound p)) as [label F].
  exists label. split; [exact F|].
  unfold measure_and_enqueue. fold p.
  assert (PosixPath.dirname p = path_of d (rs ++ cs)) as ->.
  { subst p. rewrite List.app_assoc. apply dirname_path_of; [now apply clean_app | reflexivity]. }
  rewrite relpath_path_of by assumption. cbn [bind].
  unfold new_entry, post_init. cbn [size_human size_kb String.eqb]. rewrite F. reflexivity.
Qed.

Lemma records_of_targets (d : bool) (rs : list string) (targets : list (list string)) :
  forallb clean_name rs = true ->
  Forall (fun cs => forallb clean_name cs = true) targets ->
  let paths := map (fun cs => path_of d (rs ++ cs ++ ["node_modules"])) targets in
  let records := put_entries (map (measure_and_enqueue cwd (path_of d rs) du) paths) in
  map abs_path records = paths /\
  Forall (fun e =>
            size_kb e = measure_size du (abs_path e) /\
            format_size (size_kb e) = Ok (size_human e) /\
            status e = "Active" /\ deleted e = false /\ marked e = false) records.
Proof.
  intros Hrs Ht. induction Ht as [|cs targets Hcs _ IH]; [split; [reflexivity | constructor]|].
  destruct IH as [IH1 IH2]. cbn [map put_entries flat_map].
  destruct (measure_and_enqueue_puts d rs cs Hrs Hcs) as (label & F & ->).
  cbn [List.app map]. split; [cbn [abs_path]; f_equal; exact IH1|].
  constructor; [|exact IH2]. cbn [size_kb abs_path size_human status deleted marked]. auto.
Qed.

End ScanRecords.

(** X17.  When [du] reports sizes below [2^1023] bytes, the scan puts one
    record on the queue for each path that the walk builds, in the order of
    the walk: each with that path as [abs_path], the size that
    [measure_size] returns, the label that [format_size] gives it, the
    status ["Active"], not deleted and not marked. *)
Theorem scan_puts_one_record_per_target (cwd arg : string) (du : string -> option Z)
    (tree : dtree) :
  PosixPath.isabs cwd = true ->
  wf_tree tree = true ->
  (forall p n, du p = Some n -> n * 1024 < 2 ^ 1023) ->
  let root := PosixPath.abspath cwd arg in
  let records := find_node_modules cwd root tree du in
  map abs_path records = walk_paths root tree /\
  Forall (fun e =>
            size_kb e = measure_size du (abs_path e) /\
            format_size (size_kb e) = Ok (size_human e) /\
            status e = "Active" /\ deleted e = false /\ marked e = false) records.
Proof.
  intros Hcwd W Hdu root records.
  destruct (PathFacts.abspath_normalised cwd arg Hcwd) as (d & rs & Hrs & E).
  subst records root. rewrite E. unfold find_node_modules.
  rewrite WalkFacts.walk_paths_target_dirs by assumption.
  apply records_of_targets; try assumption.
  apply Forall_forall. intros cs Hcs.
  now apply (proj1 (WalkFacts.target_dirs_spec tree W)).
Qed.

Lemma scan_puts_one_record_per_target_witness :
  PosixPath.isabs "/home" = true /\ wf_tree example_tree = true /\
  (forall (p : string) n, (fun _ : string => Some 2048) p = Some n -> n * 1024 < 2 ^ 1023) /\
  map abs_path (find_node_modules "/home" (PosixPath.abspath "/home" "r") example_tree
                  (fun _ => Some 2048))
    = walk_paths (PosixPath.abspath "/home" "r") example_tree.
Proof.
  assert (forall (p : string) n, (fun _ : string => Some 2048) p = Some n -> n * 1024 < 2 ^ 1023)
    as Hdu.
  { intros _ n E. injection E as <-. apply Z.ltb_lt. vm_compute. reflexivity. }
  split; [reflexivity|]. split; [reflexivity|]. split; [exact Hdu|].
  exact (proj1 (scan_puts_one_record_per_target "/home" "r" (fun _ => Some 2048) example_tree
                  eq_refl eq_refl Hdu)).
Defined.

Section ScanRows.
Import PathFacts WalkFacts.

Variables (cwd : string) (du : string -> option Z).

(** The path shown for the directory with the components [cs] below the
    root. *)
Lemma shown_path_inj (cs ds : list string) :
  forallb clean_name cs = true -> forallb clean_name ds = true ->
  match cs with [] => "." | _ => String.concat "/" cs end =
    match ds with [] => "." | _ => String.concat "/" ds end ->
  cs = ds.
Proof.
  assert (forall xs, xs <> [] -> forallb clean_name xs = true ->
                     String.concat "/" xs <> ".") as Hdot.
  { intros xs Hne Hc E. pose proof (split_concat xs Hne (proj1 (proj2 (clean_forall xs Hc)))) as S.
    rewrite E in S. cbn in S. subst xs. discriminate Hc. }
  intros Hc Hd E. destruct cs as [|c cs], ds as [|d ds]; [reflexivity| | |].
  - symmetry in E. now apply Hdot in E.
  - now apply Hdot in E.
  - apply concat_inj; (assumption || discriminate).
Qed.

Lemma rel_paths_of_targets (d : bool) (rs : list string) (targets : list (list string)) :
  forallb clean_name rs = true ->
  Forall (fun cs => forallb clean_name cs = true) targets ->
  NoDup targets ->
  let paths := map (fun cs => path_of d (rs ++ cs ++ ["node_modules"])) targets in
  let records := put_entries (map (measure_and_enqueue cwd (path_of d rs) du) paths) in
  NoDup (map rel_path records) /\
  forall r, In r (map rel_path records) ->
    exists cs, In cs targets /\ r = match cs with [] => "." | _ => String.concat "/" cs end.
Proof.
  intros Hrs Ht ND. induction Ht as [|cs targets Hcs Ht IH];
    [split; [constructor | intros ? []]|].
  inversion ND as [|? ? Hn ND']; subst. destruct (IH ND') as [IH1 IH2].
  cbn [map put_entries flat_map].
  destruct (measure_and_enqueue cwd (path_of d rs) du
              (path_of d (rs ++ cs ++ ["node_modules"]))) as [e|] eqn:E.
  - apply measure_and_enqueue_ok in E. destruct E as [_ Er].
    rewrite List.app_assoc, dirname_path_of in Er
      by ((now apply clean_app) || reflexivity).
    rewrite relpath_path_of in Er by assumption. injection Er as Er.
    cbn [List.app map]. split.
    + constructor; [|exact IH1]. intros Hin. destruct (IH2 _ Hin) as (ds & Hds & Ed).
      rewrite <- Er in Ed. apply shown_path_inj in Ed; [now subst ds | assumption |].
      rewrite Forall_forall in Ht. now apply Ht.
    + intros r [<- | Hr]; [exists cs; split; [now left | now symmetry]|].
      destruct (IH2 r Hr) as (ds & Hds & Ed). exists ds. split; [now right | exact Ed].
  - cbn [List.app]. split; [exact IH1|]. intros r Hr.
    destruct (IH2 r Hr) as (ds & Hds & Ed). exists ds. split; [now right | exact Ed].
Qed.

End ScanRows.

(** X18.  No two records of a scan show the same path: the [rel_path] of
    the records that the scanner emits are pairwise different. *)
Theorem scan_shows_distinct_paths (cwd arg : string) (du : string -> option Z)
    (tree : dtree) :
  PosixPath.isabs cwd = true ->
  wf_tree tree = true ->
  NoDup (map rel_path (find_node_modules cwd (PosixPath.abspath cwd arg) tree du)).
Proof.
  intros Hcwd W.
  destruct (PathFacts.abspath_normalised cwd arg Hcwd) as (d & rs & Hrs & E).
  rewrite E. unfold find_node_modules.
  rewrite WalkFacts.walk_paths_target_dirs by assumption.
  destruct (WalkFacts.target_dirs_spec tree W) as [Hspec ND].
  apply rel_paths_of_targets; try assumption.
  apply Forall_forall. intros cs Hcs. now apply Hspec.
Qed.

Lemma scan_shows_distinct_paths_witness :
  PosixPath.isabs "/home" = true /\ wf_tree example_tree = true /\
  NoDup (map rel_path (find_node_modules "/home" (PosixPath.abspath "/home" "r") example_tree
                         (fun _ => Some 2048))).
Proof.
  split; [reflexivity|]. split; [reflexivity|].
  exact (scan_shows_distinct_paths "/home" "r" (fun _ => Some 2048) example_tree
           eq_refl eq_refl).
Defined.

(** X19.  A target whose size [du] does not give (the command fails,
    times out or prints something else) is listed with the size 0 and the
    label ["0 B"]. *)
Theorem unmeasured_target_shows_zero (cwd root : string) (du : string -> option Z)
    (tree : dtree) (e : NodeModulesEntry) :
  In e (find_node_modules cwd root tree du) ->
  du (abs_path e) = None ->
  measure_size du (abs_path e) = 0 /\ size_kb e = 0 /\ size_human e = "0 B".
Proof.
  intros Hin Hdu. apply in_find_node_modules in Hin. destruct Hin as (p & _ & E).
  pose proof (measure_and_enqueue_ok cwd du root p e E) as [Ea _]. subst p.
  unfold measure_and_enqueue in E. unfold measure_size in *. rewrite Hdu in *.
  destruct (PosixPath.relpath cwd (PosixPath.dirname (abs_path e)) root) as [rel|];
    [|discriminate E].
  cbn [bind] in E. apply new_entry_ok in E. destruct E as [E F].
  split; [reflexivity|]. rewrite E in F |- *. cbn [size_kb size_human] in *.
  split; [reflexivity|]. cbn in F. now injection F.
Qed.

Lemma unmeasured_target_shows_zero_witness :
  In (mkEntry "/home/r/a/node_modules" "a" 0 "0 B" "Active" false false)
     (find_node_modules "/home" "/home/r" example_tree (fun _ => None)) /\
  (fun _ : string => @None Z)
    (abs_path (mkEntry "/home/r/a/node_modules" "a" 0 "0 B" "Active" false false)) = None /\
  size_human (mkEntry "/home/r/a/node_modules" "a" 0 "0 B" "Active" false false) = "0 B".
Proof.
  assert (In (mkEntry "/home/r/a/node_modules" "a" 0 "0 B" "Active" false false)
            (find_node_modules "/home" "/home/r" example_tree (fun _ => None))) as Hin
    by (left; reflexivity).
  split; [exact Hin|]. split; [reflexivity|].
  exact (proj2 (proj2 (unmeasured_target_shows_zero "/home" "/home/r" (fun _ => None)
                         example_tree _ Hin eq_refl))).
Defined.

(* ------------------------------------------------------------------ *)
(** * Keys in the main loop *)
(* ------------------------------------------------------------------ *)

(** X20.  [g] selects the first record and puts the window at the top (in
    a terminal of six rows or more), whatever the selection and the scroll
    offset were; [G] selects the last record. *)
Theorem handle_input_jumps (selected scroll : Z) (entries : list NodeModulesEntry)
    (height : Z) :
  (6 <= height ->
   handle_input (ord "g") selected scroll entries height = (0, 0, false, false, false)) /\
  (let '(sel, _, quit_flag, delete_flag, mark_flag) :=
     handle_input (ord "G") selected scroll entries height in
   sel = Z.max 0 (len entries - 1) /\
   quit_flag = false /\ delete_flag = false /\ mark_flag = false).
Proof.
  split.
  - intros Hh. unfold handle_input. cbn [key_in existsb]. key_codes. cbn [Z.eqb Pos.eqb orb].
    unfold SCROLLOFF. set (table_rows := height - 5) in *.
    assert (0 <= table_rows / 2 /\ 2 * (table_rows / 2) <= table_rows) as [Hd1 Hd2].
    { pose proof (Z.div_mod table_rows 2 ltac:(lia)).
      pose proof (Z.mod_pos_bound table_rows 2 ltac:(lia)). lia. }
    set (so := Z.min 3 (table_rows / 2)) in *.
    assert (0 <= so /\ 2 * so <= table_rows) as [Hso1 Hso2] by (subst so; lia).
    clearbody so.
    destruct (Z.ltb_spec (0 - scroll) so);
      match goal with
      | |- context [if ?a <=? ?b then _ else _] => destruct (Z.leb_spec a b)
      end; repeat f_equal; lia.
  - unfold handle_input. cbn [key_in existsb]. key_codes. cbn [Z.eqb Pos.eqb orb].
    repeat split.
Qed.

Section Keys.
Context {World : Type} `{FileSystem World}.

(** The arrival of records does not move the selection. *)
Lemma drain_selected (f : Frame) (s : State World) :
  cursor_ok s -> selected (drain_and_clamp f s) = selected s.
Proof.
  unfold cursor_ok, drain_and_clamp. intros [Hs _].
  assert (len (entries s) <= len (entries s ++ arrived f)) as Hle
    by (unfold len; rewrite length_app; lia).
  destruct (entries s ++ arrived f)%list as [|x l] eqn:E; cbn [selected]; [reflexivity|].
  lia.
Qed.

End Keys.

(** X21.  In a terminal of five rows or more the clamp of the selection
    at the start of an iteration never changes it: after any frames, the
    frame that comes next shows the selection that the last one left,
    however many records have arrived. *)
Theorem arrivals_keep_selection {World : Type} `{FileSystem World}
    (frames : list Frame) (w0 : World) (f : Frame) (s : State World) :
  tall_frames frames ->
  main_loop frames (initial_state w0) = Continue s ->
  selected (drain_and_clamp f s) = selected s /\
  entries (drain_and_clamp f s) = (entries s ++ arrived f)%list.
Proof.
  intros Hf E.
  assert (cursor_ok (initial_state w0)) as C0 by (unfold cursor_ok; simpl; lia).
  destruct (main_loop_cursor frames _ Hf C0) as [_ Hc]. rewrite E in Hc.
  split; [now apply drain_selected | apply entries_drain].
Qed.

Lemma arrivals_keep_selection_witness :
  tall_frames [mkFrame (example_entries 100) 25 (ord "G") 0] /\
  selected (drain_and_clamp (mkFrame (example_entries 50) 8 (-1) 0)
              (mkState (example_entries 100) 99 83 example_world)) = 99.
Proof.
  assert (tall_frames [mkFrame (example_entries 100) 25 (ord "G") 0]) as Hf
    by (repeat constructor; simpl; lia).
  split; [exact Hf|].
  exact (proj1 (arrivals_keep_selection [mkFrame (example_entries 100) 25 (ord "G") 0]
                  example_world (mkFrame (example_entries 50) 8 (-1) 0)
                  (mkState (example_entries 100) 99 83 example_world) Hf eq_refl)).
Defined.

(** X22.  The space bar marks the record under the cursor and moves on:
    with the cursor on a record of the list (terminal of five rows or
    more), the iteration goes on with that record's mark flipped if it is
    not deleted, and as it was if it is; every other record, and the file
    system, as they were; and the cursor one row down, unless it is on the
    last record. *)
Theorem space_marks_and_advances {World : Type} `{FileSystem World}
    (f : Frame) (s : State World) :
  key f = ord " " -> 5 <= height f -> 0 <= selected s < len (entries s) ->
  exists s',
    process_key f s = Continue s' /\
    entries s' = update_at (Z.to_nat (selected s)) toggle_mark (entries s) /\
    (forall i, nth_error (entries s') i =
               if Nat.eqb i (Z.to_nat (selected s))
               then option_map toggle_mark (nth_error (entries s) i)
               else nth_error (entries s) i) /\
    (forall e, deleted e = true -> toggle_mark e = e) /\
    (forall e, deleted e = false -> toggle_mark e = set_marked (negb (marked e)) e) /\
    selected s' = Z.min (selected s + 1) (len (entries s) - 1) /\
    world s' = world s.
Proof.
  intros Hk Hh Hs. unfold process_key. rewrite Hk.
  change (ord " " =? -1) with false. rewrite handle_input_mark_key.
  assert (nonempty_list (entries s) = true) as Hnl.
  { destruct (entries s); [unfold len in Hs; simpl in Hs; lia | reflexivity]. }
  cbn [andb entries world]. rewrite Hnl. unfold mark_step.
  rewrite py_index_in_range by assumption. cbn [bind].
  assert (len (update_at (Z.to_nat (selected s)) toggle_mark (entries s)) = len (entries s))
    as El by (unfold len; now rewrite length_update_at).
  rewrite El.
  assert (forall i, nth_error (update_at (Z.to_nat (selected s)) toggle_mark (entries s)) i =
                    if Nat.eqb i (Z.to_nat (selected s))
                    then option_map toggle_mark (nth_error (entries s) i)
                    else nth_error (entries s) i) as Hn.
  { intros i. destruct (Nat.eqb_spec i (Z.to_nat (selected s))) as [->|Hne].
    - apply nth_error_update_at_same.
    - apply nth_error_update_at_other. congruence. }
  assert (forall e, deleted e = true -> toggle_mark e = e) as Ht1
    by (intros e D; unfold toggle_mark; now rewrite D).
  assert (forall e, deleted e = false -> toggle_mark e = set_marked (negb (marked e)) e) as Ht2
    by (intros e D; unfold toggle_mark; now rewrite D).
  destruct (Z.ltb_spec (selected s) (len (entries s) - 1)); cbn [bind andb];
    eexists; (split; [reflexivity|]); cbn [entries selected world];
    repeat split; auto; lia.
Qed.

Lemma space_marks_and_advances_witness :
  key (mkFrame [] 24 (ord " ") 0) = ord " " /\ 5 <= height (mkFrame [] 24 (ord " ") 0) /\
  0 <= selected (mkState [example_a; example_b] 0 0 example_world)
    < len (entries (mkState [example_a; example_b] 0 0 example_world)) /\
  exists s',
    process_key (mkFrame [] 24 (ord " ") 0) (mkState [example_a; example_b] 0 0 example_world)
      = Continue s' /\
    selected s' = 1.
Proof.
  assert (5 <= height (mkFrame [] 24 (ord " ") 0)) as H1 by (simpl; lia).
  assert (0 <= selected (mkState [example_a; example_b] 0 0 example_world)
          < len (entries (mkState [example_a; example_b] 0 0 example_world))) as H2
    by (vm_compute; split; [discriminate | reflexivity]).
  split; [reflexivity|]. split; [exact H1|]. split; [exact H2|].
  destruct (space_marks_and_advances (mkFrame [] 24 (ord " ") 0)
              (mkState [example_a; example_b] 0 0 example_world) eq_refl H1 H2)
    as (s' & E & _ & _ & _ & _ & Hsel & _).
  exists s'. split; [exact E | exact Hsel].
Defined.

(** X23.  [Q], [q] and Esc end the loop at once: the frames that follow
    are not processed, the records are those of before with the items of
    the queue appended, none of them changed, and the file system is as it
    was. *)
Theorem quit_ends_the_loop {World : Type} `{FileSystem World}
    (f : Frame) (rest : list Frame) (s : State World) :
  key f = ord "Q" \/ key f = ord "q" \/ key f = 27 ->
  exists s',
    main_loop (f :: rest) s = Quit s' /\
    entries s' = (entries s ++ arrived f)%list /\
    world s' = world s.
Proof.
  intros Hk. cbn [main_loop]. unfold main_loop_iteration, process_key.
  destruct (entries_drain f s) as [Ee Ew].
  assert ((key f =? -1) = false) as ->.
  { apply Z.eqb_neq. key_codes. lia. }
  pose proof (handle_input_flags (key f) (selected (drain_and_clamp f s))
                (scroll (drain_and_clamp f s)) (entries (drain_and_clamp f s)) (height f)) as Hf.
  destruct (handle_input (key f) (selected (drain_and_clamp f s))
              (scroll (drain_and_clamp f s)) (entries (drain_and_clamp f s)) (height f))
    as [[[[sel scr] q] d] m].
  destruct Hf as (Hq & _). rewrite (proj2 Hq Hk).
  eexists. split; [reflexivity|]. cbn [entries world]. now split.
Qed.

Lemma quit_ends_the_loop_witness :
  (key (mkFrame [example_a] 24 (ord "q") 0) = ord "Q" \/
   key (mkFrame [example_a] 24 (ord "q") 0) = ord "q" \/
   key (mkFrame [example_a] 24 (ord "q") 0) = 27) /\
  exists s',
    main_loop (mkFrame [example_a] 24 (ord "q") 0 :: [mkFrame [] 24 (ord "D") (ord "Y")])
      (initial_state example_world) = Quit s' /\
    world s' = example_world.
Proof.
  assert (key (mkFrame [example_a] 24 (ord "q") 0) = ord "Q" \/
          key (mkFrame [example_a] 24 (ord "q") 0) = ord "q" \/
          key (mkFrame [example_a] 24 (ord "q") 0) = 27) as Hk by (right; left; reflexivity).
  split; [exact Hk|].
  destruct (quit_ends_the_loop (mkFrame [example_a] 24 (ord "q") 0)
              [mkFrame [] 24 (ord "D") (ord "Y")] (initial_state example_world) Hk)
    as (s' & E & _ & Hw).
  exists s'. split; [exact E | exact Hw].
Defined.

(* ------------------------------------------------------------------ *)
(** * [draw_table] *)
(* ------------------------------------------------------------------ *)

Section DrawTable.

Lemma for_each_ok {A B : Type} (body : A -> result B) (g : A -> B) (l : list A) :
  (forall a, In a l -> body a = Ok (g a)) -> for_each body l = Ok (map g l).
Proof.
  induction l as [|a l IH]; intros Hb; [reflexivity|].
  cbn [for_each map]. rewrite (Hb a) by now left. cbn [bind].
  rewrite IH by (intros; apply Hb; now right). reflexivity.
Qed.

Lemma in_range (n i : Z) : In i (range n) <-> 0 <= i < n.
Proof.
  unfold range. rewrite in_map_iff. split.
  - intros (k & <- & Hk). apply in_seq in Hk. lia.
  - intros Hi. exists (Z.to_nat i). split; [lia|]. apply in_seq. lia.
Qed.

Lemma nth_error_range (n i : Z) :
  0 <= i < n -> nth_error (range n) (Z.to_nat i) = Some i.
Proof.
  intros Hi. unfold range. rewrite nth_error_map.
  rewrite nth_error_seq. destruct (Nat.ltb_spec (Z.to_nat i) (Z.to_nat n)); [|lia].
  cbn. f_equal. lia.
Qed.

Lemma draw_table_row_at (entries : list NodeModulesEntry) (selected scroll width i : Z) :
  0 <= scroll -> 0 <= i ->
  draw_table_row entries selected scroll width i = Ok (row_at entries selected scroll width i).
Proof.
  intros Hs Hi. unfold draw_table_row, row_at.
  destruct (Z.leb_spec (len entries) (scroll + i)) as [Hle|Hlt].
  - assert (nth_error entries (Z.to_nat (scroll + i)) = None) as ->; [|reflexivity].
    apply nth_error_None. unfold len in Hle. lia.
  - rewrite py_index_in_range by lia. cbn [bind].
    destruct (nth_error entries (Z.to_nat (scroll + i))) as [e|] eqn:E; [reflexivity|].
    apply nth_error_None in E. unfold len in Hlt. lia.
Qed.

Lemma draw_table_rows_at (entries : list NodeModulesEntry) (selected scroll height width : Z) :
  0 <= scroll ->
  draw_table entries selected scroll height width =
    Ok (map (row_at entries selected scroll width) (range (height - 5))).
Proof.
  intros Hs. unfold draw_table. apply for_each_ok.
  intros i Hi. apply in_range in Hi. apply draw_table_row_at; lia.
Qed.

End DrawTable.

(** X24.  With a scroll offset that is not negative, [draw_table] raises
    no exception and asks for one row per table row, [max(0, height - 5)]
    of them, on the screen rows from 2 to [height - 4] (below the two
    header rows, above the three footer rows): the table row [i] shows the
    record at position [scroll + i], with the path cut to the path column,
    dim if it is deleted, bold if it is marked, in reverse video if it is
    the selected one; a row past the last record is cleared. *)
Theorem draw_table_rows (entries : list NodeModulesEntry)
    (selected scroll height width : Z) :
  0 <= scroll ->
  exists rows,
    draw_table entries selected scroll height width = Ok rows /\
    Z.of_nat (length rows) = Z.max 0 (height - 5) /\
    forall i, 0 <= i < height - 5 ->
      2 <= 2 + i <= height - 4 /\
      nth_error rows (Z.to_nat i) =
        Some (match nth_error entries (Z.to_nat (scroll + i)) with
              | Some entry =>
                  Shown (2 + i) entry
                    (truncate_path (rel_path entry) (_path_col_width width))
                    (mkAttrs (deleted entry) (marked entry) (scroll + i =? selected))
              | None => Cleared (2 + i)
              end).
Proof.
  intros Hs. eexists. split; [now apply draw_table_rows_at|]. split.
  - unfold range. rewrite !length_map, length_seq. lia.
  - intros i Hi. split; [lia|].
    rewrite nth_error_map, nth_error_range by assumption. reflexivity.
Qed.

Lemma draw_table_rows_witness :
  0 <= 1 /\
  draw_table [example_a; example_b] 1 1 7 80 =
    Ok [Shown 2 example_b "b" (mkAttrs false false true); Cleared 3].
Proof.
  assert (0 <= 1) as H by lia. split; [exact H|].
  destruct (draw_table_rows [example_a; example_b] 1 1 7 80 H) as (rows & E & _).
  rewrite E. exact (eq_sym E).
Defined.

(** X25.  In a terminal that keeps a height of six rows or more, the
    frame that the main loop draws shows the selected record, highlighted,
    and highlights nothing else: [draw_table] raises no exception, its row
    [selected - scroll] is the line of the record at [selected] in reverse
    video, and no other row is in reverse video. *)
Theorem selected_record_highlighted {World : Type} `{FileSystem World}
    (h width : Z) (frames : list Frame) (w0 : World) (f : Frame) (s : State World) :
  6 <= h -> frames_of_height h frames -> height f = h ->
  main_loop frames (initial_state w0) = Continue s ->
  entries (drain_and_clamp f s) <> [] ->
  let shown := drain_and_clamp f s in
  exists rows entry,
    draw_table (entries shown) (selected shown) (scroll shown) h width = Ok rows /\
    nth_error (entries shown) (Z.to_nat (selected shown)) = Some entry /\
    nth_error rows (Z.to_nat (selected shown - scroll shown)) =
      Some (Shown (2 + (selected shown - scroll shown)) entry
              (truncate_path (rel_path entry) (_path_col_width width))
              (mkAttrs (deleted entry) (marked entry) true)) /\
    forall j r, nth_error rows j = Some r -> highlighted r = true ->
                j = Z.to_nat (selected shown - scroll shown).
Proof.
  intros Hh Hf Hfh E Hne shown.
  assert (cursor_ok (initial_state w0)) as C0 by (unfold cursor_ok; simpl; lia).
  assert (on_screen h (initial_state w0)) as O0 by (unfold on_screen; simpl; lia).
  assert (tall_frames frames) as Ht.
  { eapply Forall_impl; [|exact Hf]. cbn beta. intros g ->. lia. }
  pose proof (main_loop_on_screen h Hh frames _ Hf C0 O0) as Ho.
  destruct (main_loop_cursor frames _ Ht C0) as [_ Hc]. rewrite E in Ho, Hc.
  cbn [outcome_state] in Ho, Hc.
  pose proof (drain_on_screen h Hh f s Hfh Hc Ho) as [Hd1 Hd2].
  destruct (drain_cursor f s Hc) as [[Hsel _] _]. fold shown in Hd1, Hd2, Hsel, Hne.
  assert (1 <= len (entries shown)) as Hn.
  { destruct (entries shown); [contradiction | unfold len; simpl length; lia]. }
  assert (exists entry, nth_error (entries shown) (Z.to_nat (selected shown)) = Some entry)
    as [entry Ee].
  { destruct (nth_error (entries shown) (Z.to_nat (selected shown))) eqn:Ee; [eauto|].
    apply nth_error_None in Ee. unfold len in *. lia. }
  exists (map (row_at (entries shown) (selected shown) (scroll shown) width) (range (h - 5))),
    entry.
  split; [apply draw_table_rows_at; lia|]. split; [exact Ee|]. split.
  - rewrite nth_error_map, nth_error_range by lia. cbn [option_map]. unfold row_at.
    replace (scroll shown + (selected shown - scroll shown)) with (selected shown) by ring.
    rewrite Ee, Z.eqb_refl. reflexivity.
  - intros j r Hj Hr. rewrite nth_error_map in Hj.
    destruct (nth_error (range (h - 5)) j) as [i|] eqn:Ei; [|discriminate Hj].
    injection Hj as <-.
    assert (i = Z.of_nat j) as ->.
    { unfold range in Ei. rewrite nth_error_map, nth_error_seq in Ei.
      destruct (Nat.ltb j (Z.to_nat (h - 5))); [|discriminate Ei]. cbn in Ei.
      now injection Ei. }
    unfold row_at, highlighted in Hr.
    destruct (nth_error (entries shown) (Z.to_nat (scroll shown + Z.of_nat j)));
      [|discriminate Hr].
    cbn [A_REVERSE] in Hr. apply Z.eqb_eq in Hr. lia.
Qed.

Lemma selected_record_highlighted_witness :
  6 <= 25 /\ frames_of_height 25 [mkFrame (example_entries 100) 25 (ord "G") 0] /\
  exists rows entry,
    draw_table (example_entries 100) 99 80 25 80 = Ok rows /\
    nth_error rows (Z.to_nat (99 - 80)) =
      Some (Shown (2 + (99 - 80)) entry
              (truncate_path (rel_path entry) (_path_col_width 80))
              (mkAttrs (deleted entry) (marked entry) true)).
Proof.
  assert (6 <= 25) as H1 by lia.
  assert (frames_of_height 25 [mkFrame (example_entries 100) 25 (ord "G") 0]) as H2
    by (repeat constructor).
  split; [exact H1|]. split; [exact H2|].
  destruct (selected_record_highlighted 25 80
              [mkFrame (example_entries 100) 25 (ord "G") 0] example_world
              (mkFrame [] 25 (-1) 0) (mkState (example_entries 100) 99 83 example_world)
              H1 H2 eq_refl eq_refl ltac:(discriminate))
    as (rows & entry & E & _ & Hr & _).
  exists rows, entry. split; [exact E | exact Hr].
Defined.
